(** * next-json-ld: Schema.org JSON-LD builders and their serializer

    A shallow embedding of [src/index.ts] (the builder functions, the
    script serializer and the merger) together with the parts of the
    ECMAScript runtime the code calls: property assignment on plain
    objects, truthiness of optional strings, [Number.prototype.toFixed],
    [Number::toString], [JSON.stringify] and [JSON.parse]. *)

From Stdlib Require Import ZArith NArith QArith Qpower Qround Qabs.
From Stdlib Require Import List String Ascii Lia Bool.
From Stdlib Require Import Floats.SpecFloat.
Import ListNotations.
Open Scope string_scope.
Open Scope list_scope.
Open Scope Z_scope.

(* ====================================================================== *)
(** * Strings *)
(* ====================================================================== *)

(** An ECMAScript string is a finite sequence of UTF-16 code units. *)
Abbreviation jsstring := (list N).

(** ASCII literals of the source text, one code unit per character. *)
Definition str (s : string) : jsstring :=
  map N_of_ascii (list_ascii_of_string s).
Coercion str : string >-> list.

Definition jsstring_eqb (a b : jsstring) : bool :=
  if list_eq_dec N.eq_dec a b then true else false.

(** [ToBoolean] on a string: only the empty string is falsy. *)
Definition truthy_string (s : jsstring) : bool :=
  match s with [] => false | _ :: _ => true end.

(* ====================================================================== *)
(** * Numbers *)
(* ====================================================================== *)

(** An ECMAScript Number is an IEEE 754 binary64 value.  A finite nonzero
    value [S754_finite s m e] denotes [(-1)^s * m * 2^e]. *)
Definition number := spec_float.

Definition prec : Z := 53.
Definition emax : Z := 1024.

(** Canonical binary64 representations: [2^52 <= m < 2^53] with
    [-1074 <= e <= 971], or [m < 2^52] with [e = -1074]. *)
Definition valid_number (x : number) : bool := valid_binary prec emax x.

Definition is_finite (x : number) : bool :=
  match x with
  | S754_zero _ | S754_finite _ _ _ => true
  | _ => false
  end.

(** The magnitude of a finite value, as an exact rational. *)
Definition magnitude (x : number) : Q :=
  match x with
  | S754_finite _ m e => inject_Z (Zpos m) * inject_Z 2 ^ e
  | _ => 0
  end.

Definition is_negative (x : number) : bool :=
  match x with
  | S754_finite s _ _ => s
  | _ => false
  end.

(** [floor (log2 (a / b))] for positive [a] and [b]. *)
Definition floor_log2_ratio (a b : Z) : Z :=
  let d := Z.log2 a - Z.log2 b in
  if b * 2 ^ Z.max 0 d <=? a * 2 ^ Z.max 0 (- d) then d else d - 1.

(** Round the positive rational [a / b] to the nearest binary64 value,
    ties to even, overflowing to infinity. *)
Definition round_ratio (s : bool) (a b : Z) : number :=
  let e := Z.max (floor_log2_ratio a b - (prec - 1)) (3 - emax - prec) in
  let num := a * 2 ^ Z.max 0 (- e) in
  let den := b * 2 ^ Z.max 0 e in
  let m := num / den in
  let r := num mod den in
  let m' := match 2 * r ?= den with
            | Lt => m
            | Gt => m + 1
            | Eq => if Z.even m then m else m + 1
            end in
  let '(m'', e'') := if m' =? 2 ^ prec then (2 ^ (prec - 1), e + 1) else (m', e) in
  if emax - prec <? e'' then S754_infinity s
  else match m'' with
       | Zpos p => S754_finite s p e''
       | _ => S754_zero s
       end.

(** The Number value for a rational: [𝔽(q)]. *)
Definition Number_of_Q (q : Q) : number :=
  let q' := Qred q in
  match Qnum q' with
  | Z0 => S754_zero false
  | Zpos a => round_ratio false (Zpos a) (Zpos (Qden q'))
  | Zneg a => round_ratio true (Zpos a) (Zpos (Qden q'))
  end.

Definition Number_of_Z (z : Z) : number := Number_of_Q (inject_Z z).

(** ** Decimal digits *)

Definition digit_char (d : Z) : N := Z.to_N (d + 48).
Definition digit_val (c : N) : Z := Z.of_N c - 48.
Definition is_digit (c : N) : bool := ((48 <=? c) && (c <=? 57))%N.

Fixpoint decimal_aux (fuel : nat) (n : Z) (acc : jsstring) : jsstring :=
  match fuel with
  | O => acc
  | S f =>
      if n <? 10 then digit_char n :: acc
      else decimal_aux f (n / 10) (digit_char (n mod 10) :: acc)
  end.

(** The decimal representation of a non-negative integer, most
    significant digit first, without leading zeros ("0" for zero). *)
Definition decimal (n : Z) : jsstring :=
  decimal_aux (S (Z.to_nat (Z.log2 n))) n [].

Fixpoint decimal_value_from (acc : Z) (ds : jsstring) : Z :=
  match ds with
  | [] => acc
  | c :: ds' => decimal_value_from (10 * acc + digit_val c) ds'
  end.

Definition decimal_value (ds : jsstring) : Z := decimal_value_from 0 ds.

Definition zeros (n : nat) : jsstring := repeat 48%N n.

(** ** [Number::toString] (radix 10) *)

(** [n] with [10^(n-1) <= a/b < 10^n], for positive [a] and [b]. *)
Definition decimal_exponent (a b : Z) : Z :=
  let d := Z.of_nat (List.length (decimal a)) - Z.of_nat (List.length (decimal b)) in
  if b * 10 ^ Z.max 0 d <=? a * 10 ^ Z.max 0 (- d) then d + 1 else d.

Definition Qpow10 (z : Z) : Q := inject_Z 10 ^ z.

(** A candidate [(s, n)] with [k] digits stands for [s * 10^(n-k)]. *)
Definition candidate_value (k : Z) (c : Z * Z) : Q :=
  inject_Z (fst c) * Qpow10 (snd c - k).

Definition candidate_ok (x : number) (k : Z) (c : Z * Z) : bool :=
  match Number_of_Q (candidate_value k c), x with
  | S754_finite _ m e, S754_finite _ m' e' => Pos.eqb m m' && (e =? e')
  | _, _ => false
  end.

(** The two [k]-digit decimals that enclose [v = a/b], where
    [10^(n-1) <= v < 10^n]. *)
Definition candidates (a b n k : Z) : (Z * Z) * (Z * Z) :=
  let num := a * 10 ^ Z.max 0 (k - n) in
  let den := b * 10 ^ Z.max 0 (n - k) in
  let lo := num / den in
  let hi := if lo + 1 =? 10 ^ k then (10 ^ (k - 1), n + 1) else (lo + 1, n) in
  ((lo, n), hi).

(** Among candidates that convert back to [x], the one closest to [v];
    the even one when both are equally close. *)
Definition pick (x : number) (v : Q) (k : Z) (cs : (Z * Z) * (Z * Z)) : option (Z * Z) :=
  let '(lo, hi) := cs in
  match candidate_ok x k lo, candidate_ok x k hi with
  | false, false => None
  | true, false => Some lo
  | false, true => Some hi
  | true, true =>
      match (v - candidate_value k lo ?= candidate_value k hi - v)%Q with
      | Lt => Some lo
      | Gt => Some hi
      | Eq => if Z.even (fst lo) then Some lo else Some hi
      end
  end.

Fixpoint shortest_from (fuel : nat) (x : number) (v : Q) (a b n k : Z) : option (Z * Z) :=
  match fuel with
  | O => None
  | S f =>
      match pick x v k (candidates a b n k) with
      | Some c => Some c
      | None => shortest_from f x v a b n (k + 1)
      end
  end.

Fixpoint strip_zeros (fuel : nat) (s n : Z) : Z :=
  match fuel with
  | O => s
  | S f => if (s mod 10 =? 0) && (0 <? s) then strip_zeros f (s / 10) n else s
  end.

(** The exact decimal expansion of [m * 2^e]: digits [s] and the position
    [n] of the decimal point. *)
Definition exact_digits (m : positive) (e : Z) : Z * Z :=
  let s0 := if 0 <=? e then Zpos m * 2 ^ e else Zpos m * 5 ^ (- e) in
  let p0 := if 0 <=? e then 0 else e in
  let s := strip_zeros (List.length (decimal s0)) s0 0 in
  (s, Z.of_nat (List.length (decimal s0)) + p0).

(** Integers [s] and [n] such that, with [k] the number of digits of [s],
    [s * 10^(n-k)] converts to [x] and [k] is as small as possible.
    Seventeen digits always identify a binary64 value; the exact
    expansion bounds the search. *)
Definition shortest_digits (m : positive) (e : Z) : Z * Z :=
  let x := S754_finite false m e in
  let v := Qred (magnitude x) in
  let a := Qnum v in
  let b := Zpos (Qden v) in
  match shortest_from 17 x v a b (decimal_exponent a b) 1 with
  | Some c => c
  | None => exact_digits m e
  end.

(** Layout of digits [s] with decimal point position [n]. *)
Definition layout (s n : Z) : jsstring :=
  let ds := decimal s in
  let k := Z.of_nat (List.length ds) in
  if (k <=? n) && (n <=? 21) then
    ds ++ zeros (Z.to_nat (n - k))
  else if (0 <? n) && (n <=? 21) then
    firstn (Z.to_nat n) ds ++ "." ++ skipn (Z.to_nat n) ds
  else if (-6 <? n) && (n <=? 0) then
    "0." ++ zeros (Z.to_nat (- n)) ++ ds
  else
    let ex := (if n - 1 <? 0 then "-" else "+") ++ decimal (Z.abs (n - 1)) in
    match ds with
    | [d] => [d] ++ "e" ++ ex
    | d :: rest => [d] ++ "." ++ rest ++ "e" ++ ex
    | [] => []
    end.

Definition Number_toString (x : number) : jsstring :=
  match x with
  | S754_nan => "NaN"
  | S754_zero _ => "0"
  | S754_infinity false => "Infinity"
  | S754_infinity true => "-Infinity"
  | S754_finite s m e =>
      let '(d, n) := shortest_digits m e in
      (if s then "-" else "") ++ layout d n
  end.

(** ** [Number.prototype.toFixed] *)

Definition toFixed (x : number) (fractionDigits : nat) : jsstring :=
  if negb (is_finite x) then Number_toString x
  else
    let v := magnitude x in
    let s : jsstring := if is_negative x then "-" else "" in
    if Qle_bool (Qpow10 21) v then
      s ++ Number_toString (SFabs x)
    else
      let n := Qfloor (v * Qpow10 (Z.of_nat fractionDigits) + (1 # 2)) in
      let m := decimal n in
      let m :=
        match fractionDigits with
        | O => m
        | S _ =>
            let m := if (List.length m <=? fractionDigits)%nat
                     then zeros (S fractionDigits - List.length m) ++ m else m in
            let k := List.length m in
            firstn (k - fractionDigits) m ++ "." ++ skipn (k - fractionDigits) m
        end in
      s ++ m.

(* ====================================================================== *)
(** * Values and plain objects *)
(* ====================================================================== *)

(** The ECMAScript values the package handles.  An object is the list of
    its own properties in creation order; a property may hold
    [VUndefined], which differs from the property being absent. *)
#[local] Set Warnings "-register-all".

Inductive value : Type :=
| VUndefined
| VNull
| VBool (b : bool)
| VNum (x : number)
| VStr (s : jsstring)
| VArr (items : list value)
| VObj (props : list (jsstring * value)).

Abbreviation object := (list (jsstring * value)).

Notation "k =: v" := (pair (k : jsstring) (v : value)) (at level 60, no associativity).

(** [ToBoolean]. *)
Definition ToBoolean (v : value) : bool :=
  match v with
  | VUndefined | VNull => false
  | VBool b => b
  | VNum (S754_zero _) | VNum S754_nan => false
  | VNum _ => true
  | VStr s => truthy_string s
  | VArr _ | VObj _ => true
  end.

(** Own-property lookup: [None] when the object has no such property. *)
Fixpoint get_prop (k : jsstring) (o : object) : option value :=
  match o with
  | [] => None
  | (k', v) :: o' => if jsstring_eqb k' k then Some v else get_prop k o'
  end.

Definition has_prop (k : jsstring) (o : object) : bool :=
  match get_prop k o with Some _ => true | None => false end.

(** [o[k] = v]: an existing property keeps its place, a new one is
    created after the others. *)
Fixpoint set_prop (k : jsstring) (v : value) (o : object) : object :=
  match o with
  | [] => [(k, v)]
  | (k', v') :: o' =>
      if jsstring_eqb k' k then (k, v) :: o' else (k', v') :: set_prop k v o'
  end.

Definition keys (o : object) : list jsstring := map fst o.

(** Property access on a value, for reading nested records. *)
Definition field (k : jsstring) (v : option value) : option value :=
  match v with
  | Some (VObj o) => get_prop k o
  | _ => None
  end.

(** ** Statements that mutate the schema under construction *)

Definition stmt := object -> object.

Definition skip : stmt := fun schema => schema.
Definition assign (k : jsstring) (v : value) : stmt := set_prop k v.
Definition seq (s1 s2 : stmt) : stmt := fun schema => s2 (s1 schema).

Notation "s1 ;; s2" := (seq s1 s2) (at level 65, left associativity).

Definition run (schema : object) (body : stmt) : object := body schema.

(** ** Optional inputs as values *)

(** A property of type [string | undefined]. *)
Definition val_str (x : option jsstring) : value :=
  match x with Some s => VStr s | None => VUndefined end.

Definition val_bool (x : option bool) : value :=
  match x with Some b => VBool b | None => VUndefined end.

Definition val_strings (l : list jsstring) : value := VArr (map VStr l).

(** [`${x}`] for a property of type [string | undefined]. *)
Definition template (x : option jsstring) : jsstring :=
  match x with Some s => s | None => "undefined" end.

(** A destructuring default [x = d]. *)
Definition default {A : Type} (d : A) (x : option A) : A :=
  match x with Some a => a | None => d end.

(** [Array.prototype.map] with the element index. *)
Fixpoint mapi_from {A B : Type} (i : nat) (f : A -> nat -> B) (l : list A) : list B :=
  match l with
  | [] => []
  | a :: l' => f a i :: mapi_from (S i) f l'
  end.

Definition mapi {A B : Type} (f : A -> nat -> B) (l : list A) : list B :=
  mapi_from 0 f l.

(* ====================================================================== *)
(** * Input types *)
(* ====================================================================== *)

Record OrganizationInfo := {
  org_name : jsstring;
  org_description : option jsstring;
  org_url : jsstring;
  org_logo : option jsstring;
  org_image : option jsstring;
  org_telephone : option jsstring;
  org_email : option jsstring;
  org_priceRange : option jsstring;
  org_sameAs : option (list jsstring);
  org_id : option jsstring
}.

Record GeoCoordinates := {
  latitude : number;
  longitude : number
}.

Record ServiceArea := {
  geoMidpoint : option GeoCoordinates;
  geoRadius : option jsstring;
  city : option jsstring;
  region : option jsstring;
  country : option jsstring
}.

Inductive DayOfWeek :=
| Monday | Tuesday | Wednesday | Thursday | Friday | Saturday | Sunday.

Definition DayOfWeek_name (d : DayOfWeek) : jsstring :=
  match d with
  | Monday => "Monday" | Tuesday => "Tuesday" | Wednesday => "Wednesday"
  | Thursday => "Thursday" | Friday => "Friday" | Saturday => "Saturday"
  | Sunday => "Sunday"
  end.

Record OpeningHours := {
  dayOfWeek : option (list DayOfWeek);
  opens : option jsstring;
  closes : option jsstring;
  open24Hours : option bool
}.

Record OrganizationSchemaOptions := {
  oso_organization : OrganizationInfo;
  oso_areaServed : option ServiceArea;
  oso_openingHoursSpecification : option OpeningHours;
  oso_type : option jsstring
}.

Record ServiceSchemaOptions := {
  sso_name : jsstring;
  sso_description : jsstring;
  sso_url : jsstring;
  sso_image : option jsstring;
  sso_provider : OrganizationInfo;
  sso_serviceType : option jsstring;
  sso_areaServed : option ServiceArea
}.

Record FAQItem := {
  question : jsstring;
  answer : jsstring
}.

Record BreadcrumbItem := {
  bc_name : jsstring;
  bc_url : jsstring
}.

Record ReviewItem := {
  ri_author : jsstring;
  ri_reviewBody : jsstring;
  ri_reviewRating : number;
  ri_datePublished : jsstring
}.

Record ReviewSchemaOptions := {
  rso_organization : OrganizationInfo;
  rso_reviewCount : number;
  rso_ratingValue : number;
  rso_bestRating : option number;
  rso_worstRating : option number;
  rso_reviews : list ReviewItem
}.

Inductive Availability :=
| InStock | OutOfStock | PreOrder | Backorder | LimitedAvailability.

Definition Availability_name (a : Availability) : jsstring :=
  match a with
  | InStock => "InStock" | OutOfStock => "OutOfStock" | PreOrder => "PreOrder"
  | Backorder => "Backorder" | LimitedAvailability => "LimitedAvailability"
  end.

(** [string | string[]] *)
Inductive ImageInput :=
| OneImage (url : jsstring)
| ManyImages (urls : list jsstring).

Definition val_image (x : option ImageInput) : value :=
  match x with
  | Some (OneImage s) => VStr s
  | Some (ManyImages l) => val_strings l
  | None => VUndefined
  end.

Record ProductSchemaOptions := {
  pso_name : jsstring;
  pso_description : jsstring;
  pso_image : option ImageInput;
  pso_url : option jsstring;
  pso_brand : option jsstring;
  pso_sku : option jsstring;
  pso_price : option number;
  pso_priceCurrency : option jsstring;
  pso_availability : option Availability
}.

Record ArticleSchemaOptions := {
  aso_headline : jsstring;
  aso_description : option jsstring;
  aso_image : option jsstring;
  aso_datePublished : jsstring;
  aso_dateModified : option jsstring;
  aso_author : jsstring;
  aso_publisher : jsstring;
  aso_publisherLogo : option jsstring;
  aso_url : option jsstring
}.

Record EventLocation := {
  loc_name : jsstring;
  loc_address : option jsstring
}.

Inductive EventStatus :=
| EventScheduled | EventCancelled | EventPostponed | EventRescheduled.

Definition EventStatus_name (s : EventStatus) : jsstring :=
  match s with
  | EventScheduled => "EventScheduled" | EventCancelled => "EventCancelled"
  | EventPostponed => "EventPostponed" | EventRescheduled => "EventRescheduled"
  end.

Inductive EventAttendanceMode :=
| OfflineEventAttendanceMode | OnlineEventAttendanceMode | MixedEventAttendanceMode.

Definition EventAttendanceMode_name (m : EventAttendanceMode) : jsstring :=
  match m with
  | OfflineEventAttendanceMode => "OfflineEventAttendanceMode"
  | OnlineEventAttendanceMode => "OnlineEventAttendanceMode"
  | MixedEventAttendanceMode => "MixedEventAttendanceMode"
  end.

Record EventSchemaOptions := {
  eso_name : jsstring;
  eso_description : option jsstring;
  eso_startDate : jsstring;
  eso_endDate : option jsstring;
  eso_location : option EventLocation;
  eso_url : option jsstring;
  eso_image : option jsstring;
  eso_eventStatus : option EventStatus;
  eso_eventAttendanceMode : option EventAttendanceMode
}.

(* ====================================================================== *)
(** * JSON-LD schema generators *)
(* ====================================================================== *)

Definition schema_org : jsstring := "https://schema.org".

(** The [areaServed] block of [createOrganizationSchema].  A center
    point, when present, is an object and hence truthy. *)
Definition organization_area (areaServed : option ServiceArea) : stmt :=
  match areaServed with
  | Some area =>
      let otherwise :=
        if ToBoolean (val_str (city area)) then
          assign "areaServed" (VObj [
            "@type" =: VStr "City";
            "name" =: val_str (city area) ])
        else skip in
      match geoMidpoint area with
      | Some midpoint =>
          if ToBoolean (val_str (geoRadius area)) then
            assign "areaServed" (VObj [
              "@type" =: VStr "GeoCircle";
              "geoMidpoint" =: VObj [
                "@type" =: VStr "GeoCoordinates";
                "latitude" =: VNum (latitude midpoint);
                "longitude" =: VNum (longitude midpoint) ];
              "geoRadius" =: val_str (geoRadius area) ])
          else otherwise
      | None => otherwise
      end
  | None => skip
  end.

(** The opening-hours block of [createOrganizationSchema].  A day list,
    when present, is an array and hence truthy. *)
Definition organization_hours (openingHoursSpecification : option OpeningHours) : stmt :=
  match openingHoursSpecification with
  | Some hours =>
      if ToBoolean (val_bool (open24Hours hours)) then
        assign "openingHours" (VStr "Mo-Su")
      else
        match dayOfWeek hours with
        | Some days =>
            if ToBoolean (val_str (opens hours)) && ToBoolean (val_str (closes hours)) then
              assign "openingHoursSpecification" (VObj [
                "@type" =: VStr "OpeningHoursSpecification";
                "dayOfWeek" =: val_strings (map DayOfWeek_name days);
                "opens" =: val_str (opens hours);
                "closes" =: val_str (closes hours) ])
            else skip
        | None => skip
        end
  | None => skip
  end.

Definition createOrganizationSchema (options : OrganizationSchemaOptions) : object :=
  let organization := oso_organization options in
  let areaServed := oso_areaServed options in
  let openingHoursSpecification := oso_openingHoursSpecification options in
  let type := default ("LocalBusiness" : jsstring) (oso_type options) in
  let schema : object := [
    "@context" =: VStr schema_org;
    "@type" =: VStr type;
    "name" =: VStr (org_name organization);
    "url" =: VStr (org_url organization) ] in
  run schema (
    (if ToBoolean (val_str (org_id organization))
     then assign "@id" (val_str (org_id organization)) else skip) ;;
    (if ToBoolean (val_str (org_description organization))
     then assign "description" (val_str (org_description organization)) else skip) ;;
    (if ToBoolean (val_str (org_telephone organization))
     then assign "telephone" (val_str (org_telephone organization)) else skip) ;;
    (if ToBoolean (val_str (org_email organization))
     then assign "email" (val_str (org_email organization)) else skip) ;;
    (if ToBoolean (val_str (org_priceRange organization))
     then assign "priceRange" (val_str (org_priceRange organization)) else skip) ;;
    (if ToBoolean (val_str (org_image organization))
     then assign "image" (val_str (org_image organization)) else skip) ;;
    (if ToBoolean (val_str (org_logo organization))
     then assign "logo" (val_str (org_logo organization)) else skip) ;;
    (match org_sameAs organization with
     | Some sameAs =>
         if (0 <? List.length sameAs)%nat then assign "sameAs" (val_strings sameAs) else skip
     | None => skip
     end) ;;
    organization_area areaServed ;;
    organization_hours openingHoursSpecification).

Definition createServiceSchema (options : ServiceSchemaOptions) : object :=
  let provider := sso_provider options in
  let image := sso_image options in
  let serviceType := sso_serviceType options in
  let areaServed := sso_areaServed options in
  let schema : object := [
    "@context" =: VStr schema_org;
    "@type" =: VStr "Service";
    "name" =: VStr (sso_name options);
    "description" =: VStr (sso_description options);
    "url" =: VStr (sso_url options);
    "provider" =: VObj [
      "@type" =: VStr "LocalBusiness";
      "name" =: VStr (org_name provider);
      "url" =: VStr (org_url provider) ] ] in
  run schema (
    (if ToBoolean (val_str image) then assign "image" (val_str image) else skip) ;;
    (if ToBoolean (val_str serviceType)
     then assign "serviceType" (val_str serviceType) else skip) ;;
    (match areaServed with
     | Some area =>
         if ToBoolean (val_str (city area)) then
           assign "areaServed" (VObj [
             "@type" =: VStr "City";
             "name" =: val_str (city area) ])
         else skip
     | None => skip
     end)).

Definition createFAQSchema (faqs : list FAQItem) : object :=
  [ "@context" =: VStr schema_org;
    "@type" =: VStr "FAQPage";
    "mainEntity" =: VArr (map (fun faq => VObj [
      "@type" =: VStr "Question";
      "name" =: VStr (question faq);
      "acceptedAnswer" =: VObj [
        "@type" =: VStr "Answer";
        "text" =: VStr (answer faq) ] ]) faqs) ].

(** An array index is an integer below [2^32], so [index + 1] is exact. *)
Definition createBreadcrumbSchema (items : list BreadcrumbItem) : object :=
  [ "@context" =: VStr schema_org;
    "@type" =: VStr "BreadcrumbList";
    "itemListElement" =: VArr (mapi (fun item index => VObj [
      "@type" =: VStr "ListItem";
      "position" =: VNum (Number_of_Z (Z.of_nat index + 1));
      "name" =: VStr (bc_name item);
      "item" =: VStr (bc_url item) ]) items) ].

Definition createReviewSchema (options : ReviewSchemaOptions) : object :=
  let organization := rso_organization options in
  let reviewCount := rso_reviewCount options in
  let ratingValue := rso_ratingValue options in
  let bestRating := default (Number_of_Z 5) (rso_bestRating options) in
  let worstRating := default (Number_of_Z 1) (rso_worstRating options) in
  let reviews := rso_reviews options in
  [ "@context" =: VStr schema_org;
    "@type" =: VStr "LocalBusiness";
    "name" =: VStr (org_name organization);
    "aggregateRating" =: VObj [
      "@type" =: VStr "AggregateRating";
      "ratingValue" =: VNum ratingValue;
      "reviewCount" =: VNum reviewCount;
      "bestRating" =: VNum bestRating;
      "worstRating" =: VNum worstRating ];
    "review" =: VArr (map (fun review => VObj [
      "@type" =: VStr "Review";
      "author" =: VObj [
        "@type" =: VStr "Person";
        "name" =: VStr (ri_author review) ];
      "reviewBody" =: VStr (ri_reviewBody review);
      "reviewRating" =: VObj [
        "@type" =: VStr "Rating";
        "ratingValue" =: VNum (ri_reviewRating review);
        "bestRating" =: VNum bestRating;
        "worstRating" =: VNum worstRating ];
      "datePublished" =: VStr (ri_datePublished review) ]) reviews) ].

Definition createProductSchema (options : ProductSchemaOptions) : object :=
  let image := pso_image options in
  let url := pso_url options in
  let brand := pso_brand options in
  let sku := pso_sku options in
  let price := pso_price options in
  let priceCurrency := pso_priceCurrency options in
  let availability := option_map Availability_name (pso_availability options) in
  let schema : object := [
    "@context" =: VStr schema_org;
    "@type" =: VStr "Product";
    "name" =: VStr (pso_name options);
    "description" =: VStr (pso_description options) ] in
  run schema (
    (if ToBoolean (val_image image) then assign "image" (val_image image) else skip) ;;
    (if ToBoolean (val_str url) then assign "url" (val_str url) else skip) ;;
    (if ToBoolean (val_str brand) then
       assign "brand" (VObj [
         "@type" =: VStr "Brand";
         "name" =: val_str brand ])
     else skip) ;;
    (if ToBoolean (val_str sku) then assign "sku" (val_str sku) else skip) ;;
    (match price with
     | Some price =>
         if ToBoolean (val_str priceCurrency) then
           assign "offers" (VObj [
             "@type" =: VStr "Offer";
             "price" =: VStr (toFixed price 2);
             "priceCurrency" =: val_str priceCurrency;
             "availability" =:
               if ToBoolean (val_str availability)
               then VStr ("https://schema.org/" ++ template availability)
               else VUndefined ])
         else skip
     | None => skip
     end)).

Definition createArticleSchema (options : ArticleSchemaOptions) : object :=
  let description := aso_description options in
  let image := aso_image options in
  let dateModified := aso_dateModified options in
  let publisherLogo := aso_publisherLogo options in
  let url := aso_url options in
  let schema : object := [
    "@context" =: VStr schema_org;
    "@type" =: VStr "Article";
    "headline" =: VStr (aso_headline options);
    "datePublished" =: VStr (aso_datePublished options);
    "author" =: VObj [
      "@type" =: VStr "Person";
      "name" =: VStr (aso_author options) ];
    "publisher" =: VObj [
      "@type" =: VStr "Organization";
      "name" =: VStr (aso_publisher options);
      "logo" =:
        if ToBoolean (val_str publisherLogo)
        then VObj [ "@type" =: VStr "ImageObject"; "url" =: val_str publisherLogo ]
        else VUndefined ] ] in
  run schema (
    (if ToBoolean (val_str description)
     then assign "description" (val_str description) else skip) ;;
    (if ToBoolean (val_str image) then assign "image" (val_str image) else skip) ;;
    (if ToBoolean (val_str dateModified)
     then assign "dateModified" (val_str dateModified) else skip) ;;
    (if ToBoolean (val_str url) then
       assign "mainEntityOfPage" (VObj [
         "@type" =: VStr "WebPage";
         "@id" =: val_str url ])
     else skip)).

Definition createEventSchema (options : EventSchemaOptions) : object :=
  let description := eso_description options in
  let endDate := eso_endDate options in
  let location := eso_location options in
  let url := eso_url options in
  let image := eso_image options in
  let eventStatus := option_map EventStatus_name (eso_eventStatus options) in
  let eventAttendanceMode :=
    option_map EventAttendanceMode_name (eso_eventAttendanceMode options) in
  let schema : object := [
    "@context" =: VStr schema_org;
    "@type" =: VStr "Event";
    "name" =: VStr (eso_name options);
    "startDate" =: VStr (eso_startDate options) ] in
  run schema (
    (if ToBoolean (val_str description)
     then assign "description" (val_str description) else skip) ;;
    (if ToBoolean (val_str endDate) then assign "endDate" (val_str endDate) else skip) ;;
    (match location with
     | Some location =>
         assign "location" (VObj [
           "@type" =: VStr "Place";
           "name" =: VStr (loc_name location);
           "address" =:
             if ToBoolean (val_str (loc_address location))
             then VObj [ "@type" =: VStr "PostalAddress";
                         "streetAddress" =: val_str (loc_address location) ]
             else VUndefined ])
     | None => skip
     end) ;;
    (if ToBoolean (val_str url) then assign "url" (val_str url) else skip) ;;
    (if ToBoolean (val_str image) then assign "image" (val_str image) else skip) ;;
    (if ToBoolean (val_str eventStatus)
     then assign "eventStatus" (VStr ("https://schema.org/" ++ template eventStatus))
     else skip) ;;
    (if ToBoolean (val_str eventAttendanceMode)
     then assign "eventAttendanceMode"
            (VStr ("https://schema.org/" ++ template eventAttendanceMode))
     else skip)).

(** ** Utility functions *)

Definition mergeSchemas (schemas : list object) : list object := schemas.

(** ** Shape of a fixed-point rendering *)

Definition strip_minus (s : jsstring) : jsstring :=
  match s with
  | 45%N :: s' => s'
  | _ => s
  end.

(** An optional minus sign, at least one digit, a decimal point and then
    exactly two digits. *)
Definition two_fraction_digits (s : jsstring) : bool :=
  match rev (strip_minus s) with
  | d2 :: d1 :: 46%N :: (_ :: _) as ip =>
      is_digit d1 && is_digit d2 && forallb is_digit ip
  | _ => false
  end.

(** The text [toFixed] lays out for the scaled integer [n]: a point
    before its last two digits. *)
Definition fixed2 (n : Z) : jsstring :=
  decimal (n / 100) ++ "." ++ [digit_char (n / 10 mod 10); digit_char (n mod 10)].

Definition sign_text (x : number) : jsstring := if is_negative x then "-" else "".

(* ====================================================================== *)
(** * [JSON.stringify] and the script serializer *)
(* ====================================================================== *)

Definition quotation_mark : N := 34.
Definition reverse_solidus : N := 92.

Definition hex_digit (d : N) : N := (if d <? 10 then 48 + d else 87 + d)%N.

(** [UnicodeEscape]: a backslash, [u] and four lowercase hexadecimal
    digits. *)
Definition UnicodeEscape (c : N) : jsstring :=
  [ reverse_solidus; 117;
    hex_digit (c / 4096 mod 16); hex_digit (c / 256 mod 16);
    hex_digit (c / 16 mod 16); hex_digit (c mod 16) ]%N.

Definition is_leading_surrogate (c : N) : bool := ((55296 <=? c) && (c <=? 56319))%N.
Definition is_trailing_surrogate (c : N) : bool := ((56320 <=? c) && (c <=? 57343))%N.

(** The body of [QuoteJSONString]: the two-character escapes of the
    table, [UnicodeEscape] for the other control characters and for lone
    surrogates, every other code point unchanged. *)
Fixpoint quote_body (s : jsstring) : jsstring :=
  match s with
  | [] => []
  | c :: s' =>
      if (c =? 8)%N then [reverse_solidus; 98%N] ++ quote_body s'
      else if (c =? 9)%N then [reverse_solidus; 116%N] ++ quote_body s'
      else if (c =? 10)%N then [reverse_solidus; 110%N] ++ quote_body s'
      else if (c =? 12)%N then [reverse_solidus; 102%N] ++ quote_body s'
      else if (c =? 13)%N then [reverse_solidus; 114%N] ++ quote_body s'
      else if (c =? quotation_mark)%N then [reverse_solidus; quotation_mark] ++ quote_body s'
      else if (c =? reverse_solidus)%N then [reverse_solidus; reverse_solidus] ++ quote_body s'
      else if (c <? 32)%N then UnicodeEscape c ++ quote_body s'
      else if is_leading_surrogate c then
        match s' with
        | d :: s'' =>
            if is_trailing_surrogate d then c :: d :: quote_body s''
            else UnicodeEscape c ++ quote_body s'
        | [] => UnicodeEscape c
        end
      else if is_trailing_surrogate c then UnicodeEscape c ++ quote_body s'
      else c :: quote_body s'
  end.

Definition QuoteJSONString (s : jsstring) : jsstring :=
  [quotation_mark] ++ quote_body s ++ [quotation_mark].

(** Texts separated by commas. *)
Fixpoint join_comma (parts : list jsstring) : jsstring :=
  match parts with
  | [] => []
  | [p] => p
  | p :: rest => p ++ "," ++ join_comma rest
  end.

(** [SerializeJSONProperty] without replacer and indentation: [None] is
    the result [undefined].  A property whose value serializes to
    [undefined] is left out of its object; such an array element is
    written as [null]; a number that is not finite is written as
    [null]. *)
Fixpoint SerializeJSONProperty (v : value) : option jsstring :=
  match v with
  | VUndefined => None
  | VNull => Some (str "null")
  | VBool true => Some (str "true")
  | VBool false => Some (str "false")
  | VStr s => Some (QuoteJSONString s)
  | VNum x => Some (if is_finite x then Number_toString x else str "null")
  | VArr items =>
      Some ("[" ++ join_comma (map (fun item =>
              match SerializeJSONProperty item with
              | Some text => text
              | None => str "null"
              end) items) ++ "]")
  | VObj props =>
      Some ("{" ++ join_comma (flat_map (fun '(k, v) =>
              match SerializeJSONProperty v with
              | Some text => [QuoteJSONString k ++ ":" ++ text]
              | None => []
              end) props) ++ "}")
  end.

Definition JSON_stringify (v : value) : option jsstring := SerializeJSONProperty v.

Definition isArray (v : value) : bool :=
  match v with VArr _ => true | _ => false end.

(** The argument of [createJsonLdScript]: one schema or a sequence. *)
Inductive ScriptInput :=
| OneSchema (schema : object)
| ManySchemas (schemas : list object).

Definition script_value (schema : ScriptInput) : value :=
  match schema with
  | OneSchema o => VObj o
  | ManySchemas l => VArr (map VObj l)
  end.

(** [JSON.stringify] returns a string for every object and array, so the
    last branch is never taken. *)
Definition createJsonLdScript (schema : ScriptInput) : jsstring :=
  let schema := script_value schema in
  match JSON_stringify (if isArray schema then schema else schema) with
  | Some text => text
  | None => "undefined"
  end.

(* ====================================================================== *)
(** * [JSON.parse] *)
(* ====================================================================== *)

(** The parser returns the parsed item and the rest of the text; [None]
    stands for the SyntaxError exception. *)

Definition is_ws (c : N) : bool :=
  ((c =? 9) || (c =? 10) || (c =? 13) || (c =? 32))%N.

Fixpoint skip_ws (s : jsstring) : jsstring :=
  match s with
  | c :: r => if is_ws c then skip_ws r else s
  | [] => []
  end.

Fixpoint strip_prefix (p s : jsstring) : option jsstring :=
  match p, s with
  | [], _ => Some s
  | a :: p', b :: s' => if (a =? b)%N then strip_prefix p' s' else None
  | _ :: _, [] => None
  end.

Definition hex_value (c : N) : option N :=
  (if is_digit c then Some (c - 48)
   else if (97 <=? c) && (c <=? 102) then Some (c - 87)
   else if (65 <=? c) && (c <=? 70) then Some (c - 55)
   else None)%N.

(** The character a two-character escape stands for. *)
Definition unescape (e : N) : option N :=
  (if e =? quotation_mark then Some quotation_mark
   else if e =? reverse_solidus then Some reverse_solidus
   else if e =? 47 then Some 47
   else if e =? 98 then Some 8
   else if e =? 102 then Some 12
   else if e =? 110 then Some 10
   else if e =? 114 then Some 13
   else if e =? 116 then Some 9
   else None)%N.

Definition cons_unit (c : N) (r : option (jsstring * jsstring)) : option (jsstring * jsstring) :=
  match r with
  | Some (s, rest) => Some (c :: s, rest)
  | None => None
  end.

(** The body of a string, after its opening quotation mark. *)
Fixpoint parse_string (s : jsstring) : option (jsstring * jsstring) :=
  match s with
  | [] => None
  | c :: r =>
      if (c =? quotation_mark)%N then Some ([], r)
      else if (c =? reverse_solidus)%N then
        match r with
        | [] => None
        | e :: r' =>
            if (e =? 117)%N then
              match r' with
              | h1 :: h2 :: h3 :: h4 :: r'' =>
                  match hex_value h1, hex_value h2, hex_value h3, hex_value h4 with
                  | Some a, Some b, Some c, Some d =>
                      cons_unit (((a * 16 + b) * 16 + c) * 16 + d)%N (parse_string r'')
                  | _, _, _, _ => None
                  end
              | _ => None
              end
            else
              match unescape e with
              | Some c' => cons_unit c' (parse_string r')
              | None => None
              end
        end
      else if (c <? 32)%N then None
      else cons_unit c (parse_string r)
  end.

Fixpoint span_digits (s : jsstring) : jsstring * jsstring :=
  match s with
  | c :: r =>
      if is_digit c then let '(ds, rest) := span_digits r in (c :: ds, rest)
      else ([], s)
  | [] => ([], [])
  end.

(** The fraction of a number: a point and at least one digit, or nothing. *)
Definition parse_fraction (s : jsstring) : option (jsstring * jsstring) :=
  match s with
  | c :: r =>
      if (c =? 46)%N then
        match span_digits r with
        | ([], _) => None
        | (fp, rest) => Some (fp, rest)
        end
      else Some ([], s)
  | [] => Some ([], s)
  end.

(** An optional sign. *)
Definition parse_sign (s : jsstring) : bool * jsstring :=
  match s with
  | c :: r =>
      if (c =? 43)%N then (false, r)
      else if (c =? 45)%N then (true, r)
      else (false, s)
  | [] => (false, s)
  end.

(** The exponent of a number: [e] or [E], an optional sign and at least
    one digit, or nothing. *)
Definition parse_exponent (s : jsstring) : option (Z * jsstring) :=
  match s with
  | c :: r =>
      if ((c =? 101) || (c =? 69))%N then
        let '(neg, r') := parse_sign r in
        match span_digits r' with
        | ([], _) => None
        | (ep, rest) => Some (if neg then - decimal_value ep else decimal_value ep, rest)
        end
      else Some (0, s)
  | [] => Some (0, s)
  end.

(** An integer part is one digit, or several not starting with zero. *)
Definition valid_integer_part (ip : jsstring) : bool :=
  match ip with
  | [] => false
  | [_] => true
  | d :: _ => negb (d =? 48)%N
  end.

(** An optional minus sign. *)
Definition parse_minus (s : jsstring) : bool * jsstring :=
  match s with
  | c :: r => if (c =? 45)%N then (true, r) else (false, s)
  | [] => (false, s)
  end.

(** A number: an optional minus sign, an integer part without a leading
    zero, a fraction and an exponent; its value is the Number nearest to
    the decimal it denotes. *)
Definition parse_number (s : jsstring) : option (number * jsstring) :=
  let '(neg, s1) := parse_minus s in
  let '(ip, s2) := span_digits s1 in
  if valid_integer_part ip then
    match parse_fraction s2 with
    | None => None
    | Some (fp, s3) =>
        match parse_exponent s3 with
        | None => None
        | Some (ex, s4) =>
            let mv := (inject_Z (decimal_value (ip ++ fp))
                       * Qpow10 (ex - Z.of_nat (List.length fp)))%Q in
            let x := Number_of_Q mv in
            Some (if neg then SFopp x else x, s4)
        end
    end
  else None.

(** What follows an array element or an object member. *)
Inductive separator := Comma | Close.

Definition parse_separator (close : N) (s : jsstring) : option (separator * jsstring) :=
  match skip_ws s with
  | c :: rest =>
      if (c =? 44)%N then Some (Comma, rest)
      else if (c =? close)%N then Some (Close, rest)
      else None
  | [] => None
  end.

(** Whether the text continues, after white space, with the character [c]. *)
Definition parse_char (c : N) (s : jsstring) : option jsstring :=
  match skip_ws s with
  | d :: rest => if (d =? c)%N then Some rest else None
  | [] => None
  end.

(** Values, array elements after the opening bracket and object members
    after the opening brace.  A repeated member name replaces the value
    of the property created first. *)
Fixpoint parse_value (fuel : nat) (s : jsstring) : option (value * jsstring) :=
  match fuel with
  | O => None
  | S fuel =>
      match skip_ws s with
      | [] => None
      | c :: r =>
          if (c =? quotation_mark)%N then
            match parse_string r with
            | Some (t, rest) => Some (VStr t, rest)
            | None => None
            end
          else if (c =? 91)%N then
            match parse_char 93 r with
            | Some rest => Some (VArr [], rest)
            | None => parse_elements fuel r []
            end
          else if (c =? 123)%N then
            match parse_char 125 r with
            | Some rest => Some (VObj [], rest)
            | None => parse_members fuel r []
            end
          else if (c =? 110)%N then
            match strip_prefix "null" (c :: r) with
            | Some rest => Some (VNull, rest)
            | None => None
            end
          else if (c =? 116)%N then
            match strip_prefix "true" (c :: r) with
            | Some rest => Some (VBool true, rest)
            | None => None
            end
          else if (c =? 102)%N then
            match strip_prefix "false" (c :: r) with
            | Some rest => Some (VBool false, rest)
            | None => None
            end
          else
            match parse_number (c :: r) with
            | Some (x, rest) => Some (VNum x, rest)
            | None => None
            end
      end
  end
with parse_elements (fuel : nat) (s : jsstring) (acc : list value)
    : option (value * jsstring) :=
  match fuel with
  | O => None
  | S fuel =>
      match parse_value fuel s with
      | Some (v, rest) =>
          match parse_separator 93 rest with
          | Some (Comma, rest') => parse_elements fuel rest' (acc ++ [v])
          | Some (Close, rest') => Some (VArr (acc ++ [v]), rest')
          | None => None
          end
      | None => None
      end
  end
with parse_members (fuel : nat) (s : jsstring) (acc : object)
    : option (value * jsstring) :=
  match fuel with
  | O => None
  | S fuel =>
      match parse_char quotation_mark s with
      | Some r =>
          match parse_string r with
          | Some (k, rest) =>
              match parse_char 58 rest with
              | Some rest' =>
                  match parse_value fuel rest' with
                  | Some (v, rest'') =>
                      match parse_separator 125 rest'' with
                      | Some (Comma, rest3) => parse_members fuel rest3 (set_prop k v acc)
                      | Some (Close, rest3) => Some (VObj (set_prop k v acc), rest3)
                      | None => None
                      end
                  | None => None
                  end
              | None => None
              end
          | None => None
          end
      | None => None
      end
  end.

(** [JSON.parse] without reviver: one value surrounded by white space. *)
Definition JSON_parse (text : jsstring) : option value :=
  match parse_value (S (List.length text)) text with
  | Some (v, rest) =>
      match skip_ws rest with
      | [] => Some v
      | _ :: _ => None
      end
  | None => None
  end.

(* ====================================================================== *)
(** * Sample inputs *)
(* ====================================================================== *)

(** A product with a price, a currency and maybe an availability. *)
Definition with_offer (price : number) (currency : jsstring)
    (availability : option Availability) : ProductSchemaOptions := {|
  pso_name := "Widget";
  pso_description := "A widget";
  pso_image := None;
  pso_url := None;
  pso_brand := None;
  pso_sku := None;
  pso_price := Some price;
  pso_priceCurrency := Some currency;
  pso_availability := availability
|}.


Definition test_org : OrganizationInfo := {|
  org_name := "Test";
  org_description := None;
  org_url := "https://test.com";
  org_logo := None;
  org_image := None;
  org_telephone := None;
  org_email := None;
  org_priceRange := None;
  org_sameAs := None;
  org_id := None
|}.

Definition org_with_area (area : ServiceArea) : OrganizationSchemaOptions := {|
  oso_organization := test_org;
  oso_areaServed := Some area;
  oso_openingHoursSpecification := None;
  oso_type := None
|}.

Definition org_with_hours (hours : OpeningHours) : OrganizationSchemaOptions := {|
  oso_organization := test_org;
  oso_areaServed := None;
  oso_openingHoursSpecification := Some hours;
  oso_type := None
|}.

Definition new_york : GeoCoordinates := {|
  latitude := Number_of_Q (407128 # 10000);
  longitude := Number_of_Q (- 740060 # 10000)
|}.

Definition sample_page : ScriptInput :=
  ManySchemas [
    createBreadcrumbSchema [
      {| bc_name := "Home"; bc_url := "https://example.com" |};
      {| bc_name := "Products"; bc_url := "https://example.com/products" |} ];
    createFAQSchema [
      {| question := [87; 104; 97; 116; 32; 105; 115; 32; 34; 67; 83; 82; 70; 34; 63]%N;
         answer := [60; 98; 62; 10; 233; 55357; 56832; 56832; 92]%N |} ];
    createOrganizationSchema (org_with_area
      {| geoMidpoint := Some new_york; geoRadius := Some ("25km" : jsstring);
         city := None; region := None; country := None |}) ].


Definition sample_area : ServiceArea := {|
  geoMidpoint := Some new_york;
  geoRadius := Some ("25km" : jsstring);
  city := None;
  region := None;
  country := None
|}.

Definition sample_reviews : ReviewSchemaOptions := {|
  rso_organization := test_org;
  rso_reviewCount := Number_of_Z 12;
  rso_ratingValue := Number_of_Q (45 # 10);
  rso_bestRating := None;
  rso_worstRating := None;
  rso_reviews := [
    {| ri_author := "Ann"; ri_reviewBody := "Great";
       ri_reviewRating := Number_of_Z 5; ri_datePublished := "2024-01-01" |} ]
|}.

Definition sample_trail : list BreadcrumbItem := [
  {| bc_name := "Home"; bc_url := "https://example.com" |};
  {| bc_name := "Products"; bc_url := "https://example.com/products" |} ].
(* ====================================================================== *)
(** * Predicates used in the statements *)
(* ====================================================================== *)

(** A statement preserves a property when it leaves its lookup unchanged. *)
Definition preserves (k : jsstring) (s : stmt) : Prop :=
  forall o, get_prop k (s o) = get_prop k o.

(** The record carries the Schema.org context and the type tag [tag]. *)
Definition tagged (tag : jsstring) (schema : object) : Prop :=
  get_prop "@context" schema = Some (VStr "https://schema.org") /\
  get_prop "@type" schema = Some (VStr tag).

(** What a guarded copy [if (x) { schema.k = x }] of an optional string
    leaves under [k]: the string when it is present and non-empty,
    nothing otherwise. *)
Definition copied (x : option jsstring) : option value :=
  match x with
  | Some (c :: s) => Some (VStr (c :: s))
  | _ => None
  end.

(** A text after a number must not continue it. *)
Definition number_end (rest : jsstring) : bool :=
  match rest with
  | [] => true
  | c :: _ => negb (is_digit c || (c =? 46) || (c =? 101) || (c =? 69))%N
  end.

Definition minus_text (neg : bool) : jsstring := if neg then "-" else "".

Definition signed (neg : bool) (x : number) : number := if neg then SFopp x else x.

(** The numbers a JSON text can denote exactly: finite canonical values
    other than negative zero, which is written as [0]. *)
Definition json_number (x : number) : bool :=
  match x with
  | S754_zero s => negb s
  | S754_finite _ _ _ => valid_number x
  | _ => false
  end.

(** Pairwise distinct property names. *)
Fixpoint distinct (ks : list jsstring) : bool :=
  match ks with
  | [] => true
  | k :: rest => negb (existsb (fun k' => jsstring_eqb k k') rest) && distinct rest
  end.

(** The values [JSON.stringify] writes without loss: no [undefined], no
    number that is infinite, not a number or negative zero, and objects
    whose property names are pairwise distinct. *)
Fixpoint json_representable (v : value) : bool :=
  match v with
  | VUndefined => false
  | VNull | VBool _ | VStr _ => true
  | VNum x => json_number x
  | VArr items => forallb json_representable items
  | VObj props =>
      distinct (map fst props)
      && forallb (fun '(_, v) => json_representable v) props
  end.

(** The number of values in a value, itself included, counting each
    element and member once more. *)
Fixpoint value_size (v : value) : nat :=
  match v with
  | VArr items => S (list_sum (map (fun item => S (value_size item)) items))
  | VObj props => S (list_sum (map (fun '(_, v) => S (value_size v)) props))
  | _ => 1
  end.

(** The text of an array element. *)
Definition element_text (v : value) : jsstring :=
  match SerializeJSONProperty v with
  | Some text => text
  | None => "null"
  end.

(** The text of an object member. *)
Definition member_text (kv : jsstring * value) : jsstring :=
  QuoteJSONString (fst kv) ++ ":" ++ element_text (snd kv).

(** A text that starts a value inside an array. *)
Definition value_start (text : jsstring) : bool :=
  match text with
  | c :: _ => negb (is_ws c) && negb (c =? 93)%N
  | [] => false
  end.

(** A representable value is written as a text that starts a value, is
    at least as long as the value is large, and parses back to the value
    in front of any text that cannot continue a number. *)
Definition roundtrips (v : value) : Prop :=
  json_representable v = true ->
  exists text,
    SerializeJSONProperty v = Some text /\
    value_start text = true /\
    (value_size v <= List.length text)%nat /\
    forall fuel rest,
      (value_size v <= fuel)%nat -> number_end rest = true ->
      parse_value fuel (text ++ rest) = Some (v, rest).

(** What is left of a value in its JSON text: properties holding
    [undefined] are dropped, [undefined] array elements and numbers that
    are not finite become [null], negative zero becomes zero. *)
Fixpoint normalize (v : value) : value :=
  match v with
  | VNum x =>
      if is_finite x then
        match x with
        | S754_zero _ => VNum (S754_zero false)
        | _ => v
        end
      else VNull
  | VArr items =>
      VArr (map (fun item =>
                   match item with
                   | VUndefined => VNull
                   | _ => normalize item
                   end) items)
  | VObj props =>
      VObj (flat_map (fun '(k, v) =>
                        match v with
                        | VUndefined => []
                        | _ => [(k, normalize v)]
                        end) props)
  | _ => v
  end.

(** Values as the runtime has them: canonical numbers, and objects whose
    property names are pairwise distinct. *)
Fixpoint well_formed (v : value) : bool :=
  match v with
  | VNum x => valid_number x
  | VArr items => forallb well_formed items
  | VObj props =>
      distinct (map fst props) && forallb (fun '(_, v) => well_formed v) props
  | _ => true
  end.

Definition is_undefined (v : value) : bool :=
  match v with VUndefined => true | _ => false end.

(** A statement keeps the record under construction well formed. *)
Definition keeps_well_formed (s : stmt) : Prop :=
  forall o, well_formed (VObj o) = true -> well_formed (VObj (s o)) = true.

Definition valid_optional (x : option number) : bool :=
  match x with Some n => valid_number n | None => true end.

(** The numbers of a Review input are canonical. *)
Definition valid_review_options (options : ReviewSchemaOptions) : bool :=
  valid_number (rso_reviewCount options)
  && valid_number (rso_ratingValue options)
  && valid_optional (rso_bestRating options)
  && valid_optional (rso_worstRating options)
  && forallb (fun review => valid_number (ri_reviewRating review)) (rso_reviews options).

(** The coordinates of an Organization input are canonical. *)
Definition valid_organization_options (options : OrganizationSchemaOptions) : bool :=
  match oso_areaServed options with
  | Some area =>
      match geoMidpoint area with
      | Some midpoint =>
          valid_number (latitude midpoint) && valid_number (longitude midpoint)
      | None => true
      end
  | None => true
  end.

(** What a property lookup finds after a round trip through JSON. *)
Definition parsed_lookup (found : option value) : option value :=
  match found with
  | Some VUndefined | None => None
  | Some v => Some (normalize v)
  end.


(** Induction on values, with the elements of an array and the members
    of an object as premises. *)
Definition value_induction (P : value -> Prop)
    (Hundefined : P VUndefined) (Hnull : P VNull)
    (Hbool : forall b, P (VBool b)) (Hnum : forall x, P (VNum x))
    (Hstr : forall s, P (VStr s))
    (Harr : forall items, Forall P items -> P (VArr items))
    (Hobj : forall props, Forall (fun kv => P (snd kv)) props -> P (VObj props))
    : forall v, P v :=
  fix IH (v : value) : P v :=
    match v with
    | VUndefined => Hundefined
    | VNull => Hnull
    | VBool b => Hbool b
    | VNum x => Hnum x
    | VStr s => Hstr s
    | VArr items =>
        Harr items
          ((fix all (l : list value) : Forall P l :=
              match l with
              | [] => Forall_nil P
              | x :: l' => Forall_cons x (IH x) (all l')
              end) items)
    | VObj props =>
        Hobj props
          ((fix all (l : list (jsstring * value)) : Forall (fun kv => P (snd kv)) l :=
              match l with
              | [] => Forall_nil _
              | (k, x) :: l' => Forall_cons (k, x) (IH x) (all l')
              end) props)
    end.

(** A code unit that [QuoteJSONString] writes as it is. *)
Definition plain_unit (c : N) : bool :=
  negb ((c <? 32)%N || (c =? quotation_mark)%N || (c =? reverse_solidus)%N
        || is_leading_surrogate c || is_trailing_surrogate c).

Definition plain_text (s : jsstring) : bool := forallb plain_unit s.

(** The strings that occur as values anywhere in a value. *)
Fixpoint strings_of (v : value) : list jsstring :=
  match v with
  | VStr s => [s]
  | VArr items => flat_map strings_of items
  | VObj props => flat_map (fun '(_, v) => strings_of v) props
  | _ => []
  end.

(** Those of the given property names that the record has, in the given
    order. *)
Definition present (o : object) (names : list jsstring) : list jsstring :=
  filter (fun k => has_prop k o) names.

(** A statement creates properties of the given names only, in the
    order of the list, after those of the record, and leaves every other
    property alone. *)
Definition appends (names : list jsstring) (s : stmt) : Prop :=
  forall o,
    (forall k, In k names -> get_prop k o = None) ->
    keys (s o) = keys o ++ present (s o) names
    /\ (forall k, ~ In k names -> get_prop k (s o) = get_prop k o).

Definition disjoint (ks1 ks2 : list jsstring) : bool :=
  forallb (fun k => negb (existsb (jsstring_eqb k) ks2)) ks1.

Definition property_names (l : list string) : list jsstring := map str l.
(* ====================================================================== *)
(** * Properties of objects and statements *)
(* ====================================================================== *)

Lemma Some_inj {A : Type} (x y : A) : Some x = Some y -> x = y.
Proof. congruence. Qed.

Lemma jsstring_eqb_refl (k : jsstring) : jsstring_eqb k k = true.
Proof.
  unfold jsstring_eqb. destruct (list_eq_dec N.eq_dec k k); congruence.
Qed.

Lemma jsstring_eqb_true (a b : jsstring) : jsstring_eqb a b = true -> a = b.
Proof.
  unfold jsstring_eqb. destruct (list_eq_dec N.eq_dec a b); congruence.
Qed.

Lemma jsstring_eqb_false (a b : jsstring) : jsstring_eqb a b = false -> a <> b.
Proof.
  unfold jsstring_eqb. destruct (list_eq_dec N.eq_dec a b); congruence.
Qed.

Lemma get_set_same (k : jsstring) (v : value) (o : object) :
  get_prop k (set_prop k v o) = Some v.
Proof.
  induction o as [|[k' v'] o IH]; simpl.
  - now rewrite jsstring_eqb_refl.
  - destruct (jsstring_eqb k' k) eqn:E; simpl.
    + now rewrite jsstring_eqb_refl.
    + now rewrite E.
Qed.

Lemma get_set_other (k k' : jsstring) (v : value) (o : object) :
  jsstring_eqb k' k = false ->
  get_prop k (set_prop k' v o) = get_prop k o.
Proof.
  intros Hne. induction o as [|[k0 v0] o IH]; simpl.
  - now rewrite Hne.
  - destruct (jsstring_eqb k0 k') eqn:E; simpl.
    + apply jsstring_eqb_true in E. subst k0. now rewrite Hne.
    + now rewrite IH.
Qed.

Lemma keys_set_fresh (k : jsstring) (v : value) (o : object) :
  get_prop k o = None -> keys (set_prop k v o) = keys o ++ [k].
Proof.
  unfold keys. induction o as [|[k0 v0] o IH]; simpl; intros H.
  - reflexivity.
  - destruct (jsstring_eqb k0 k); [discriminate|]. simpl. now rewrite IH.
Qed.

Lemma preserves_skip k : preserves k skip.
Proof. intro o. reflexivity. Qed.

Lemma preserves_assign k k' v :
  jsstring_eqb k' k = false -> preserves k (assign k' v).
Proof. intros H o. now apply get_set_other. Qed.

Lemma preserves_seq k s1 s2 :
  preserves k s1 -> preserves k s2 -> preserves k (s1 ;; s2).
Proof. intros H1 H2 o. unfold seq. now rewrite H2, H1. Qed.

Lemma preserves_if k (c : bool) s1 s2 :
  preserves k s1 -> preserves k s2 -> preserves k (if c then s1 else s2).
Proof. now destruct c. Qed.

Lemma get_seq k s1 s2 o : get_prop k ((s1 ;; s2) o) = get_prop k (s2 (s1 o)).
Proof. reflexivity. Qed.

Lemma get_seq_preserved k s1 s2 o :
  preserves k s2 -> get_prop k ((s1 ;; s2) o) = get_prop k (s1 o).
Proof. intros H. unfold seq. apply H. Qed.

Lemma get_assign_same k v o : get_prop k (assign k v o) = Some v.
Proof. apply get_set_same. Qed.

Create HintDb schema.
#[local] Hint Resolve preserves_skip preserves_seq preserves_if : schema.
#[local] Hint Extern 1 (preserves _ (assign _ _)) =>
  (apply preserves_assign; reflexivity) : schema.
#[local] Hint Extern 2 (preserves _ (match ?x with _ => _ end)) =>
  (destruct x) : schema.
#[local] Hint Extern 3 (preserves _ _) => (progress cbv zeta) : schema.

Ltac frame := solve [auto 20 with schema].

Lemma get_run_preserved k schema body :
  preserves k body -> get_prop k (run schema body) = get_prop k schema.
Proof. intros H. apply H. Qed.

Lemma get_run_last k schema body v :
  get_prop k (run schema (body ;; assign k v)) = Some v.
Proof. unfold run, seq. apply get_assign_same. Qed.


(* ====================================================================== *)
(** * Decimal digits *)
(* ====================================================================== *)

Lemma decimal_aux_fuel (n : Z) :
  0 <= n ->
  forall f f' acc,
    n < 2 ^ Z.of_nat (S f) -> n < 2 ^ Z.of_nat (S f') ->
    decimal_aux (S f) n acc = decimal_aux (S f') n [] ++ acc.
Proof.
  intros Hn. pattern n. apply Zlt_0_ind; [|exact Hn]. clear n Hn.
  intros n IH Hn f f' acc Hf Hf'.
  cbn [decimal_aux]. destruct (n <? 10) eqn:E; [reflexivity|].
  apply Z.ltb_ge in E.
  assert (Hq : 0 <= n / 10 < n) by (split; [apply Z.div_pos|apply Z.div_lt]; lia).
  assert (Hhalf : forall g, n < 2 ^ Z.of_nat (S g) -> n / 10 < 2 ^ Z.of_nat g).
  { intros g Hg. rewrite Nat2Z.inj_succ, Z.pow_succ_r in Hg by lia.
    apply Z.div_lt_upper_bound; lia. }
  destruct f as [|f]; [simpl in Hf; lia|].
  destruct f' as [|f']; [simpl in Hf'; lia|].
  rewrite (IH (n / 10) Hq f f (_ :: acc)) by auto.
  rewrite (IH (n / 10) Hq f' f [_]) by auto.
  now rewrite <- app_assoc.
Qed.

Lemma decimal_fuel_enough (n : Z) : 0 <= n -> n < 2 ^ Z.of_nat (S (Z.to_nat (Z.log2 n))).
Proof.
  intros Hn. rewrite Nat2Z.inj_succ, Z2Nat.id by apply Z.log2_nonneg.
  destruct (Z.eq_dec n 0) as [->|Hz]; [reflexivity|].
  apply Z.log2_spec. lia.
Qed.

Lemma decimal_small (n : Z) : n < 10 -> decimal n = [digit_char n].
Proof.
  intros H. unfold decimal. cbn [decimal_aux].
  apply Z.ltb_lt in H. now rewrite H.
Qed.

Lemma decimal_step (n : Z) :
  10 <= n -> decimal n = decimal (n / 10) ++ [digit_char (n mod 10)].
Proof.
  intros H. unfold decimal at 1. cbn [decimal_aux].
  destruct (n <? 10) eqn:E; [apply Z.ltb_lt in E; lia|].
  assert (Hq : 0 <= n / 10) by (apply Z.div_pos; lia).
  pose proof (decimal_fuel_enough n ltac:(lia)) as Hf.
  destruct (Z.to_nat (Z.log2 n)) as [|f] eqn:Ef.
  - simpl in Hf. lia.
  - unfold decimal. apply decimal_aux_fuel; trivial.
    + rewrite Nat2Z.inj_succ, Z.pow_succ_r in Hf by lia.
      apply Z.div_lt_upper_bound; lia.
    + now apply decimal_fuel_enough.
Qed.

Lemma is_digit_digit_char (d : Z) : 0 <= d < 10 -> is_digit (digit_char d) = true.
Proof.
  intros H. unfold is_digit, digit_char.
  apply andb_true_intro; split; apply N.leb_le; lia.
Qed.

Lemma decimal_digits (n : Z) :
  0 <= n -> decimal n <> [] /\ forallb is_digit (decimal n) = true.
Proof.
  intros Hn. pattern n. apply Zlt_0_ind; [|exact Hn]. clear n Hn.
  intros n IH Hn. destruct (Z_lt_le_dec n 10) as [Hs|Hb].
  - rewrite decimal_small by trivial. split; [discriminate|].
    simpl. now rewrite is_digit_digit_char by lia.
  - rewrite decimal_step by trivial. split.
    + intros H. now apply app_eq_nil in H as [_ H].
    + rewrite forallb_app. simpl.
      assert (Hq : 0 <= n / 10 < n) by (split; [apply Z.div_pos|apply Z.div_lt]; lia).
      destruct (IH _ Hq) as [_ ->].
      rewrite is_digit_digit_char; [reflexivity|]. apply Z.mod_pos_bound. lia.
Qed.

(* ====================================================================== *)
(** * [toFixed] *)
(* ====================================================================== *)

Lemma fixed2_layout (n : Z) :
  0 <= n ->
  (let m := decimal n in
   let m := if (List.length m <=? 2)%nat then zeros (3 - List.length m) ++ m else m in
   let k := List.length m in
   firstn (k - 2) m ++ "." ++ skipn (k - 2) m) = fixed2 n.
Proof.
  intros Hn. unfold fixed2. cbv zeta.
  destruct (Z_lt_le_dec n 10) as [H1|H1].
  - rewrite (decimal_small n) by trivial.
    rewrite Z.div_small, Z.div_small, Z.mod_small, Z.mod_small by lia.
    reflexivity.
  - rewrite (decimal_step n) by trivial.
    destruct (Z_lt_le_dec n 100) as [H2|H2].
    + assert (Hq : n / 10 < 10) by (apply Z.div_lt_upper_bound; lia).
      rewrite (decimal_small (n / 10)) by trivial.
      assert (Hq0 : 0 <= n / 10) by (apply Z.div_pos; lia).
      rewrite (Z.div_small n 100), (Z.mod_small (n / 10)) by lia.
      reflexivity.
    + assert (Hq : 10 <= n / 10) by (apply Z.div_le_lower_bound; lia).
      rewrite (decimal_step (n / 10)) by trivial.
      rewrite Z.div_div by lia. change (10 * 10) with 100.
      rewrite <- app_assoc. cbn [app].
      destruct (decimal_digits (n / 100)) as [Hne _];
        [apply Z.div_pos; lia|].
      set (ds := decimal (n / 100)) in *.
      set (tl := [digit_char ((n / 10) mod 10); digit_char (n mod 10)]).
      assert (Hlen : List.length (ds ++ tl) = (List.length ds + 2)%nat)
        by (rewrite length_app; reflexivity).
      rewrite Hlen.
      replace (List.length ds + 2 <=? 2)%nat with false
        by (symmetry; apply Nat.leb_gt; destruct ds; [congruence|simpl; lia]).
      rewrite Hlen.
      replace (List.length ds + 2 - 2)%nat with (List.length ds + 0)%nat by lia.
      rewrite firstn_app_2, skipn_app.
      rewrite skipn_all2 by lia.
      replace (List.length ds + 0 - List.length ds)%nat with 0%nat by lia.
      cbn. now rewrite app_nil_r.
Qed.

Lemma forallb_rev {A : Type} (f : A -> bool) (l : list A) :
  forallb f (rev l) = forallb f l.
Proof.
  induction l as [|a l IH]; [reflexivity|].
  simpl. rewrite forallb_app, IH. simpl. rewrite andb_true_r. apply andb_comm.
Qed.

Lemma two_fraction_digits_fixed2 (n : Z) (sign : jsstring) :
  0 <= n -> sign = [] \/ sign = "-" ->
  two_fraction_digits (sign ++ fixed2 n) = true.
Proof.
  intros Hn Hs. unfold two_fraction_digits, fixed2.
  destruct (decimal_digits (n / 100)) as [Hne Hd]; [apply Z.div_pos; lia|].
  assert (Hstrip : strip_minus (sign ++ decimal (n / 100) ++ "." ++
             [digit_char (n / 10 mod 10); digit_char (n mod 10)])
          = decimal (n / 100) ++ "." ++
             [digit_char (n / 10 mod 10); digit_char (n mod 10)]).
  { destruct Hs as [-> | ->]; [|reflexivity].
    destruct (decimal (n / 100)) as [|c ds]; [congruence|].
    simpl in Hd. apply andb_prop in Hd as [Hc _].
    unfold is_digit in Hc. apply andb_prop in Hc as [Hc1 Hc2].
    apply N.leb_le in Hc1, Hc2.
    simpl. destruct c as [|p]; [lia|].
    destruct (N.eq_dec (N.pos p) 45) as [E|E]; [lia|].
    do 6 (destruct p; try reflexivity; try lia). }
  rewrite Hstrip. rewrite !rev_app_distr. cbn [rev app].
  change (rev ".") with [46%N]. cbn [app].
  destruct (rev (decimal (n / 100))) as [|c r] eqn:Er.
  - apply (f_equal (@rev N)) in Er. rewrite rev_involutive in Er. simpl in Er. congruence.
  - rewrite !is_digit_digit_char by (apply Z.mod_pos_bound; lia).
    rewrite <- Er, forallb_rev. exact Hd.
Qed.

Lemma magnitude_nonneg (x : number) : (0 <= magnitude x)%Q.
Proof.
  destruct x as [s|s| |s m e]; simpl; try apply Qle_refl.
  apply Qmult_le_0_compat; [discriminate|].
  apply Qpower_0_le. discriminate.
Qed.

(** On a finite value of magnitude below [10^21], [toFixed(2)] prints the
    sign, then the integer nearest to a hundred times the magnitude (the
    larger one when two are equally near) with a point before its last two
    digits. *)
Lemma toFixed_2_finite (x : number) :
  is_finite x = true -> (magnitude x < Qpow10 21)%Q ->
  let n := Qfloor (magnitude x * inject_Z 100 + (1 # 2)) in
  toFixed x 2 = sign_text x ++ fixed2 n /\
  0 <= n /\
  (inject_Z n - (1 # 2) <= magnitude x * inject_Z 100)%Q /\
  (magnitude x * inject_Z 100 < inject_Z n + (1 # 2))%Q.
Proof.
  intros Hfin Hlt n.
  assert (Hn : 0 <= n).
  { change 0 with (Qfloor (0 * inject_Z 100 + (1 # 2))). apply Qfloor_resp_le.
    apply Qplus_le_l. apply Qmult_le_compat_r; [apply magnitude_nonneg|discriminate]. }
  split; [|split; [exact Hn|split]].
  - unfold toFixed. rewrite Hfin. cbn [negb].
    destruct (Qle_bool (Qpow10 21) (magnitude x)) eqn:E.
    + apply Qle_bool_iff in E. exfalso. now apply (Qlt_not_le _ _ Hlt).
    + change (Qpow10 (Z.of_nat 2)) with (inject_Z 100). fold n.
      unfold sign_text. f_equal. now apply fixed2_layout.
  - pose proof (Qfloor_le (magnitude x * inject_Z 100 + (1 # 2))) as H. fold n in H.
    apply (Qplus_le_l _ _ (1 # 2)). ring_simplify.
    ring_simplify in H. exact H.
  - pose proof (Qlt_floor (magnitude x * inject_Z 100 + (1 # 2))) as H. fold n in H.
    apply (Qplus_lt_l _ _ (1 # 2)).
    eapply Qlt_le_trans; [exact H|].
    rewrite inject_Z_plus. apply Qle_lteq. right. ring.
Qed.
(* ====================================================================== *)
(** * Product builder *)
(* ====================================================================== *)

Lemma product_offers (options : ProductSchemaOptions) :
  get_prop "offers" (createProductSchema options) =
  match pso_price options with
  | Some price =>
      if truthy_string (default [] (pso_priceCurrency options)) then
        Some (VObj [
          "@type" =: VStr "Offer";
          "price" =: VStr (toFixed price 2);
          "priceCurrency" =: val_str (pso_priceCurrency options);
          "availability" =:
            match pso_availability options with
            | Some a => VStr ("https://schema.org/" ++ Availability_name a)
            | None => VUndefined
            end ])
      else None
  | None => None
  end.
Proof.
  unfold createProductSchema. cbv zeta.
  destruct (pso_price options) as [price|].
  - destruct (pso_priceCurrency options) as [[|c cur]|]; simpl ToBoolean; simpl truthy_string; cbv iota.
    + rewrite get_run_preserved by frame. reflexivity.
    + rewrite get_run_last. destruct (pso_availability options) as [[]|]; reflexivity.
    + rewrite get_run_preserved by frame. reflexivity.
  - rewrite get_run_preserved by frame. reflexivity.
Qed.

(** C1, as stated, fails: with a price of 10 and the empty string as
    currency both inputs are supplied, yet the record has no [offers]. *)
Lemma C1_offers_counterexample :
  let options := with_offer (Number_of_Z 10) "" None in
  pso_price options <> None /\
  pso_priceCurrency options <> None /\
  has_prop "offers" (createProductSchema options) = false.
Proof.
  cbv zeta. split; [discriminate|]. split; [discriminate|]. reflexivity.
Qed.

(** C1 (amended): the record returned by [createProductSchema] has an
    [offers] field if and only if a price is supplied and a non-empty
    currency is supplied; in every other case [offers] is absent. *)
Theorem C1_offers_iff (options : ProductSchemaOptions) :
  has_prop "offers" (createProductSchema options) = true <->
  (exists price currency,
      pso_price options = Some price /\
      pso_priceCurrency options = Some currency /\
      currency <> []).
Proof.
  unfold has_prop. rewrite product_offers.
  destruct (pso_price options) as [price|].
  - destruct (pso_priceCurrency options) as [[|c cur]|]; simpl; split.
    + discriminate.
    + intros (p & c & _ & Hc & Hne). injection Hc as <-. congruence.
    + intros _. exists price, (c :: cur). repeat split; discriminate.
    + reflexivity.
    + discriminate.
    + intros (p & c & _ & Hc & _). discriminate.
  - split; [discriminate|]. intros (p & c & Hp & _). discriminate.
Qed.

(** C5, as stated, fails: a price of NaN with a currency emits [offers]
    whose [price] is the text "NaN". *)
Lemma C5_price_counterexample :
  let options := with_offer S754_nan "USD" None in
  exists offers s,
    get_prop "offers" (createProductSchema options) = Some offers /\
    field "price" (Some offers) = Some (VStr s) /\
    two_fraction_digits s = false.
Proof.
  cbv zeta. eexists. eexists. split; [reflexivity|]. split; reflexivity.
Qed.

(** C5 (amended): whenever [offers] is emitted, a price was supplied; if
    that price is finite and of magnitude below [10^21], [offers.price] is
    a string with exactly two digits after the decimal point that renders
    the integer nearest to a hundred times the price, and a price of zero
    renders as "0.00". *)
Theorem C5_price_two_decimals (options : ProductSchemaOptions) (offers : value) :
  get_prop "offers" (createProductSchema options) = Some offers ->
  exists price,
    pso_price options = Some price /\
    (is_finite price = true -> (magnitude price < Qpow10 21)%Q ->
     exists n,
       field "price" (Some offers) = Some (VStr (sign_text price ++ fixed2 n)) /\
       two_fraction_digits (sign_text price ++ fixed2 n) = true /\
       0 <= n /\
       (inject_Z n - (1 # 2) <= magnitude price * inject_Z 100)%Q /\
       (magnitude price * inject_Z 100 < inject_Z n + (1 # 2))%Q /\
       (forall s, price = S754_zero s -> sign_text price ++ fixed2 n = "0.00")).
Proof.
  rewrite product_offers.
  destruct (pso_price options) as [price|]; [|discriminate].
  destruct (truthy_string _); [|discriminate].
  intros H. injection H as <-. exists price. split; [reflexivity|].
  intros Hfin Hlt.
  destruct (toFixed_2_finite price Hfin Hlt) as (Heq & Hn & Hlo & Hhi).
  eexists. split; [|split; [|split; [exact Hn|split; [exact Hlo|split; [exact Hhi|]]]]].
  - cbn. now rewrite Heq.
  - apply two_fraction_digits_fixed2; [exact Hn|].
    unfold sign_text. destruct (is_negative price); auto.
  - intros s ->. reflexivity.
Qed.

Lemma C5_price_two_decimals_witness :
  let price := Number_of_Q (2999 # 100) in
  let options := with_offer price "USD" (Some InStock) in
  let offers := VObj [
    "@type" =: VStr "Offer";
    "price" =: VStr "29.99";
    "priceCurrency" =: VStr "USD";
    "availability" =: VStr "https://schema.org/InStock" ] in
  get_prop "offers" (createProductSchema options) = Some offers /\
  is_finite price = true /\
  (magnitude price < Qpow10 21)%Q /\
  exists n,
    field "price" (Some offers) = Some (VStr (sign_text price ++ fixed2 n)) /\
    two_fraction_digits (sign_text price ++ fixed2 n) = true.
Proof.
  cbv zeta.
  assert (E : get_prop "offers"
                (createProductSchema
                   (with_offer (Number_of_Q (2999 # 100)) "USD" (Some InStock)))
              = Some (VObj [
                  "@type" =: VStr "Offer";
                  "price" =: VStr "29.99";
                  "priceCurrency" =: VStr "USD";
                  "availability" =: VStr "https://schema.org/InStock" ]))
    by (vm_compute; reflexivity).
  assert (Hfin : is_finite (Number_of_Q (2999 # 100)) = true)
    by (vm_compute; reflexivity).
  assert (Hlt : (magnitude (Number_of_Q (2999 # 100)) < Qpow10 21)%Q)
    by (vm_compute; reflexivity).
  split; [exact E|]. split; [exact Hfin|]. split; [exact Hlt|].
  destruct (C5_price_two_decimals _ _ E) as (price & Hp & H).
  apply Some_inj in Hp. subst price.
  destruct (H Hfin Hlt) as (n & Hf & H2 & _).
  exists n. split; [exact Hf|exact H2].
Defined.

(** C6: whenever [offers] is emitted, its [availability] field is the
    text "https://schema.org/" followed by the enum value when an
    availability is supplied, and is present with the value [undefined]
    when none is supplied. *)
Theorem C6_availability (options : ProductSchemaOptions) (offers : value) :
  get_prop "offers" (createProductSchema options) = Some offers ->
  match pso_availability options with
  | Some a =>
      field "availability" (Some offers)
      = Some (VStr ("https://schema.org/" ++ Availability_name a))
  | None => field "availability" (Some offers) = Some VUndefined
  end.
Proof.
  rewrite product_offers.
  destruct (pso_price options) as [price|]; [|discriminate].
  destruct (truthy_string _); [|discriminate].
  intros H. injection H as <-.
  destruct (pso_availability options); reflexivity.
Qed.

Lemma C6_availability_witness :
  (let options := with_offer (Number_of_Z 10) "USD" (Some PreOrder) in
   exists offers,
     get_prop "offers" (createProductSchema options) = Some offers /\
     field "availability" (Some offers) = Some (VStr "https://schema.org/PreOrder")) /\
  (let options := with_offer (Number_of_Z 10) "USD" None in
   exists offers,
     get_prop "offers" (createProductSchema options) = Some offers /\
     field "availability" (Some offers) = Some VUndefined).
Proof.
  split; cbv zeta; eexists; (split; [reflexivity|]).
  - exact (C6_availability (with_offer (Number_of_Z 10) "USD" (Some PreOrder)) _ eq_refl).
  - exact (C6_availability (with_offer (Number_of_Z 10) "USD" None) _ eq_refl).
Defined.

(* ====================================================================== *)
(** * Organization builder *)
(* ====================================================================== *)

#[local] Hint Unfold organization_area organization_hours : schema.
#[local] Hint Extern 3 (preserves _ (organization_area _)) =>
  (unfold organization_area) : schema.
#[local] Hint Extern 3 (preserves _ (organization_hours _)) =>
  (unfold organization_hours) : schema.

Lemma get_run_seq k schema s1 s2 :
  get_prop k (run schema (s1 ;; s2)) = get_prop k (s2 (run schema s1)).
Proof. reflexivity. Qed.

Lemma get_run_seq_preserved k schema s1 s2 :
  preserves k s2 ->
  get_prop k (run schema (s1 ;; s2)) = get_prop k (run schema s1).
Proof. intros H. unfold run, seq. apply H. Qed.

Lemma organization_areaServed (options : OrganizationSchemaOptions) :
  get_prop "areaServed" (createOrganizationSchema options) =
  get_prop "areaServed" (organization_area (oso_areaServed options) []).
Proof.
  unfold createOrganizationSchema. cbv zeta.
  rewrite get_run_seq_preserved by frame.
  rewrite get_run_seq.
  unfold organization_area.
  destruct (oso_areaServed options) as [area|]; cbv zeta.
  - destruct (geoMidpoint area) as [mp|];
      destruct (ToBoolean (val_str (geoRadius area)));
      destruct (ToBoolean (val_str (city area)));
      try (unfold assign; rewrite !get_set_same; reflexivity);
      unfold skip; rewrite get_run_preserved by frame; reflexivity.
  - unfold skip; rewrite get_run_preserved by frame; reflexivity.
Qed.

Lemma truthy_val_str (x : option jsstring) :
  ToBoolean (val_str x) = true <-> exists s, x = Some s /\ s <> [].
Proof.
  destruct x as [[|c s]|]; simpl; split; try discriminate.
  - intros (s & H & Hne). injection H as <-. congruence.
  - intros _. eexists. split; [reflexivity|discriminate].
  - reflexivity.
  - intros (s & H & _). discriminate.
Qed.

Lemma falsy_val_str (x : option jsstring) :
  ToBoolean (val_str x) = false <-> x = None \/ x = Some [].
Proof.
  destruct x as [[|c s]|]; simpl; split; auto; try discriminate.
  intros [H|H]; discriminate.
Qed.

(** C3, as stated, fails: a service area with a center point and the
    empty string as radius supplies both, yet no "GeoCircle" is emitted
    (here [areaServed] is absent altogether). *)
Lemma C3_area_counterexample :
  let area := {| geoMidpoint := Some new_york; geoRadius := Some [];
                 city := None; region := None; country := None |} in
  geoMidpoint area <> None /\
  geoRadius area <> None /\
  get_prop "areaServed" (createOrganizationSchema (org_with_area area)) = None.
Proof.
  cbv zeta. split; [discriminate|]. split; [discriminate|]. reflexivity.
Qed.

(** C3 (amended): if the service area supplies a center point and a
    non-empty radius, [areaServed] is a "GeoCircle" record nesting a
    "GeoCoordinates" record with exactly the input latitude and longitude
    and carrying the radius; otherwise, if a non-empty city is supplied,
    [areaServed] is a "City" record with that name; otherwise (whatever
    region and country are, and also without any service area) the field
    is absent.  The builder is a total function, so nothing is raised. *)
Theorem C3_area_served (options : OrganizationSchemaOptions) :
  match oso_areaServed options with
  | Some area =>
      (forall midpoint radius,
          geoMidpoint area = Some midpoint ->
          geoRadius area = Some radius -> radius <> [] ->
          get_prop "areaServed" (createOrganizationSchema options)
          = Some (VObj [
              "@type" =: VStr "GeoCircle";
              "geoMidpoint" =: VObj [
                "@type" =: VStr "GeoCoordinates";
                "latitude" =: VNum (latitude midpoint);
                "longitude" =: VNum (longitude midpoint) ];
              "geoRadius" =: VStr radius ])) /\
      (forall name,
          geoMidpoint area = None \/ geoRadius area = None \/ geoRadius area = Some [] ->
          city area = Some name -> name <> [] ->
          get_prop "areaServed" (createOrganizationSchema options)
          = Some (VObj [ "@type" =: VStr "City"; "name" =: VStr name ])) /\
      (geoMidpoint area = None \/ geoRadius area = None \/ geoRadius area = Some [] ->
       city area = None \/ city area = Some [] ->
       get_prop "areaServed" (createOrganizationSchema options) = None)
  | None => get_prop "areaServed" (createOrganizationSchema options) = None
  end.
Proof.
  rewrite organization_areaServed. unfold organization_area.
  destruct (oso_areaServed options) as [area|]; [|reflexivity].
  cbv zeta. split; [|split].
  - intros mp r -> -> Hr. destruct r; [congruence|]. reflexivity.
  - intros name Hno -> Hn. destruct name; [congruence|].
    destruct Hno as [-> | [-> | ->]]; try reflexivity;
      destruct (geoMidpoint area); reflexivity.
  - intros Hno Hc.
    assert (E : ToBoolean (val_str (city area)) = false) by now apply falsy_val_str.
    rewrite E.
    destruct Hno as [-> | [-> | ->]]; try reflexivity;
      destruct (geoMidpoint area); reflexivity.
Qed.

Lemma C3_area_served_witness :
  get_prop "areaServed" (createOrganizationSchema (org_with_area
    {| geoMidpoint := Some new_york; geoRadius := Some ("25km" : jsstring);
       city := Some ("New York" : jsstring); region := None; country := None |}))
  = Some (VObj [
      "@type" =: VStr "GeoCircle";
      "geoMidpoint" =: VObj [
        "@type" =: VStr "GeoCoordinates";
        "latitude" =: VNum (latitude new_york);
        "longitude" =: VNum (longitude new_york) ];
      "geoRadius" =: VStr "25km" ]) /\
  get_prop "areaServed" (createOrganizationSchema (org_with_area
    {| geoMidpoint := None; geoRadius := Some ("25km" : jsstring);
       city := Some ("New York" : jsstring); region := None; country := None |}))
  = Some (VObj [ "@type" =: VStr "City"; "name" =: VStr "New York" ]) /\
  get_prop "areaServed" (createOrganizationSchema (org_with_area
    {| geoMidpoint := None; geoRadius := None; city := None;
       region := Some ("California" : jsstring);
       country := Some ("USA" : jsstring) |})) = None.
Proof.
  split; [|split].
  - pose proof (C3_area_served (org_with_area
      {| geoMidpoint := Some new_york; geoRadius := Some ("25km" : jsstring);
         city := Some ("New York" : jsstring); region := None; country := None |}))
      as H.
    cbv beta iota delta [org_with_area oso_areaServed] in H.
    destruct H as (H & _ & _).
    apply (H new_york ("25km" : jsstring)); [reflexivity|reflexivity|discriminate].
  - pose proof (C3_area_served (org_with_area
      {| geoMidpoint := None; geoRadius := Some ("25km" : jsstring);
         city := Some ("New York" : jsstring); region := None; country := None |}))
      as H.
    cbv beta iota delta [org_with_area oso_areaServed] in H.
    destruct H as (_ & H & _).
    apply (H ("New York" : jsstring)); [left; reflexivity|reflexivity|discriminate].
  - pose proof (C3_area_served (org_with_area
      {| geoMidpoint := None; geoRadius := None; city := None;
         region := Some ("California" : jsstring);
         country := Some ("USA" : jsstring) |}))
      as H.
    cbv beta iota delta [org_with_area oso_areaServed] in H.
    destruct H as (_ & _ & H).
    apply H; left; reflexivity.
Defined.

Lemma get_set_congr (k k' : jsstring) (v : value) (o o' : object) :
  get_prop k o = get_prop k o' ->
  get_prop k (set_prop k' v o) = get_prop k (set_prop k' v o').
Proof.
  intros H. destruct (jsstring_eqb k' k) eqn:E.
  - apply jsstring_eqb_true in E. subst k'. now rewrite !get_set_same.
  - now rewrite !get_set_other.
Qed.

Lemma organization_hours_congr (hours : option OpeningHours) (k : jsstring)
    (o o' : object) :
  get_prop k o = get_prop k o' ->
  get_prop k (organization_hours hours o) = get_prop k (organization_hours hours o').
Proof.
  intros H. unfold organization_hours.
  destruct hours as [h|]; [|exact H].
  destruct (ToBoolean (val_bool (open24Hours h))); [now apply get_set_congr|].
  destruct (dayOfWeek h); [|exact H].
  destruct (ToBoolean (val_str (opens h)) && ToBoolean (val_str (closes h)));
    [now apply get_set_congr|exact H].
Qed.

Lemma organization_openingHours (options : OrganizationSchemaOptions) :
  get_prop "openingHours" (createOrganizationSchema options) =
  get_prop "openingHours"
    (organization_hours (oso_openingHoursSpecification options) []).
Proof.
  unfold createOrganizationSchema. cbv zeta. rewrite get_run_seq.
  apply organization_hours_congr.
  rewrite get_run_preserved by frame. reflexivity.
Qed.

Lemma organization_openingHoursSpecification (options : OrganizationSchemaOptions) :
  get_prop "openingHoursSpecification" (createOrganizationSchema options) =
  get_prop "openingHoursSpecification"
    (organization_hours (oso_openingHoursSpecification options) []).
Proof.
  unfold createOrganizationSchema. cbv zeta. rewrite get_run_seq.
  apply organization_hours_congr.
  rewrite get_run_preserved by frame. reflexivity.
Qed.

(** C4, as stated, fails: with a day list, the empty string as opening
    time and a closing time, all three are present together, yet no
    "OpeningHoursSpecification" record is emitted. *)
Lemma C4_hours_counterexample :
  let hours := {| dayOfWeek := Some [Monday]; opens := Some [];
                  closes := Some ("17:00" : jsstring); open24Hours := None |} in
  dayOfWeek hours <> None /\ opens hours <> None /\ closes hours <> None /\
  get_prop "openingHoursSpecification"
    (createOrganizationSchema (org_with_hours hours)) = None.
Proof.
  cbv zeta. repeat (split; [discriminate|]). reflexivity.
Qed.

(** C4 (amended): with an opening-hours specification, a set
    [open24Hours] flag takes precedence and yields the string "Mo-Su"
    under [openingHours] and no "OpeningHoursSpecification"; otherwise
    [openingHours] is absent and an "OpeningHoursSpecification" record is
    emitted exactly when the day list is present and [opens] and [closes]
    are present and non-empty; any other combination yields neither
    field.  The builder is a total function, so nothing is raised. *)
Theorem C4_opening_hours (options : OrganizationSchemaOptions) (hours : OpeningHours) :
  oso_openingHoursSpecification options = Some hours ->
  let schema := createOrganizationSchema options in
  (open24Hours hours = Some true ->
   get_prop "openingHours" schema = Some (VStr "Mo-Su") /\
   get_prop "openingHoursSpecification" schema = None) /\
  (open24Hours hours <> Some true ->
   get_prop "openingHours" schema = None /\
   (forall days o c,
       dayOfWeek hours = Some days ->
       opens hours = Some o -> o <> [] ->
       closes hours = Some c -> c <> [] ->
       get_prop "openingHoursSpecification" schema
       = Some (VObj [
           "@type" =: VStr "OpeningHoursSpecification";
           "dayOfWeek" =: VArr (map VStr (map DayOfWeek_name days));
           "opens" =: VStr o;
           "closes" =: VStr c ])) /\
   (dayOfWeek hours = None \/
    opens hours = None \/ opens hours = Some [] \/
    closes hours = None \/ closes hours = Some [] ->
    get_prop "openingHoursSpecification" schema = None)).
Proof.
  intros Hh. cbv zeta.
  rewrite organization_openingHours, organization_openingHoursSpecification, Hh.
  unfold organization_hours. split.
  - intros ->. split; reflexivity.
  - intros Hflag.
    assert (E : ToBoolean (val_bool (open24Hours hours)) = false).
    { destruct (open24Hours hours) as [[|]|]; try reflexivity. congruence. }
    rewrite E. split; [|split].
    + destruct (dayOfWeek hours);
        [destruct (ToBoolean (val_str (opens hours)) && ToBoolean (val_str (closes hours)))|];
        reflexivity.
    + intros days o c -> -> Ho -> Hc.
      destruct o; [congruence|]. destruct c; [congruence|]. reflexivity.
    + intros H. destruct (dayOfWeek hours); [|reflexivity].
      assert (E2 : ToBoolean (val_str (opens hours)) && ToBoolean (val_str (closes hours)) = false).
      { apply andb_false_iff. rewrite !falsy_val_str.
        destruct H as [H|[H|[H|[H|H]]]]; [discriminate|auto..]. }
      rewrite E2. reflexivity.
Qed.

Lemma C4_opening_hours_witness :
  (let hours := {| dayOfWeek := Some [Monday]; opens := None; closes := None;
                   open24Hours := Some true |} in
   get_prop "openingHours" (createOrganizationSchema (org_with_hours hours))
   = Some (VStr "Mo-Su")) /\
  (let hours := {| dayOfWeek := Some [Monday; Friday];
                   opens := Some ("09:00" : jsstring);
                   closes := Some ("17:00" : jsstring);
                   open24Hours := None |} in
   get_prop "openingHoursSpecification"
     (createOrganizationSchema (org_with_hours hours))
   = Some (VObj [
       "@type" =: VStr "OpeningHoursSpecification";
       "dayOfWeek" =: VArr [VStr "Monday"; VStr "Friday"];
       "opens" =: VStr "09:00";
       "closes" =: VStr "17:00" ])) /\
  (let hours := {| dayOfWeek := Some [Monday]; opens := None;
                   closes := Some ("17:00" : jsstring); open24Hours := Some false |} in
   get_prop "openingHoursSpecification"
     (createOrganizationSchema (org_with_hours hours)) = None).
Proof.
  split; [|split]; cbv zeta.
  - pose proof (C4_opening_hours
      (org_with_hours {| dayOfWeek := Some [Monday]; opens := None; closes := None;
                         open24Hours := Some true |}) _ eq_refl) as H.
    cbv zeta in H. destruct H as (H & _).
    apply H. reflexivity.
  - pose proof (C4_opening_hours
      (org_with_hours {| dayOfWeek := Some [Monday; Friday];
                         opens := Some ("09:00" : jsstring);
                         closes := Some ("17:00" : jsstring);
                         open24Hours := None |}) _ eq_refl) as H.
    cbv zeta in H. destruct H as (_ & H).
    destruct H as (_ & H & _); [discriminate|].
    apply (H [Monday; Friday] ("09:00" : jsstring) ("17:00" : jsstring));
      first [reflexivity|discriminate].
  - pose proof (C4_opening_hours
      (org_with_hours {| dayOfWeek := Some [Monday]; opens := None;
                         closes := Some ("17:00" : jsstring);
                         open24Hours := Some false |}) _ eq_refl) as H.
    cbv zeta in H. destruct H as (_ & H).
    destruct H as (_ & _ & H); [discriminate|].
    apply H. right. left. reflexivity.
Defined.

(* ====================================================================== *)
(** * Breadcrumb builder *)
(* ====================================================================== *)

Lemma mapi_from_length {A B : Type} (f : A -> nat -> B) (l : list A) (i : nat) :
  List.length (mapi_from i f l) = List.length l.
Proof.
  revert i. induction l as [|a l IH]; intros i; simpl; [reflexivity|].
  now rewrite IH.
Qed.

Lemma mapi_from_nth {A B : Type} (f : A -> nat -> B) (l : list A) (i j : nat) :
  nth_error (mapi_from i f l) j = option_map (fun a => f a (i + j)%nat) (nth_error l j).
Proof.
  revert i j. induction l as [|a l IH]; intros i [|j]; simpl; try reflexivity.
  - now rewrite Nat.add_0_r.
  - rewrite IH. now rewrite Nat.add_succ_comm.
Qed.

(** C7: for an input sequence of length N, [createBreadcrumbSchema]
    returns a "BreadcrumbList" whose [itemListElement] has length N; its
    i-th entry is a "ListItem" with [position] i+1 and the name and url of
    the i-th input; the empty input yields the empty list. *)
Theorem C7_breadcrumb_positions (items : list BreadcrumbItem) :
  get_prop "@type" (createBreadcrumbSchema items) = Some (VStr "BreadcrumbList") /\
  exists elements,
    get_prop "itemListElement" (createBreadcrumbSchema items) = Some (VArr elements) /\
    List.length elements = List.length items /\
    (forall i item,
        nth_error items i = Some item ->
        nth_error elements i = Some (VObj [
          "@type" =: VStr "ListItem";
          "position" =: VNum (Number_of_Z (Z.of_nat i + 1));
          "name" =: VStr (bc_name item);
          "item" =: VStr (bc_url item) ])) /\
    (items = [] -> elements = []).
Proof.
  split; [reflexivity|].
  eexists. split; [reflexivity|]. split; [apply mapi_from_length|]. split.
  - intros i item H. unfold mapi. rewrite mapi_from_nth, H. reflexivity.
  - intros ->. reflexivity.
Qed.

Lemma C7_breadcrumb_positions_witness :
  let items := [ {| bc_name := "Home"; bc_url := "https://example.com" |};
                 {| bc_name := "Products"; bc_url := "https://example.com/products" |} ] in
  exists elements,
    get_prop "itemListElement" (createBreadcrumbSchema items) = Some (VArr elements) /\
    nth_error elements 1 = Some (VObj [
      "@type" =: VStr "ListItem";
      "position" =: VNum (Number_of_Z 2);
      "name" =: VStr "Products";
      "item" =: VStr "https://example.com/products" ]).
Proof.
  cbv zeta.
  destruct (C7_breadcrumb_positions
    [ {| bc_name := "Home"; bc_url := "https://example.com" |};
      {| bc_name := "Products"; bc_url := "https://example.com/products" |} ])
    as (_ & elements & Hget & _ & Hnth & _).
  exists elements. split; [exact Hget|].
  exact (Hnth 1%nat _ eq_refl).
Defined.

(* ====================================================================== *)
(** * Review builder *)
(* ====================================================================== *)

(** C8: for every input [aggregateRating] is emitted, whatever the
    review count, zero included; its bounds are the caller's, and 5 and 1
    where the caller gives none; and each entry of [review], one per
    input review, nests a "Rating" record that carries those same
    bounds, so they equal the bounds of the aggregate. *)
Theorem C8_review_bounds (options : ReviewSchemaOptions) :
  let best :=
    match rso_bestRating options with Some bound => bound | None => Number_of_Z 5 end in
  let worst :=
    match rso_worstRating options with Some bound => bound | None => Number_of_Z 1 end in
  exists aggregate reviews,
    get_prop "aggregateRating" (createReviewSchema options) = Some aggregate /\
    field "@type" (Some aggregate) = Some (VStr "AggregateRating") /\
    field "ratingValue" (Some aggregate) = Some (VNum (rso_ratingValue options)) /\
    field "reviewCount" (Some aggregate) = Some (VNum (rso_reviewCount options)) /\
    field "bestRating" (Some aggregate) = Some (VNum best) /\
    field "worstRating" (Some aggregate) = Some (VNum worst) /\
    (rso_bestRating options = None ->
     field "bestRating" (Some aggregate) = Some (VNum (Number_of_Z 5))) /\
    (rso_worstRating options = None ->
     field "worstRating" (Some aggregate) = Some (VNum (Number_of_Z 1))) /\
    get_prop "review" (createReviewSchema options) = Some (VArr reviews) /\
    List.length reviews = List.length (rso_reviews options) /\
    (forall entry, In entry reviews ->
       field "@type" (field "reviewRating" (Some entry)) = Some (VStr "Rating") /\
       field "bestRating" (field "reviewRating" (Some entry)) = Some (VNum best) /\
       field "worstRating" (field "reviewRating" (Some entry)) = Some (VNum worst) /\
       field "bestRating" (field "reviewRating" (Some entry))
       = field "bestRating" (Some aggregate) /\
       field "worstRating" (field "reviewRating" (Some entry))
       = field "worstRating" (Some aggregate)).
Proof.
  unfold createReviewSchema, default. cbv zeta.
  eexists. eexists. split; [reflexivity|].
  split; [reflexivity|]. split; [reflexivity|]. split; [reflexivity|].
  split; [reflexivity|]. split; [reflexivity|].
  split; [intros ->; reflexivity|]. split; [intros ->; reflexivity|].
  split; [reflexivity|]. split; [apply length_map|].
  intros entry Hin. apply in_map_iff in Hin as (review & <- & _).
  repeat split.
Qed.

Lemma C8_review_bounds_witness :
  let review := {| ri_author := "Ann"; ri_reviewBody := "Great";
                   ri_reviewRating := Number_of_Z 4;
                   ri_datePublished := "2024-01-01" |} in
  let defaults := {| rso_organization := test_org;
                     rso_reviewCount := Number_of_Z 0;
                     rso_ratingValue := Number_of_Z 0;
                     rso_bestRating := None;
                     rso_worstRating := None;
                     rso_reviews := [review] |} in
  let bounded := {| rso_organization := test_org;
                    rso_reviewCount := Number_of_Z 1;
                    rso_ratingValue := Number_of_Z 4;
                    rso_bestRating := Some (Number_of_Z 10);
                    rso_worstRating := Some (Number_of_Z 2);
                    rso_reviews := [review] |} in
  (exists aggregate entry,
     get_prop "aggregateRating" (createReviewSchema defaults) = Some aggregate /\
     field "reviewCount" (Some aggregate) = Some (VNum (Number_of_Z 0)) /\
     field "bestRating" (Some aggregate) = Some (VNum (Number_of_Z 5)) /\
     field "worstRating" (Some aggregate) = Some (VNum (Number_of_Z 1)) /\
     field "review" (Some (VObj (createReviewSchema defaults))) = Some (VArr [entry]) /\
     field "bestRating" (field "reviewRating" (Some entry)) = Some (VNum (Number_of_Z 5)) /\
     field "worstRating" (field "reviewRating" (Some entry))
     = Some (VNum (Number_of_Z 1))) /\
  (exists aggregate entry,
     get_prop "aggregateRating" (createReviewSchema bounded) = Some aggregate /\
     field "bestRating" (Some aggregate) = Some (VNum (Number_of_Z 10)) /\
     field "worstRating" (Some aggregate) = Some (VNum (Number_of_Z 2)) /\
     field "review" (Some (VObj (createReviewSchema bounded))) = Some (VArr [entry]) /\
     field "bestRating" (field "reviewRating" (Some entry)) = Some (VNum (Number_of_Z 10)) /\
     field "worstRating" (field "reviewRating" (Some entry))
     = Some (VNum (Number_of_Z 2))).
Proof.
  cbv zeta. split.
  - destruct (C8_review_bounds
      {| rso_organization := test_org; rso_reviewCount := Number_of_Z 0;
         rso_ratingValue := Number_of_Z 0; rso_bestRating := None;
         rso_worstRating := None;
         rso_reviews := [ {| ri_author := "Ann"; ri_reviewBody := "Great";
                             ri_reviewRating := Number_of_Z 4;
                             ri_datePublished := "2024-01-01" |} ] |})
      as (aggregate & reviews & Hget & _ & _ & Hcount & _ & _ & Hbest & Hworst
          & Hreviews & Hlen & Hentries).
    destruct reviews as [|entry [|other reviews]]; try discriminate Hlen.
    destruct (Hentries entry (or_introl eq_refl)) as (_ & Hb & Hw & _ & _).
    exists aggregate, entry.
    split; [exact Hget|]. split; [exact Hcount|].
    split; [exact (Hbest eq_refl)|]. split; [exact (Hworst eq_refl)|].
    split; [exact Hreviews|]. split; [exact Hb|exact Hw].
  - destruct (C8_review_bounds
      {| rso_organization := test_org; rso_reviewCount := Number_of_Z 1;
         rso_ratingValue := Number_of_Z 4; rso_bestRating := Some (Number_of_Z 10);
         rso_worstRating := Some (Number_of_Z 2);
         rso_reviews := [ {| ri_author := "Ann"; ri_reviewBody := "Great";
                             ri_reviewRating := Number_of_Z 4;
                             ri_datePublished := "2024-01-01" |} ] |})
      as (aggregate & reviews & Hget & _ & _ & _ & Hbest & Hworst & _ & _
          & Hreviews & Hlen & Hentries).
    destruct reviews as [|entry [|other reviews]]; try discriminate Hlen.
    destruct (Hentries entry (or_introl eq_refl)) as (_ & Hb & Hw & _ & _).
    exists aggregate, entry.
    split; [exact Hget|]. split; [exact Hbest|]. split; [exact Hworst|].
    split; [exact Hreviews|]. split; [exact Hb|exact Hw].
Defined.

(** C10: the record returned by [createReviewSchema] has exactly the
    fields [@context], [@type], [name], [aggregateRating] and [review];
    the organization's url and its optional fields never appear. *)
Theorem C10_review_fields (options : ReviewSchemaOptions) :
  keys (createReviewSchema options)
  = [ str "@context"; str "@type"; str "name"; str "aggregateRating"; str "review" ].
Proof. reflexivity. Qed.

(* ====================================================================== *)
(** * All builders *)
(* ====================================================================== *)

Ltac tagged_run f :=
  intros options; unfold tagged, f; cbv zeta;
  split; (rewrite get_run_preserved by frame); reflexivity.

(** C9: every builder returns a record with ["@context"] equal to
    "https://schema.org" and a string-valued ["@type"]: the type tag of
    the builder, or for the Organization builder the caller's type,
    "LocalBusiness" when none is given. *)
Theorem C9_context_and_type :
  (forall options,
      tagged (default (str "LocalBusiness") (oso_type options))
             (createOrganizationSchema options)) /\
  (forall options, tagged "Service" (createServiceSchema options)) /\
  (forall faqs, tagged "FAQPage" (createFAQSchema faqs)) /\
  (forall items, tagged "BreadcrumbList" (createBreadcrumbSchema items)) /\
  (forall options, tagged "LocalBusiness" (createReviewSchema options)) /\
  (forall options, tagged "Product" (createProductSchema options)) /\
  (forall options, tagged "Article" (createArticleSchema options)) /\
  (forall options, tagged "Event" (createEventSchema options)).
Proof.
  split; [tagged_run createOrganizationSchema|].
  split; [tagged_run createServiceSchema|].
  split; [intros faqs; split; reflexivity|].
  split; [intros items; split; reflexivity|].
  split; [intros options; split; reflexivity|].
  split; [tagged_run createProductSchema|].
  split; [tagged_run createArticleSchema|].
  tagged_run createEventSchema.
Qed.

(* ====================================================================== *)
(** * Fields of the builders' records *)
(* ====================================================================== *)

Lemma get_run_guarded k schema body (c : bool) v :
  get_prop k (run schema (body ;; (if c then assign k v else skip)))
  = if c then Some v else get_prop k (run schema body).
Proof.
  rewrite get_run_seq. destruct c; [apply get_set_same|reflexivity].
Qed.

Lemma get_run_guarded_first k schema (c : bool) v :
  get_prop k (run schema (if c then assign k v else skip))
  = if c then Some v else get_prop k schema.
Proof. destruct c; [apply get_set_same|reflexivity]. Qed.

Lemma copied_val_str (x : option jsstring) :
  (if ToBoolean (val_str x) then Some (val_str x) else None) = copied x.
Proof. destruct x as [[|c s]|]; reflexivity. Qed.

(** Drop the statements after the one that writes [k], read the guarded
    assignment, and fall back to the initial record. *)
Ltac guarded_field :=
  cbv zeta;
  repeat (rewrite get_run_seq_preserved by frame);
  first [ rewrite get_run_guarded | rewrite get_run_guarded_first ];
  rewrite ?get_run_preserved by frame;
  try apply copied_val_str.

(** The Organization record always carries the name and url of the
    input; each optional string field is copied when it is non-empty and
    absent otherwise; [sameAs] is copied when the list is non-empty. *)
Theorem organization_fields (options : OrganizationSchemaOptions) :
  let organization := oso_organization options in
  let schema := createOrganizationSchema options in
  get_prop "name" schema = Some (VStr (org_name organization)) /\
  get_prop "url" schema = Some (VStr (org_url organization)) /\
  get_prop "@id" schema = copied (org_id organization) /\
  get_prop "description" schema = copied (org_description organization) /\
  get_prop "telephone" schema = copied (org_telephone organization) /\
  get_prop "email" schema = copied (org_email organization) /\
  get_prop "priceRange" schema = copied (org_priceRange organization) /\
  get_prop "image" schema = copied (org_image organization) /\
  get_prop "logo" schema = copied (org_logo organization) /\
  get_prop "sameAs" schema =
    match org_sameAs organization with
    | Some (u :: urls) => Some (VArr (map VStr (u :: urls)))
    | _ => None
    end.
Proof.
  unfold createOrganizationSchema.
  repeat split; try (guarded_field; fail).
  - cbv zeta. rewrite get_run_preserved by frame. reflexivity.
  - cbv zeta. rewrite get_run_preserved by frame. reflexivity.
  - cbv zeta. repeat (rewrite get_run_seq_preserved by frame).
    rewrite get_run_seq.
    destruct (org_sameAs (oso_organization options)) as [[|u urls]|]; cbn [Nat.ltb Nat.leb List.length].
    + unfold skip. rewrite get_run_preserved by frame. reflexivity.
    + apply get_set_same.
    + unfold skip. rewrite get_run_preserved by frame. reflexivity.
Qed.

(** The Service record summarises its provider as a "LocalBusiness" with
    name and url only, whatever else the provider carries; its
    [areaServed] is a "City" record when a non-empty city is given and is
    absent otherwise, so a center point and radius never produce a
    "GeoCircle" here; [image] and [serviceType] are copied when
    non-empty. *)
Theorem service_fields (options : ServiceSchemaOptions) :
  let schema := createServiceSchema options in
  get_prop "name" schema = Some (VStr (sso_name options)) /\
  get_prop "description" schema = Some (VStr (sso_description options)) /\
  get_prop "url" schema = Some (VStr (sso_url options)) /\
  get_prop "provider" schema = Some (VObj [
    "@type" =: VStr "LocalBusiness";
    "name" =: VStr (org_name (sso_provider options));
    "url" =: VStr (org_url (sso_provider options)) ]) /\
  get_prop "image" schema = copied (sso_image options) /\
  get_prop "serviceType" schema = copied (sso_serviceType options) /\
  get_prop "areaServed" schema =
    match sso_areaServed options with
    | Some area =>
        match city area with
        | Some (c :: name) =>
            Some (VObj [ "@type" =: VStr "City"; "name" =: VStr (c :: name) ])
        | _ => None
        end
    | None => None
    end.
Proof.
  unfold createServiceSchema.
  repeat split; try (guarded_field; fail);
    try (cbv zeta; rewrite get_run_preserved by frame; reflexivity).
  cbv zeta. rewrite get_run_seq.
  destruct (sso_areaServed options) as [area|].
  - destruct (city area) as [[|c name]|]; cbn [val_str ToBoolean truthy_string].
    + unfold skip. rewrite get_run_preserved by frame. reflexivity.
    + apply get_set_same.
    + unfold skip. rewrite get_run_preserved by frame. reflexivity.
  - unfold skip. rewrite get_run_preserved by frame. reflexivity.
Qed.

(** The FAQ record lists one "Question" per input pair, in input order,
    each with the question as [name] and the answer nested as an
    "Answer"; the empty input yields an empty [mainEntity], not an absent
    one. *)
Theorem faq_entries (faqs : list FAQItem) :
  exists entries,
    get_prop "mainEntity" (createFAQSchema faqs) = Some (VArr entries) /\
    List.length entries = List.length faqs /\
    (forall i faq,
        nth_error faqs i = Some faq ->
        nth_error entries i = Some (VObj [
          "@type" =: VStr "Question";
          "name" =: VStr (question faq);
          "acceptedAnswer" =: VObj [
            "@type" =: VStr "Answer";
            "text" =: VStr (answer faq) ] ])) /\
    (faqs = [] -> entries = []).
Proof.
  eexists. split; [reflexivity|]. split; [apply length_map|]. split.
  - intros i faq H. rewrite nth_error_map, H. reflexivity.
  - intros ->. reflexivity.
Qed.

Lemma faq_entries_witness :
  let faqs := [ {| question := "What are your hours?"; answer := "We are open 24/7." |} ] in
  exists entries,
    get_prop "mainEntity" (createFAQSchema faqs) = Some (VArr entries) /\
    nth_error entries 0 = Some (VObj [
      "@type" =: VStr "Question";
      "name" =: VStr "What are your hours?";
      "acceptedAnswer" =: VObj [
        "@type" =: VStr "Answer";
        "text" =: VStr "We are open 24/7." ] ]).
Proof.
  cbv zeta.
  destruct (faq_entries
    [ {| question := "What are your hours?"; answer := "We are open 24/7." |} ])
    as (entries & Hget & _ & Hnth & _).
  exists entries. split; [exact Hget|].
  exact (Hnth 0%nat _ eq_refl).
Defined.

(** The Review record carries the organization's name, and its [review]
    sequence has one "Review" per input review, in input order, nesting
    the author as a "Person" and the rating as a "Rating" with the
    review's own value. *)
Theorem review_entries (options : ReviewSchemaOptions) :
  get_prop "name" (createReviewSchema options)
  = Some (VStr (org_name (rso_organization options))) /\
  exists entries,
    get_prop "review" (createReviewSchema options) = Some (VArr entries) /\
    forall i review,
      nth_error (rso_reviews options) i = Some review ->
      exists entry,
        nth_error entries i = Some entry /\
        field "@type" (Some entry) = Some (VStr "Review") /\
        field "author" (Some entry)
        = Some (VObj [ "@type" =: VStr "Person"; "name" =: VStr (ri_author review) ]) /\
        field "reviewBody" (Some entry) = Some (VStr (ri_reviewBody review)) /\
        field "ratingValue" (field "reviewRating" (Some entry))
        = Some (VNum (ri_reviewRating review)) /\
        field "datePublished" (Some entry) = Some (VStr (ri_datePublished review)).
Proof.
  split; [reflexivity|].
  eexists. split; [reflexivity|].
  intros i review H. eexists. split.
  - rewrite nth_error_map, H. reflexivity.
  - repeat split.
Qed.

Lemma review_entries_witness :
  let review := {| ri_author := "John Doe"; ri_reviewBody := "Excellent service!";
                   ri_reviewRating := Number_of_Z 5;
                   ri_datePublished := "2024-01-15" |} in
  let options := {| rso_organization := test_org;
                    rso_reviewCount := Number_of_Z 150;
                    rso_ratingValue := Number_of_Q (48 # 10);
                    rso_bestRating := None;
                    rso_worstRating := None;
                    rso_reviews := [review] |} in
  exists entries entry,
    get_prop "review" (createReviewSchema options) = Some (VArr entries) /\
    nth_error entries 0 = Some entry /\
    field "reviewBody" (Some entry) = Some (VStr "Excellent service!").
Proof.
  cbv zeta.
  destruct (review_entries
    {| rso_organization := test_org;
       rso_reviewCount := Number_of_Z 150;
       rso_ratingValue := Number_of_Q (48 # 10);
       rso_bestRating := None;
       rso_worstRating := None;
       rso_reviews := [ {| ri_author := "John Doe";
                           ri_reviewBody := "Excellent service!";
                           ri_reviewRating := Number_of_Z 5;
                           ri_datePublished := "2024-01-15" |} ] |})
    as (_ & entries & Hget & Hnth).
  destruct (Hnth 0%nat _ eq_refl) as (entry & He & _ & _ & Hb & _).
  exists entries, entry. split; [exact Hget|]. split; [exact He|exact Hb].
Defined.

(** The Product record always carries name and description; [url] and
    [sku] are copied when non-empty; a non-empty brand is nested as a
    "Brand"; an image is copied when it is a non-empty string or any
    list of strings, the empty list included. *)
Theorem product_fields (options : ProductSchemaOptions) :
  let schema := createProductSchema options in
  get_prop "name" schema = Some (VStr (pso_name options)) /\
  get_prop "description" schema = Some (VStr (pso_description options)) /\
  get_prop "url" schema = copied (pso_url options) /\
  get_prop "sku" schema = copied (pso_sku options) /\
  get_prop "brand" schema =
    match pso_brand options with
    | Some (c :: brand) =>
        Some (VObj [ "@type" =: VStr "Brand"; "name" =: VStr (c :: brand) ])
    | _ => None
    end /\
  get_prop "image" schema =
    match pso_image options with
    | Some (OneImage (c :: url)) => Some (VStr (c :: url))
    | Some (ManyImages urls) => Some (VArr (map VStr urls))
    | _ => None
    end.
Proof.
  unfold createProductSchema.
  repeat split; try (guarded_field; fail);
    try (cbv zeta; rewrite get_run_preserved by frame; reflexivity).
  - guarded_field. destruct (pso_brand options) as [[|c s]|]; reflexivity.
  - guarded_field. destruct (pso_image options) as [[[|c s]|l]|]; reflexivity.
Qed.

(** The Article record always nests the author as a "Person" and the
    publisher as an "Organization"; the publisher always has a [logo]
    property, an "ImageObject" for a non-empty [publisherLogo] and
    [undefined] otherwise; [mainEntityOfPage] is a "WebPage" identified by
    the url when the url is non-empty and absent otherwise; the other
    optional strings are copied when non-empty. *)
Theorem article_fields (options : ArticleSchemaOptions) :
  let schema := createArticleSchema options in
  get_prop "headline" schema = Some (VStr (aso_headline options)) /\
  get_prop "datePublished" schema = Some (VStr (aso_datePublished options)) /\
  get_prop "author" schema
  = Some (VObj [ "@type" =: VStr "Person"; "name" =: VStr (aso_author options) ]) /\
  field "@type" (get_prop "publisher" schema) = Some (VStr "Organization") /\
  field "name" (get_prop "publisher" schema) = Some (VStr (aso_publisher options)) /\
  field "logo" (get_prop "publisher" schema) =
    Some match aso_publisherLogo options with
         | Some (c :: logo) =>
             VObj [ "@type" =: VStr "ImageObject"; "url" =: VStr (c :: logo) ]
         | _ => VUndefined
         end /\
  get_prop "description" schema = copied (aso_description options) /\
  get_prop "image" schema = copied (aso_image options) /\
  get_prop "dateModified" schema = copied (aso_dateModified options) /\
  get_prop "mainEntityOfPage" schema =
    match aso_url options with
    | Some (c :: url) =>
        Some (VObj [ "@type" =: VStr "WebPage"; "@id" =: VStr (c :: url) ])
    | _ => None
    end.
Proof.
  unfold createArticleSchema.
  repeat split; try (guarded_field; fail);
    try (cbv zeta; rewrite get_run_preserved by frame; reflexivity).
  - cbv zeta. rewrite get_run_preserved by frame.
    destruct (aso_publisherLogo options) as [[|c s]|]; reflexivity.
  - guarded_field. destruct (aso_url options) as [[|c s]|]; reflexivity.
Qed.

(** The Event record always carries name and start date; a location is
    nested as a "Place" that always has an [address] property, a
    "PostalAddress" for a non-empty address and [undefined] otherwise;
    status and attendance mode, when given, are rendered as
    "https://schema.org/" followed by the enum value; the other optional
    strings are copied when non-empty. *)
Theorem event_fields (options : EventSchemaOptions) :
  let schema := createEventSchema options in
  get_prop "name" schema = Some (VStr (eso_name options)) /\
  get_prop "startDate" schema = Some (VStr (eso_startDate options)) /\
  get_prop "description" schema = copied (eso_description options) /\
  get_prop "endDate" schema = copied (eso_endDate options) /\
  get_prop "url" schema = copied (eso_url options) /\
  get_prop "image" schema = copied (eso_image options) /\
  get_prop "location" schema =
    match eso_location options with
    | Some location =>
        Some (VObj [
          "@type" =: VStr "Place";
          "name" =: VStr (loc_name location);
          "address" =:
            match loc_address location with
            | Some (c :: address) =>
                VObj [ "@type" =: VStr "PostalAddress";
                       "streetAddress" =: VStr (c :: address) ]
            | _ => VUndefined
            end ])
    | None => None
    end /\
  get_prop "eventStatus" schema =
    match eso_eventStatus options with
    | Some status => Some (VStr ("https://schema.org/" ++ EventStatus_name status))
    | None => None
    end /\
  get_prop "eventAttendanceMode" schema =
    match eso_eventAttendanceMode options with
    | Some mode => Some (VStr ("https://schema.org/" ++ EventAttendanceMode_name mode))
    | None => None
    end.
Proof.
  unfold createEventSchema.
  repeat split; try (guarded_field; fail);
    try (cbv zeta; rewrite get_run_preserved by frame; reflexivity).
  - cbv zeta. repeat (rewrite get_run_seq_preserved by frame).
    rewrite get_run_seq.
    destruct (eso_location options) as [location|].
    + unfold assign. rewrite get_set_same.
      destruct (loc_address location) as [[|c s]|]; reflexivity.
    + unfold skip. rewrite get_run_preserved by frame. reflexivity.
  - guarded_field. destruct (eso_eventStatus options) as [[]|]; reflexivity.
  - guarded_field. destruct (eso_eventAttendanceMode options) as [[]|]; reflexivity.
Qed.

(** Without an opening-hours specification the Organization record has
    neither [openingHours] nor [openingHoursSpecification], and with one
    it never has both. *)
Theorem organization_hours_exclusive (options : OrganizationSchemaOptions) :
  let schema := createOrganizationSchema options in
  (oso_openingHoursSpecification options = None ->
   get_prop "openingHours" schema = None /\
   get_prop "openingHoursSpecification" schema = None) /\
  (get_prop "openingHours" schema = None \/
   get_prop "openingHoursSpecification" schema = None).
Proof.
  cbv zeta.
  rewrite organization_openingHours, organization_openingHoursSpecification.
  unfold organization_hours. split.
  - intros ->. split; reflexivity.
  - destruct (oso_openingHoursSpecification options) as [h|]; [|left; reflexivity].
    destruct (ToBoolean (val_bool (open24Hours h))); [right; reflexivity|].
    left. destruct (dayOfWeek h); [|reflexivity].
    destruct (ToBoolean (val_str (opens h)) && ToBoolean (val_str (closes h)));
      reflexivity.
Qed.

Lemma organization_hours_exclusive_witness :
  let schema := createOrganizationSchema
    {| oso_organization := test_org; oso_areaServed := None;
       oso_openingHoursSpecification := None; oso_type := None |} in
  get_prop "openingHours" schema = None /\
  get_prop "openingHoursSpecification" schema = None.
Proof.
  cbv zeta.
  apply (organization_hours_exclusive
    {| oso_organization := test_org; oso_areaServed := None;
       oso_openingHoursSpecification := None; oso_type := None |}).
  reflexivity.
Defined.

(* ====================================================================== *)
(** * Reading decimal digits *)
(* ====================================================================== *)

Lemma decimal_value_from_app (a : Z) (x y : jsstring) :
  decimal_value_from a (x ++ y) = decimal_value_from (decimal_value_from a x) y.
Proof.
  revert a. induction x as [|c x IH]; intros a; simpl; [reflexivity|apply IH].
Qed.

Lemma digit_val_digit_char (d : Z) : 0 <= d -> digit_val (digit_char d) = d.
Proof. intros H. unfold digit_val, digit_char. lia. Qed.

Lemma decimal_length_pos (s : Z) : 0 <= s -> (0 < List.length (decimal s))%nat.
Proof.
  intros H. destruct (decimal_digits s H) as [Hne _].
  destruct (decimal s); [congruence|simpl; lia].
Qed.

Lemma decimal_value_from_decimal (s : Z) :
  0 <= s ->
  forall a, decimal_value_from a (decimal s)
            = a * 10 ^ Z.of_nat (List.length (decimal s)) + s.
Proof.
  intros Hs. pattern s. apply Zlt_0_ind; [|exact Hs]. clear s Hs.
  intros s IH Hs a. destruct (Z_lt_le_dec s 10) as [Hlt|Hge].
  - rewrite decimal_small by trivial. cbn [decimal_value_from List.length].
    rewrite digit_val_digit_char by trivial.
    change (10 ^ Z.of_nat 1) with 10. lia.
  - rewrite decimal_step by trivial.
    assert (Hq : 0 <= s / 10 < s) by (split; [apply Z.div_pos|apply Z.div_lt]; lia).
    rewrite decimal_value_from_app, IH by trivial. cbn [decimal_value_from].
    rewrite digit_val_digit_char by (apply Z.mod_pos_bound; lia).
    rewrite length_app. cbn [List.length].
    rewrite Nat2Z.inj_add, Z.pow_add_r by lia.
    change (10 ^ Z.of_nat 1) with 10.
    pose proof (Z.div_mod s 10 ltac:(lia)). lia.
Qed.

Lemma decimal_value_decimal (s : Z) : 0 <= s -> decimal_value (decimal s) = s.
Proof.
  intros H. unfold decimal_value. rewrite decimal_value_from_decimal by trivial. lia.
Qed.

Lemma decimal_value_from_zeros (a : Z) (j : nat) :
  decimal_value_from a (zeros j) = a * 10 ^ Z.of_nat j.
Proof.
  revert a. induction j as [|j IH]; intros a.
  - simpl. lia.
  - unfold zeros in *. cbn [repeat decimal_value_from]. rewrite IH.
    rewrite Nat2Z.inj_succ, Z.pow_succ_r by lia.
    change (digit_val 48) with 0. lia.
Qed.

(** The digits of a positive integer start with a digit other than zero. *)
Lemma decimal_head (s : Z) :
  1 <= s ->
  exists d tl, decimal s = d :: tl /\ is_digit d = true /\ d <> 48%N.
Proof.
  intros Hs. assert (H0 : 0 <= s) by lia. revert Hs.
  pattern s. apply Zlt_0_ind; [|exact H0]. clear s H0.
  intros s IH _ Hs. destruct (Z_lt_le_dec s 10) as [Hlt|Hge].
  - rewrite decimal_small by trivial. exists (digit_char s), [].
    split; [reflexivity|]. split; [apply is_digit_digit_char; lia|].
    unfold digit_char. lia.
  - rewrite decimal_step by trivial.
    assert (Hq : 0 <= s / 10 < s) by (split; [apply Z.div_pos|apply Z.div_lt]; lia).
    assert (Hq1 : 1 <= s / 10) by (apply Z.div_le_lower_bound; lia).
    destruct (IH _ Hq Hq1) as (d & tl & -> & Hd & Hnz).
    exists d, (tl ++ [digit_char (s mod 10)]). auto.
Qed.

Lemma span_digits_app (ds rest : jsstring) :
  forallb is_digit ds = true ->
  match rest with [] => true | c :: _ => negb (is_digit c) end = true ->
  span_digits (ds ++ rest) = (ds, rest).
Proof.
  intros Hd Hr. induction ds as [|c ds IH]; simpl in *.
  - destruct rest as [|c r]; [reflexivity|].
    simpl. apply negb_true_iff in Hr. now rewrite Hr.
  - apply andb_prop in Hd as [Hc Hd]. rewrite Hc, IH by trivial. reflexivity.
Qed.

Lemma forallb_is_digit_zeros (j : nat) : forallb is_digit (zeros j) = true.
Proof. induction j; simpl; auto. Qed.

Lemma number_end_not_digit (rest : jsstring) :
  number_end rest = true ->
  match rest with [] => true | c :: _ => negb (is_digit c) end = true.
Proof.
  destruct rest as [|c r]; [reflexivity|]. simpl.
  destruct (is_digit c); [discriminate|reflexivity].
Qed.

Lemma parse_fraction_end (rest : jsstring) :
  number_end rest = true -> parse_fraction rest = Some ([], rest).
Proof.
  destruct rest as [|c r]; [reflexivity|]. simpl.
  destruct (is_digit c); [discriminate|]. simpl.
  destruct (c =? 46)%N; [discriminate|reflexivity].
Qed.

Lemma parse_exponent_end (rest : jsstring) :
  number_end rest = true -> parse_exponent rest = Some (0, rest).
Proof.
  destruct rest as [|c r]; [reflexivity|]. simpl.
  destruct (is_digit c); [discriminate|]. simpl.
  destruct (c =? 46)%N; [discriminate|]. simpl.
  destruct ((c =? 101)%N || (c =? 69)%N); [discriminate|reflexivity].
Qed.

(* ====================================================================== *)
(** * Reading back the text of a number *)
(* ====================================================================== *)

Lemma Number_of_Q_comp (p q : Q) : (p == q)%Q -> Number_of_Q p = Number_of_Q q.
Proof.
  intros H. unfold Number_of_Q. now rewrite (Qred_complete _ _ H).
Qed.

Lemma Qpow10_add (a b : Z) : (Qpow10 (a + b) == Qpow10 a * Qpow10 b)%Q.
Proof. unfold Qpow10. apply Qpower_plus. discriminate. Qed.

Lemma Qpow10_nonneg (j : Z) : 0 <= j -> (inject_Z (10 ^ j) == Qpow10 j)%Q.
Proof. intros H. unfold Qpow10. now apply Zpower_Qpower. Qed.

Lemma Qpow10_0 : (Qpow10 0 == 1)%Q.
Proof. reflexivity. Qed.

Lemma is_digit_not_minus (c : N) : is_digit c = true -> (c =? 45)%N = false.
Proof.
  unfold is_digit. intros H. apply andb_prop in H as [H1 H2].
  apply N.leb_le in H1, H2. apply N.eqb_neq. lia.
Qed.

(** A number text made of an integer part and a tail that holds the
    fraction and the exponent. *)
Lemma parse_number_parts (neg : bool) (ip tail fp s3 s4 : jsstring) (ex : Z) :
  forallb is_digit ip = true ->
  valid_integer_part ip = true ->
  match tail with [] => true | c :: _ => negb (is_digit c) end = true ->
  parse_fraction tail = Some (fp, s3) ->
  parse_exponent s3 = Some (ex, s4) ->
  parse_number (minus_text neg ++ ip ++ tail)
  = Some (signed neg (Number_of_Q (inject_Z (decimal_value (ip ++ fp))
                                     * Qpow10 (ex - Z.of_nat (List.length fp)))),
          s4).
Proof.
  intros Hd Hv Ht Hf He. unfold parse_number.
  assert (Hm : parse_minus (minus_text neg ++ ip ++ tail) = (neg, ip ++ tail)).
  { destruct neg; [reflexivity|]. simpl.
    destruct ip as [|c ip]; [discriminate|]. simpl in *.
    apply andb_prop in Hd as [Hc _]. now rewrite (is_digit_not_minus c Hc). }
  rewrite Hm, span_digits_app, Hv, Hf, He by trivial.
  destruct neg; reflexivity.
Qed.

Lemma parse_exponent_text (z : Z) (rest : jsstring) :
  number_end rest = true ->
  parse_exponent ("e" ++ (if z <? 0 then "-" else "+") ++ decimal (Z.abs z) ++ rest)
  = Some (z, rest).
Proof.
  intros Hr.
  destruct (decimal_digits (Z.abs z) (Z.abs_nonneg z)) as [Hne Hd].
  assert (Hs : span_digits (decimal (Z.abs z) ++ rest) = (decimal (Z.abs z), rest))
    by (apply span_digits_app; [exact Hd|now apply number_end_not_digit]).
  assert (Hv : decimal_value (decimal (Z.abs z)) = Z.abs z)
    by (apply decimal_value_decimal, Z.abs_nonneg).
  change ("e" ++ (if z <? 0 then "-" else "+") ++ decimal (Z.abs z) ++ rest)
    with (101%N :: (if z <? 0 then "-" else "+") ++ decimal (Z.abs z) ++ rest).
  cbn [parse_exponent N.eqb Pos.eqb orb].
  destruct (z <? 0) eqn:Ez.
  - change (parse_sign ("-" ++ decimal (Z.abs z) ++ rest))
      with (true, decimal (Z.abs z) ++ rest).
    cbv iota beta. rewrite Hs, Hv.
    destruct (decimal (Z.abs z)); [congruence|].
    apply Z.ltb_lt in Ez. f_equal. f_equal. lia.
  - change (parse_sign ("+" ++ decimal (Z.abs z) ++ rest))
      with (false, decimal (Z.abs z) ++ rest).
    cbv iota beta. rewrite Hs, Hv.
    destruct (decimal (Z.abs z)); [congruence|].
    apply Z.ltb_ge in Ez. f_equal. f_equal. lia.
Qed.

Lemma decimal_shift (s j c : Z) :
  0 <= j ->
  (inject_Z (s * 10 ^ j) * Qpow10 (c - j) == inject_Z s * Qpow10 c)%Q.
Proof.
  intros Hj. rewrite inject_Z_mult, Qpow10_nonneg by trivial.
  rewrite <- Qmult_assoc, <- Qpow10_add.
  replace (j + (c - j)) with c by lia. reflexivity.
Qed.

Lemma valid_integer_part_head (d : N) (tl : jsstring) :
  d <> 48%N -> valid_integer_part (d :: tl) = true.
Proof.
  intros H. destruct tl; [reflexivity|]. simpl.
  apply negb_true_iff, N.eqb_neq, H.
Qed.

Lemma forallb_firstn {A : Type} (f : A -> bool) (n : nat) (l : list A) :
  forallb f l = true -> forallb f (firstn n l) = true.
Proof.
  intros H. rewrite <- (firstn_skipn n l), forallb_app in H.
  now apply andb_prop in H as [H _].
Qed.

Lemma forallb_skipn {A : Type} (f : A -> bool) (n : nat) (l : list A) :
  forallb f l = true -> forallb f (skipn n l) = true.
Proof.
  intros H. rewrite <- (firstn_skipn n l), forallb_app in H.
  now apply andb_prop in H as [_ H].
Qed.

Lemma number_result (neg : bool) (p q : Q) (rest : jsstring) :
  (p == q)%Q ->
  Some (signed neg (Number_of_Q p), rest) = Some (signed neg (Number_of_Q q), rest).
Proof. intros H. now rewrite (Number_of_Q_comp p q H). Qed.

Lemma number_result_eq (neg : bool) (m m' e e' : Z) (rest : jsstring) :
  m = m' -> e = e' ->
  Some (signed neg (Number_of_Q (inject_Z m * Qpow10 e)), rest)
  = Some (signed neg (Number_of_Q (inject_Z m' * Qpow10 e')), rest).
Proof. now intros -> ->. Qed.

(** Every layout of the digits [s] with the decimal point at [n] reads
    back as the Number nearest to [s * 10^(n-k)], [k] being the number of
    digits of [s]. *)
Lemma parse_number_layout (neg : bool) (s n : Z) (rest : jsstring) :
  1 <= s -> number_end rest = true ->
  parse_number (minus_text neg ++ layout s n ++ rest)
  = Some (signed neg
            (Number_of_Q (inject_Z s
                          * Qpow10 (n - Z.of_nat (List.length (decimal s))))),
          rest).
Proof.
  intros Hs Hr.
  destruct (decimal_head s Hs) as (d & tl & Hds & Hd & Hnz).
  destruct (decimal_digits s ltac:(lia)) as [_ Hall].
  pose proof (decimal_value_from_decimal s ltac:(lia)) as Hval.
  pose proof (number_end_not_digit rest Hr) as Hr'.
  unfold layout. cbv zeta.
  set (ds := decimal s) in *. set (k := Z.of_nat (List.length ds)) in *.
  destruct ((k <=? n) && (n <=? 21)) eqn:Ea.
  { (* digits followed by zeros *)
    apply andb_prop in Ea as [Ekn _]. apply Z.leb_le in Ekn.
    rewrite <- app_assoc.
    rewrite (app_assoc ds). 
    erewrite parse_number_parts;
      [ | | | exact Hr' | apply parse_fraction_end, Hr | apply parse_exponent_end, Hr ].
    - apply number_result.
      rewrite app_nil_r. unfold decimal_value.
      rewrite decimal_value_from_app, Hval, decimal_value_from_zeros.
      rewrite Z2Nat.id by lia. cbn [List.length].
      replace (0 - Z.of_nat 0) with ((n - k) - (n - k)) by lia.
      rewrite Z.mul_0_l, Z.add_0_l. apply decimal_shift. lia.
    - rewrite forallb_app, Hall. apply forallb_is_digit_zeros.
    - rewrite Hds. apply valid_integer_part_head, Hnz. }
  destruct ((0 <? n) && (n <=? 21)) eqn:Eb.
  { (* a point inside the digits *)
    apply andb_prop in Eb as [En En21]. apply Z.ltb_lt in En. apply Z.leb_le in En21.
    apply andb_false_iff in Ea as [Ea|Ea]; apply Z.leb_gt in Ea; [|lia].
    assert (Hlen : (Z.to_nat n < List.length ds)%nat) by (subst k; lia).
    rewrite <- !app_assoc.
    assert (Hfr : parse_fraction ("." ++ skipn (Z.to_nat n) ds ++ rest)
                  = Some (skipn (Z.to_nat n) ds, rest)).
    { change ("." ++ skipn (Z.to_nat n) ds ++ rest)
        with (46%N :: skipn (Z.to_nat n) ds ++ rest).
      cbn [parse_fraction N.eqb Pos.eqb].
      rewrite span_digits_app by (trivial; now apply forallb_skipn).
      destruct (skipn (Z.to_nat n) ds) eqn:Esk; [|reflexivity].
      apply (f_equal (@List.length N)) in Esk. rewrite length_skipn in Esk.
      simpl in Esk. lia. }
    erewrite parse_number_parts;
      [ | | | | exact Hfr | apply parse_exponent_end, Hr ].
    - apply number_result_eq.
      + rewrite firstn_skipn. unfold decimal_value. rewrite Hval. lia.
      + rewrite length_skipn. subst k. lia.
    - now apply forallb_firstn.
    - rewrite Hds. destruct (Z.to_nat n) eqn:En'; [lia|].
      cbn [firstn]. apply valid_integer_part_head, Hnz.
    - reflexivity. }
  destruct ((-6 <? n) && (n <=? 0)) eqn:Ec.
  { (* zero, a point, zeros and the digits *)
    apply andb_prop in Ec as [_ En]. apply Z.leb_le in En.
    change ("0." ++ zeros (Z.to_nat (- n)) ++ ds)
      with ("0" ++ "." ++ zeros (Z.to_nat (- n)) ++ ds).
    rewrite <- !app_assoc.
    assert (Hfr : parse_fraction ("." ++ zeros (Z.to_nat (- n)) ++ ds ++ rest)
                  = Some (zeros (Z.to_nat (- n)) ++ ds, rest)).
    { change ("." ++ zeros (Z.to_nat (- n)) ++ ds ++ rest)
        with (46%N :: zeros (Z.to_nat (- n)) ++ ds ++ rest).
      cbn [parse_fraction N.eqb Pos.eqb].
      rewrite app_assoc, span_digits_app;
        [ | rewrite forallb_app, forallb_is_digit_zeros; exact Hall | exact Hr' ].
      destruct (zeros (Z.to_nat (- n)) ++ ds) eqn:Ez; [|reflexivity].
      apply app_eq_nil in Ez as [_ Ez]. rewrite Hds in Ez. discriminate. }
    erewrite parse_number_parts;
      [ | | | | exact Hfr | apply parse_exponent_end, Hr ].
    - apply number_result_eq.
      + unfold decimal_value.
        change ("0" ++ zeros (Z.to_nat (- n)) ++ ds)
          with (48%N :: zeros (Z.to_nat (- n)) ++ ds).
        cbn [decimal_value_from]. change (10 * 0 + digit_val 48) with 0.
        rewrite decimal_value_from_app, decimal_value_from_zeros, Hval. lia.
      + rewrite length_app. unfold zeros at 1. rewrite repeat_length.
        subst k. lia.
    - reflexivity.
    - reflexivity.
    - reflexivity. }
  (* exponent form *)
  rewrite Hds in *.
  destruct tl as [|d2 tl].
  - cbn [app]. rewrite <- !app_assoc.
    match goal with
    | |- parse_number (_ ++ d :: ?x) = _ =>
        change (parse_number (minus_text neg ++ [d] ++ x)
                = Some (signed neg (Number_of_Q (inject_Z s * Qpow10 (n - k))), rest))
    end.
    erewrite parse_number_parts;
      [ | | | | reflexivity | now apply parse_exponent_text ].
    + apply number_result_eq.
      * rewrite app_nil_r. unfold decimal_value. rewrite Hval. lia.
      * subst k. rewrite Hds. cbn [List.length]. lia.
    + simpl. now rewrite Hd.
    + reflexivity.
    + reflexivity.
  - cbn [app]. rewrite <- !app_assoc.
    assert (Hall' : forallb is_digit (d2 :: tl) = true).
    { simpl in Hall. now apply andb_prop in Hall as [_ Hall]. }
    cbn [app]. rewrite <- ?app_assoc.
    change (str ".") with [46%N]. cbn [app].
    match goal with
    | |- parse_number (_ ++ d :: 46%N :: d2 :: tl ++ ?x) = _ =>
        change (parse_number (minus_text neg ++ [d] ++ 46%N :: (d2 :: tl) ++ x)
                = Some (signed neg (Number_of_Q (inject_Z s * Qpow10 (n - k))), rest));
        assert (Hfr : parse_fraction (46%N :: (d2 :: tl) ++ x) = Some (d2 :: tl, x))
    end.
    { cbn [parse_fraction N.eqb Pos.eqb].
      rewrite span_digits_app by (trivial; reflexivity). reflexivity. }
    erewrite parse_number_parts;
      [ | | | | exact Hfr | now apply parse_exponent_text ].
    + apply number_result_eq.
      * change ([d] ++ d2 :: tl) with (d :: d2 :: tl).
        unfold decimal_value. rewrite Hval. lia.
      * subst k. rewrite Hds. cbn [List.length]. lia.
    + simpl. now rewrite Hd.
    + reflexivity.
    + reflexivity.
Qed.

(* ====================================================================== *)
(** * Powers as fractions *)
(* ====================================================================== *)

Lemma pow_max_pos (b z : Z) : 0 < b -> 0 < b ^ Z.max 0 z.
Proof. intros H. apply Z.pow_pos_nonneg; lia. Qed.

(** [b^z] as the fraction [b^max(0,z) / b^max(0,-z)]. *)
Lemma Qpower_fraction (b z : Z) :
  0 < b ->
  (inject_Z b ^ z == (b ^ Z.max 0 z) # Z.to_pos (b ^ Z.max 0 (- z)))%Q.
Proof.
  intros Hb. destruct (Z_le_gt_dec 0 z) as [Hz|Hz].
  - rewrite (Z.max_r 0 z), (Z.max_l 0 (- z)) by lia.
    rewrite <- Zpower_Qpower by trivial. reflexivity.
  - rewrite (Z.max_l 0 z), (Z.max_r 0 (- z)) by lia.
    replace z with (- - z) at 1 by lia.
    rewrite Qpower_opp, <- Zpower_Qpower by lia.
    pose proof (pow_max_pos b (- z) Hb) as Hp. rewrite Z.max_r in Hp by lia.
    destruct (b ^ (- z)) as [|p|p] eqn:E; try lia.
    reflexivity.
Qed.

Lemma ratio_ge_power (b a z : Z) (d : positive) :
  0 < b ->
  (Zpos d * b ^ Z.max 0 z <= a * b ^ Z.max 0 (- z) <-> (inject_Z b ^ z <= a # d)%Q).
Proof.
  intros Hb. rewrite (Qpower_fraction b z Hb). unfold Qle. cbn [Qnum Qden].
  rewrite Z2Pos.id by now apply pow_max_pos. lia.
Qed.

Lemma ratio_lt_power (b a z : Z) (d : positive) :
  0 < b ->
  (a * b ^ Z.max 0 (- z) < Zpos d * b ^ Z.max 0 z <-> (a # d < inject_Z b ^ z)%Q).
Proof.
  intros Hb. rewrite (Qpower_fraction b z Hb). unfold Qlt. cbn [Qnum Qden].
  rewrite Z2Pos.id by now apply pow_max_pos. lia.
Qed.

(** The exponent of a power enclosing a rational is unique. *)
Lemma power_interval_unique (b : Z) (v : Q) (r r' : Z) :
  1 < b ->
  (inject_Z b ^ r <= v)%Q -> (v < inject_Z b ^ (r + 1))%Q ->
  (inject_Z b ^ r' <= v)%Q -> (v < inject_Z b ^ (r' + 1))%Q ->
  r = r'.
Proof.
  intros Hb H1 H2 H3 H4.
  assert (Hq : (1 < inject_Z b)%Q) by (unfold Qlt; simpl; lia).
  pose proof (Qpower_lt_compat_l_inv _ _ _ (Qle_lt_trans _ _ _ H1 H4) Hq).
  pose proof (Qpower_lt_compat_l_inv _ _ _ (Qle_lt_trans _ _ _ H3 H2) Hq).
  lia.
Qed.

Lemma Qpower_succ (b z : Z) :
  0 < b -> (inject_Z b ^ (z + 1) == inject_Z b ^ z * inject_Z b)%Q.
Proof.
  intros Hb. rewrite Qpower_plus; [reflexivity|].
  intros H. unfold Qeq in H. simpl in H. lia.
Qed.

(* ====================================================================== *)
(** * Rounding to binary64 *)
(* ====================================================================== *)

Lemma floor_log2_ratio_spec (a : Z) (d : positive) :
  0 < a ->
  let r := floor_log2_ratio a (Zpos d) in
  (inject_Z 2 ^ r <= a # d)%Q /\ (a # d < inject_Z 2 ^ (r + 1))%Q.
Proof.
  intros Ha. unfold floor_log2_ratio. cbv zeta.
  set (k := Z.log2 a - Z.log2 (Zpos d)).
  destruct (Z.log2_spec a Ha) as [Ha1 Ha2].
  destruct (Z.log2_spec (Zpos d) ltac:(lia)) as [Hd1 Hd2].
  pose proof (Z.log2_nonneg a) as Hla. pose proof (Z.log2_nonneg (Zpos d)) as Hld.
  assert (Hup : (a # d < inject_Z 2 ^ (k + 1))%Q).
  { apply ratio_lt_power; [lia|]. subst k.
    destruct (Z_le_gt_dec 0 (Z.log2 a - Z.log2 (Zpos d) + 1)) as [H|H].
    - rewrite (Z.max_r 0 (_ + 1)), (Z.max_l 0 (- _)) by lia.
      rewrite Z.pow_0_r, Z.mul_1_r.
      apply Z.lt_le_trans with (2 ^ Z.succ (Z.log2 a)); [exact Ha2|].
      replace (Z.succ (Z.log2 a))
        with (Z.log2 (Zpos d) + (Z.log2 a - Z.log2 (Zpos d) + 1)) by lia.
      rewrite Z.pow_add_r by lia.
      apply Z.mul_le_mono_nonneg_r; [apply Z.pow_nonneg; lia|exact Hd1].
    - rewrite (Z.max_l 0 (_ + 1)), (Z.max_r 0 (- _)) by lia.
      rewrite Z.pow_0_r, Z.mul_1_r.
      apply Z.lt_le_trans
        with (2 ^ Z.succ (Z.log2 a) * 2 ^ (- (Z.log2 a - Z.log2 (Zpos d) + 1))).
      + apply Z.mul_lt_mono_pos_r; [apply Z.pow_pos_nonneg; lia|exact Ha2].
      + rewrite <- Z.pow_add_r by lia.
        replace (Z.succ (Z.log2 a) + - (Z.log2 a - Z.log2 (Zpos d) + 1))
          with (Z.log2 (Zpos d)) by lia.
        exact Hd1. }
  assert (Hlow : (inject_Z 2 ^ (k - 1) <= a # d)%Q).
  { apply ratio_ge_power; [lia|]. subst k.
    destruct (Z_le_gt_dec 0 (Z.log2 a - Z.log2 (Zpos d) - 1)) as [H|H].
    - rewrite (Z.max_r 0 (_ - 1)), (Z.max_l 0 (- _)) by lia.
      rewrite Z.pow_0_r, Z.mul_1_r.
      apply Z.le_trans with (2 ^ Z.log2 a); [|exact Ha1].
      replace (Z.log2 a)
        with (Z.succ (Z.log2 (Zpos d)) + (Z.log2 a - Z.log2 (Zpos d) - 1)) at 2 by lia.
      rewrite Z.pow_add_r by lia.
      apply Z.mul_le_mono_nonneg_r; [apply Z.pow_nonneg; lia|lia].
    - rewrite (Z.max_l 0 (_ - 1)), (Z.max_r 0 (- _)) by lia.
      rewrite Z.pow_0_r, Z.mul_1_r.
      apply Z.le_trans
        with (2 ^ Z.log2 a * 2 ^ (- (Z.log2 a - Z.log2 (Zpos d) - 1))).
      + rewrite <- Z.pow_add_r by lia.
        replace (Z.log2 a + - (Z.log2 a - Z.log2 (Zpos d) - 1))
          with (Z.succ (Z.log2 (Zpos d))) by lia.
        lia.
      + apply Z.mul_le_mono_nonneg_r; [apply Z.pow_nonneg; lia|exact Ha1]. }
  destruct (Zpos d * 2 ^ Z.max 0 k <=? a * 2 ^ Z.max 0 (- k)) eqn:E.
  - apply Z.leb_le in E. split; [|exact Hup].
    apply ratio_ge_power; [lia|exact E].
  - apply Z.leb_gt in E. split; [exact Hlow|].
    replace (k - 1 + 1) with k by lia.
    apply ratio_lt_power; [lia|exact E].
Qed.

Lemma digits2_pos_size (m : positive) : digits2_pos m = Pos.size m.
Proof. induction m; simpl; congruence. Qed.

Lemma digits2_pos_log2 (m : positive) :
  Zpos (digits2_pos m) = Z.log2 (Zpos m) + 1.
Proof.
  rewrite digits2_pos_size. destruct m; simpl; lia.
Qed.

(** What validity says about a finite value: the exponent is the one
    rounding chooses for a mantissa of this size, and it is in range. *)
Lemma valid_number_finite (s : bool) (m : positive) (e : Z) :
  valid_number (S754_finite s m e) = true ->
  Z.max (Z.log2 (Zpos m) - 52 + e) (-1074) = e /\ e <= 971.
Proof.
  unfold valid_number, valid_binary, bounded, canonical_mantissa, fexp, SpecFloat.emin.
  rewrite digits2_pos_log2. unfold prec, emax.
  intros H. apply andb_prop in H as [H1 H2].
  apply Z.eqb_eq in H1. apply Z.leb_le in H2. lia.
Qed.

Lemma magnitude_bounds (s : bool) (m : positive) (e : Z) :
  let v := magnitude (S754_finite s m e) in
  (inject_Z 2 ^ (Z.log2 (Zpos m) + e) <= v)%Q /\
  (v < inject_Z 2 ^ (Z.log2 (Zpos m) + e + 1))%Q.
Proof.
  cbv zeta. unfold magnitude.
  destruct (Z.log2_spec (Zpos m) ltac:(lia)) as [H1 H2].
  pose proof (Z.log2_nonneg (Zpos m)) as Hl.
  assert (Hpos : (0 < inject_Z 2 ^ e)%Q) by (apply Qpower_0_lt; reflexivity).
  assert (Hnz : ~ (inject_Z 2 == 0)%Q) by discriminate.
  split.
  - rewrite Qpower_plus by exact Hnz.
    apply Qmult_le_compat_r; [|now apply Qlt_le_weak].
    rewrite <- Zpower_Qpower by trivial. now rewrite <- Zle_Qle.
  - replace (Z.log2 (Zpos m) + e + 1) with (Z.succ (Z.log2 (Zpos m)) + e) by lia.
    rewrite Qpower_plus by exact Hnz.
    apply Qmult_lt_compat_r; [exact Hpos|].
    rewrite <- Zpower_Qpower by lia. now rewrite <- Zlt_Qlt.
Qed.

(** Rounding a fraction that denotes a valid binary64 value gives that
    value back. *)
Lemma round_ratio_exact (s : bool) (m : positive) (e a : Z) (d : positive) :
  valid_number (S754_finite s m e) = true ->
  0 < a ->
  (a # d == magnitude (S754_finite s m e))%Q ->
  round_ratio s a (Zpos d) = S754_finite s m e.
Proof.
  intros Hv Ha Heq.
  destruct (valid_number_finite s m e Hv) as [Hcan Hmax].
  destruct (floor_log2_ratio_spec a d Ha) as [Hr1 Hr2].
  destruct (magnitude_bounds s m e) as [Hm1 Hm2]. cbv zeta in Hm1, Hm2.
  rewrite <- Heq in Hm1, Hm2.
  assert (Hr : floor_log2_ratio a (Zpos d) = Z.log2 (Zpos m) + e)
    by (eapply (power_interval_unique 2); eauto; lia).
  unfold round_ratio. rewrite Hr. unfold prec, emax. cbv zeta.
  replace (Z.max (Z.log2 (Z.pos m) + e - (53 - 1)) (3 - 1024 - 53)) with e by lia.
  (* the scaled numerator is an exact multiple of the denominator *)
  assert (Hmul : a * 2 ^ Z.max 0 (- e) = Zpos m * (Zpos d * 2 ^ Z.max 0 e)).
  { unfold magnitude in Heq. rewrite (Qpower_fraction 2 e) in Heq by lia.
    unfold Qeq in Heq. cbn [Qnum Qden Qmult inject_Z] in Heq.
    rewrite Pos2Z.inj_mul, Z2Pos.id in Heq by (apply pow_max_pos; lia).
    lia. }
  assert (Hden : 0 < Zpos d * 2 ^ Z.max 0 e)
    by (apply Z.mul_pos_pos; [lia|apply pow_max_pos; lia]).
  rewrite Hmul, Z.div_mul, Z.mod_mul by lia.
  rewrite Z.mul_0_r.
  destruct (0 ?= Zpos d * 2 ^ Z.max 0 e) eqn:Ec;
    [apply Z.compare_eq in Ec; lia| |apply Z.compare_gt_iff in Ec; lia].
  assert (Hm53 : Zpos m < 2 ^ 53).
  { destruct (Z.log2_spec (Zpos m) ltac:(lia)) as [_ H2].
    apply Z.lt_le_trans with (2 ^ Z.succ (Z.log2 (Zpos m))); [exact H2|].
    apply Z.pow_le_mono_r; lia. }
  destruct (Z.pos m =? 2 ^ 53) eqn:E53; [apply Z.eqb_eq in E53; lia|].
  destruct (1024 - 53 <? e) eqn:Ee; [apply Z.ltb_lt in Ee; lia|].
  reflexivity.
Qed.

Lemma magnitude_pos (s : bool) (m : positive) (e : Z) :
  (0 < magnitude (S754_finite s m e))%Q.
Proof.
  unfold magnitude. apply Qmult_lt_0_compat; [reflexivity|].
  apply Qpower_0_lt. reflexivity.
Qed.

Lemma Qred_pos (q : Q) : (0 < q)%Q -> 0 < Qnum (Qred q).
Proof.
  intros H. rewrite <- (Qred_correct q) in H.
  unfold Qlt in H. simpl in H. lia.
Qed.

(** The Number nearest to a positive rational that is the magnitude of
    a valid value is that value, without sign. *)
Lemma Number_of_Q_exact (q : Q) (s : bool) (m : positive) (e : Z) :
  valid_number (S754_finite s m e) = true ->
  (q == magnitude (S754_finite s m e))%Q ->
  Number_of_Q q = S754_finite false m e.
Proof.
  intros Hv Hq. unfold Number_of_Q. cbv zeta.
  assert (Hpos : (0 < q)%Q) by (rewrite Hq; apply magnitude_pos).
  pose proof (Qred_pos q Hpos) as Hn.
  pose proof (Qred_correct q) as Hred.
  destruct (Qred q) as [a d]. cbn [Qnum Qden] in *.
  destruct a as [|a|a]; try lia.
  apply (round_ratio_exact false m e); [exact Hv|lia|].
  rewrite Hred, Hq. reflexivity.
Qed.

(* ====================================================================== *)
(** * The digits [Number::toString] chooses *)
(* ====================================================================== *)

Lemma decimal_times_ten (s : Z) : 1 <= s -> decimal (s * 10) = decimal s ++ "0".
Proof.
  intros H. rewrite decimal_step by lia.
  rewrite Z.div_mul, Z.mod_mul by lia. reflexivity.
Qed.

Lemma decimal_length_scale (s : Z) (j : nat) :
  1 <= s ->
  List.length (decimal (s * 10 ^ Z.of_nat j)) = (List.length (decimal s) + j)%nat.
Proof.
  intros H. induction j as [|j IH].
  - simpl. rewrite Z.mul_1_r. lia.
  - rewrite Nat2Z.inj_succ, Z.pow_succ_r by lia.
    replace (s * (10 * 10 ^ Z.of_nat j)) with (s * 10 ^ Z.of_nat j * 10) by lia.
    rewrite decimal_times_ten.
    + rewrite length_app, IH. simpl. lia.
    + assert (0 < 10 ^ Z.of_nat j) by (apply Z.pow_pos_nonneg; lia). nia.
Qed.

Lemma strip_zeros_spec (fuel : nat) (s n : Z) :
  1 <= s ->
  exists j : nat, s = strip_zeros fuel s n * 10 ^ Z.of_nat j /\ 1 <= strip_zeros fuel s n.
Proof.
  revert s. induction fuel as [|fuel IH]; intros s Hs.
  - exists 0%nat. simpl. lia.
  - cbn [strip_zeros].
    destruct ((s mod 10 =? 0) && (0 <? s)) eqn:E.
    + apply andb_prop in E as [E _]. apply Z.eqb_eq in E.
      pose proof (Z.div_mod s 10 ltac:(lia)) as Hdm.
      destruct (IH (s / 10) ltac:(lia)) as (j & Hj & H1).
      exists (S j). split; [|exact H1].
      rewrite Nat2Z.inj_succ, Z.pow_succ_r by lia. lia.
    + exists 0%nat. simpl. lia.
Qed.

Lemma Qpow10_split (k : Z) :
  0 <= k -> (inject_Z (5 ^ k) * Qpow10 (- k) == inject_Z 2 ^ (- k))%Q.
Proof.
  intros Hk. unfold Qpow10.
  change (inject_Z 10) with (inject_Z 5 * inject_Z 2)%Q.
  rewrite Qmult_power, Qmult_assoc, Zpower_Qpower by trivial.
  rewrite <- Qpower_plus by discriminate.
  replace (k + - k) with 0 by lia. simpl. ring.
Qed.

(** The exact expansion denotes the value itself. *)
Lemma exact_digits_spec (sg : bool) (m : positive) (e : Z) :
  let '(s, n) := exact_digits m e in
  1 <= s /\
  (inject_Z s * Qpow10 (n - Z.of_nat (List.length (decimal s)))
   == magnitude (S754_finite sg m e))%Q.
Proof.
  unfold exact_digits. cbv zeta.
  set (s0 := if 0 <=? e then Zpos m * 2 ^ e else Zpos m * 5 ^ (- e)).
  set (p0 := if 0 <=? e then 0 else e).
  assert (Hs0 : 1 <= s0).
  { subst s0. destruct (0 <=? e) eqn:E.
    - apply Z.leb_le in E. assert (0 < 2 ^ e) by (apply Z.pow_pos_nonneg; lia). nia.
    - apply Z.leb_gt in E. assert (0 < 5 ^ (- e)) by (apply Z.pow_pos_nonneg; lia). nia. }
  destruct (strip_zeros_spec (List.length (decimal s0)) s0 0 Hs0) as (j & Hj & H1).
  set (s := strip_zeros (List.length (decimal s0)) s0 0) in *.
  split; [exact H1|].
  assert (Hlen : Z.of_nat (List.length (decimal s0))
                 = Z.of_nat (List.length (decimal s)) + Z.of_nat j).
  { rewrite Hj at 1. rewrite decimal_length_scale by trivial. lia. }
  rewrite Hlen.
  replace (Z.of_nat (List.length (decimal s)) + Z.of_nat j + p0
           - Z.of_nat (List.length (decimal s))) with (Z.of_nat j + p0) by lia.
  rewrite Qpow10_add, Qmult_assoc.
  rewrite <- Qpow10_nonneg, <- inject_Z_mult, <- Hj by lia.
  unfold magnitude. subst s0 p0.
  destruct (0 <=? e) eqn:E.
  - apply Z.leb_le in E. rewrite inject_Z_mult, Zpower_Qpower by trivial.
    rewrite Qpow10_0. ring.
  - apply Z.leb_gt in E. rewrite inject_Z_mult, <- Qmult_assoc.
    replace e with (- - e) at 2 3 by lia.
    rewrite Qpow10_split by lia. reflexivity.
Qed.

Lemma decimal_length_bounds (s : Z) :
  1 <= s ->
  10 ^ (Z.of_nat (List.length (decimal s)) - 1) <= s
  /\ s < 10 ^ Z.of_nat (List.length (decimal s)).
Proof.
  intros Hs. assert (H0 : 0 <= s) by lia. revert Hs.
  pattern s. apply Zlt_0_ind; [|exact H0]. clear s H0.
  intros s IH _ Hs. destruct (Z_lt_le_dec s 10) as [Hlt|Hge].
  - rewrite decimal_small by trivial. simpl. lia.
  - rewrite decimal_step by trivial.
    assert (Hq : 0 <= s / 10 < s) by (split; [apply Z.div_pos|apply Z.div_lt]; lia).
    assert (Hq1 : 1 <= s / 10) by (apply Z.div_le_lower_bound; lia).
    destruct (IH _ Hq Hq1) as [Hlo Hhi].
    pose proof (decimal_length_pos (s / 10) ltac:(lia)) as Hlen.
    rewrite length_app. cbn [List.length].
    set (L := List.length (decimal (s / 10))) in *.
    replace (Z.of_nat (L + 1)) with (Z.succ (Z.of_nat L)) by lia.
    replace (Z.succ (Z.of_nat L) - 1) with (Z.succ (Z.of_nat L - 1)) by lia.
    rewrite !Z.pow_succ_r by lia.
    pose proof (Z.div_mod s 10 ltac:(lia)).
    pose proof (Z.mod_pos_bound s 10 ltac:(lia)).
    lia.
Qed.

Lemma decimal_length_unique (s k : Z) :
  10 ^ (k - 1) <= s -> s < 10 ^ k -> 1 <= k ->
  Z.of_nat (List.length (decimal s)) = k.
Proof.
  intros Hlo Hhi Hk.
  assert (Hs : 1 <= s).
  { assert (0 < 10 ^ (k - 1)) by (apply Z.pow_pos_nonneg; lia). lia. }
  destruct (decimal_length_bounds s Hs) as [Llo Lhi].
  pose proof (decimal_length_pos s ltac:(lia)) as Hlen.
  set (L := Z.of_nat (List.length (decimal s))) in *.
  destruct (Z.lt_trichotomy L k) as [H|[H|H]]; [|exact H|].
  - assert (10 ^ L <= 10 ^ (k - 1)) by (apply Z.pow_le_mono_r; lia). lia.
  - assert (10 ^ k <= 10 ^ (L - 1)) by (apply Z.pow_le_mono_r; lia). lia.
Qed.

(** A fraction of two integers between consecutive powers lies between
    powers of the difference of the exponents. *)
Lemma ratio_power_bounds (b a la lb : Z) (d : positive) :
  1 < b -> 0 <= la -> 0 <= lb ->
  b ^ la <= a -> a < b ^ (la + 1) ->
  b ^ lb <= Zpos d -> Zpos d < b ^ (lb + 1) ->
  (inject_Z b ^ (la - lb - 1) <= a # d)%Q /\ (a # d < inject_Z b ^ (la - lb + 1))%Q.
Proof.
  intros Hb Hla Hlb Ha1 Ha2 Hd1 Hd2. split.
  - apply ratio_ge_power; [lia|].
    destruct (Z_le_gt_dec 0 (la - lb - 1)) as [H|H].
    + rewrite (Z.max_r 0 (_ - 1)), (Z.max_l 0 (- _)) by lia.
      rewrite Z.pow_0_r, Z.mul_1_r.
      apply Z.le_trans with (b ^ la); [|exact Ha1].
      replace la with ((lb + 1) + (la - lb - 1)) at 2 by lia.
      rewrite Z.pow_add_r by lia.
      apply Z.mul_le_mono_nonneg_r; [apply Z.pow_nonneg; lia|lia].
    + rewrite (Z.max_l 0 (_ - 1)), (Z.max_r 0 (- _)) by lia.
      rewrite Z.pow_0_r, Z.mul_1_r.
      apply Z.le_trans with (b ^ la * b ^ (- (la - lb - 1))).
      * rewrite <- Z.pow_add_r by lia.
        replace (la + - (la - lb - 1)) with (lb + 1) by lia. lia.
      * apply Z.mul_le_mono_nonneg_r; [apply Z.pow_nonneg; lia|exact Ha1].
  - apply ratio_lt_power; [lia|].
    destruct (Z_le_gt_dec 0 (la - lb + 1)) as [H|H].
    + rewrite (Z.max_r 0 (_ + 1)), (Z.max_l 0 (- _)) by lia.
      rewrite Z.pow_0_r, Z.mul_1_r.
      apply Z.lt_le_trans with (b ^ (la + 1)); [exact Ha2|].
      replace (la + 1) with (lb + (la - lb + 1)) by lia.
      rewrite Z.pow_add_r by lia.
      apply Z.mul_le_mono_nonneg_r; [apply Z.pow_nonneg; lia|exact Hd1].
    + rewrite (Z.max_l 0 (_ + 1)), (Z.max_r 0 (- _)) by lia.
      rewrite Z.pow_0_r, Z.mul_1_r.
      apply Z.lt_le_trans with (b ^ (la + 1) * b ^ (- (la - lb + 1))).
      * apply Z.mul_lt_mono_pos_r; [apply Z.pow_pos_nonneg; lia|exact Ha2].
      * rewrite <- Z.pow_add_r by lia.
        replace (la + 1 + - (la - lb + 1)) with lb by lia. exact Hd1.
Qed.

Lemma decimal_exponent_spec (a : Z) (d : positive) :
  1 <= a ->
  let n := decimal_exponent a (Zpos d) in
  (Qpow10 (n - 1) <= a # d)%Q /\ (a # d < Qpow10 n)%Q.
Proof.
  intros Ha. unfold decimal_exponent, Qpow10. cbv zeta.
  destruct (decimal_length_bounds a Ha) as [Ha1 Ha2].
  destruct (decimal_length_bounds (Zpos d) ltac:(lia)) as [Hd1 Hd2].
  pose proof (decimal_length_pos a ltac:(lia)) as Hla.
  pose proof (decimal_length_pos (Zpos d) ltac:(lia)) as Hld.
  set (la := Z.of_nat (List.length (decimal a))) in *.
  set (lb := Z.of_nat (List.length (decimal (Zpos d)))) in *.
  destruct (ratio_power_bounds 10 a (la - 1) (lb - 1) d) as [Hlow Hup]; try lia.
  { now replace (la - 1 + 1) with la by lia. }
  { now replace (lb - 1 + 1) with lb by lia. }
  replace (la - 1 - (lb - 1) - 1) with (la - lb - 1) in Hlow by lia.
  replace (la - 1 - (lb - 1) + 1) with (la - lb + 1) in Hup by lia.
  destruct (Zpos d * 10 ^ Z.max 0 (la - lb) <=? a * 10 ^ Z.max 0 (- (la - lb))) eqn:E.
  - apply Z.leb_le in E. split; [|exact Hup].
    replace (la - lb + 1 - 1) with (la - lb) by lia.
    apply ratio_ge_power; [lia|exact E].
  - apply Z.leb_gt in E. split; [exact Hlow|].
    apply ratio_lt_power; [lia|exact E].
Qed.

(** Both candidates with [k] digits have exactly [k] digits. *)
Lemma candidates_range (a n k : Z) (d : positive) :
  1 <= a -> 1 <= k ->
  (Qpow10 (n - 1) <= a # d)%Q -> (a # d < Qpow10 n)%Q ->
  let '(lo, hi) := candidates a (Zpos d) n k in
  (10 ^ (k - 1) <= fst lo < 10 ^ k) /\ (10 ^ (k - 1) <= fst hi < 10 ^ k).
Proof.
  intros Ha Hk Hlow Hup. unfold candidates. cbv zeta.
  set (num := a * 10 ^ Z.max 0 (k - n)).
  set (den := Zpos d * 10 ^ Z.max 0 (n - k)).
  assert (Hden : 0 < den)
    by (apply Z.mul_pos_pos; [lia|apply pow_max_pos; lia]).
  assert (Hscale : (num # Z.to_pos den == (a # d) * Qpow10 (k - n))%Q).
  { unfold Qpow10. rewrite (Qpower_fraction 10 (k - n)) by lia.
    replace (- (k - n)) with (n - k) by lia.
    assert (Hp10 : 0 < 10 ^ Z.max 0 (n - k)) by (apply pow_max_pos; lia).
    unfold Qeq, Qmult. cbn [Qnum Qden].
    rewrite Pos2Z.inj_mul, !Z2Pos.id by assumption.
    subst num den. lia. }
  assert (Hp : (0 < Qpow10 (k - n))%Q) by (apply Qpower_0_lt; reflexivity).
  assert (H1 : 10 ^ (k - 1) * den <= num).
  { assert (H : (inject_Z (10 ^ (k - 1)) <= num # Z.to_pos den)%Q).
    { rewrite Hscale, Qpow10_nonneg by lia.
      replace (k - 1) with ((n - 1) + (k - n)) by lia.
      rewrite Qpow10_add. apply Qmult_le_compat_r; [exact Hlow|].
      now apply Qlt_le_weak. }
    unfold Qle in H. cbn [Qnum Qden inject_Z] in H.
    rewrite Z2Pos.id in H by trivial. lia. }
  assert (H2 : num < den * 10 ^ k).
  { assert (H : (num # Z.to_pos den < inject_Z (10 ^ k))%Q).
    { rewrite Hscale, Qpow10_nonneg by lia.
      replace k with (n + (k - n)) at 2 by lia.
      rewrite Qpow10_add. apply Qmult_lt_compat_r; [exact Hp|exact Hup]. }
    unfold Qlt in H. cbn [Qnum Qden inject_Z] in H.
    rewrite Z2Pos.id in H by trivial. lia. }
  assert (Hlo : 10 ^ (k - 1) <= num / den < 10 ^ k).
  { split.
    - apply Z.div_le_lower_bound; [exact Hden|lia].
    - apply Z.div_lt_upper_bound; [exact Hden|exact H2]. }
  split; [exact Hlo|].
  destruct (num / den + 1 =? 10 ^ k) eqn:E; cbn [fst].
  - split; [lia|]. apply Z.pow_lt_mono_r; lia.
  - apply Z.eqb_neq in E. lia.
Qed.

Lemma pick_spec (x : number) (v : Q) (k : Z) (lo hi c : Z * Z) :
  pick x v k (lo, hi) = Some c ->
  (c = lo \/ c = hi) /\ candidate_ok x k c = true.
Proof.
  unfold pick.
  destruct (candidate_ok x k lo) eqn:E1, (candidate_ok x k hi) eqn:E2;
    try discriminate.
  - destruct (_ ?= _)%Q; [destruct (Z.even (fst lo))| |];
      intros H; injection H as <-; auto.
  - intros H; injection H as <-; auto.
  - intros H; injection H as <-; auto.
Qed.

Lemma shortest_from_spec (fuel : nat) (x : number) (v : Q) (a b n k : Z) (c : Z * Z) :
  shortest_from fuel x v a b n k = Some c ->
  exists k', k <= k' /\ pick x v k' (candidates a b n k') = Some c.
Proof.
  revert k. induction fuel as [|fuel IH]; intros k; [discriminate|].
  cbn [shortest_from].
  destruct (pick x v k (candidates a b n k)) as [c'|] eqn:E.
  - intros H. injection H as <-. exists k. split; [lia|exact E].
  - intros H. destruct (IH _ H) as (k' & Hk & Hp).
    exists k'. split; [lia|exact Hp].
Qed.

Lemma round_ratio_sign (s sg : bool) (a b : Z) (m : positive) (e : Z) :
  round_ratio s a b = S754_finite sg m e -> sg = s.
Proof.
  unfold round_ratio. cbv zeta.
  destruct (if _ =? _ then _ else _) as [m'' e''].
  destruct (_ <? e''); [discriminate|].
  destruct m''; try discriminate. intros H. now injection H.
Qed.

Lemma Number_of_Q_sign (q : Q) (sg : bool) (m : positive) (e : Z) :
  (0 < q)%Q -> Number_of_Q q = S754_finite sg m e -> sg = false.
Proof.
  intros Hq. pose proof (Qred_pos q Hq) as Hn.
  unfold Number_of_Q. cbv zeta.
  destruct (Qnum (Qred q)); try lia. apply round_ratio_sign.
Qed.

Lemma candidate_ok_spec (sg : bool) (m : positive) (e k : Z) (c : Z * Z) :
  1 <= fst c ->
  candidate_ok (S754_finite sg m e) k c = true ->
  Number_of_Q (inject_Z (fst c) * Qpow10 (snd c - k)) = S754_finite false m e.
Proof.
  intros Hc. unfold candidate_ok, candidate_value.
  assert (Hpos : (0 < inject_Z (fst c) * Qpow10 (snd c - k))%Q).
  { apply Qmult_lt_0_compat; [|apply Qpower_0_lt; reflexivity].
    unfold Qlt. simpl. lia. }
  destruct (Number_of_Q _) as [| | |sg' m' e'] eqn:E; try discriminate.
  intros H. apply andb_prop in H as [H1 H2].
  apply Pos.eqb_eq in H1. apply Z.eqb_eq in H2. subst.
  now rewrite (Number_of_Q_sign _ _ _ _ Hpos E).
Qed.

(** The digits chosen for a valid value read back as that value. *)
Lemma shortest_digits_spec (sg : bool) (m : positive) (e : Z) :
  valid_number (S754_finite sg m e) = true ->
  let '(s, n) := shortest_digits m e in
  1 <= s /\
  Number_of_Q (inject_Z s * Qpow10 (n - Z.of_nat (List.length (decimal s))))
  = S754_finite false m e.
Proof.
  intros Hv. unfold shortest_digits. cbv zeta.
  set (x := S754_finite false m e).
  pose proof (Qred_correct (magnitude x)) as Hred.
  pose proof (Qred_pos (magnitude x) (magnitude_pos false m e)) as Hnum.
  destruct (Qred (magnitude x)) as [a d] eqn:Ev. cbn [Qnum Qden] in *.
  destruct (shortest_from 17 x (a # d) a (Zpos d) (decimal_exponent a (Zpos d)) 1)
    as [c|] eqn:Es.
  - destruct (shortest_from_spec _ _ _ _ _ _ _ _ Es) as (k & Hk & Hp).
    destruct (decimal_exponent_spec a d ltac:(lia)) as [Hlow Hup].
    pose proof (candidates_range a _ k d ltac:(lia) Hk Hlow Hup) as Hrange.
    destruct (candidates a (Zpos d) (decimal_exponent a (Zpos d)) k) as [lo hi].
    destruct (pick_spec _ _ _ _ _ _ Hp) as [Hc Hok].
    assert (Hck : 10 ^ (k - 1) <= fst c < 10 ^ k)
      by (destruct Hc as [-> | ->]; tauto).
    assert (H1 : 1 <= fst c).
    { assert (0 < 10 ^ (k - 1)) by (apply Z.pow_pos_nonneg; lia). lia. }
    destruct c as [s n]. cbn [fst snd] in *.
    split; [exact H1|].
    rewrite (decimal_length_unique s k) by lia.
    exact (candidate_ok_spec false m e k (s, n) H1 Hok).
  - pose proof (exact_digits_spec sg m e) as Hex.
    destruct (exact_digits m e) as [s n]. destruct Hex as [H1 Hq].
    split; [exact H1|].
    now apply (Number_of_Q_exact _ sg).
Qed.

(* ====================================================================== *)
(** * Rounding returns canonical values *)
(* ====================================================================== *)

Lemma valid_number_intro (s : bool) (m : positive) (e : Z) :
  Z.max (Z.log2 (Zpos m) - 52 + e) (-1074) = e -> e <= 971 ->
  valid_number (S754_finite s m e) = true.
Proof.
  intros H1 H2.
  unfold valid_number, valid_binary, bounded, canonical_mantissa, fexp, SpecFloat.emin.
  rewrite digits2_pos_log2. unfold prec, emax.
  apply andb_true_intro. split; [apply Z.eqb_eq|apply Z.leb_le]; lia.
Qed.

Lemma log2_between (m k : Z) : 0 <= k -> 2 ^ k <= m < 2 ^ (k + 1) -> Z.log2 m = k.
Proof.
  intros Hk [H1 H2]. apply Z.log2_unique; [exact Hk|].
  now rewrite <- Z.add_1_r.
Qed.

Lemma log2_below (m k : Z) : 0 < m -> 0 <= k -> m < 2 ^ k -> Z.log2 m < k.
Proof.
  intros Hm Hk H. apply Z.log2_lt_pow2; assumption.
Qed.

(** The quotient that rounding starts from, for the exponent it chose. *)
Lemma round_quotient_bounds (a e r : Z) (d : positive) :
  0 < a ->
  (inject_Z 2 ^ r <= a # d)%Q -> (a # d < inject_Z 2 ^ (r + 1))%Q ->
  let q := (a * 2 ^ Z.max 0 (- e)) / (Zpos d * 2 ^ Z.max 0 e) in
  (0 <= r - e -> 2 ^ (r - e) <= q)
  /\ (forall k, 0 <= k -> r + 1 <= k + e -> q < 2 ^ k)
  /\ 0 <= q.
Proof.
  intros Ha Hlow Hup. cbv zeta.
  set (num := a * 2 ^ Z.max 0 (- e)). set (den := Zpos d * 2 ^ Z.max 0 e).
  assert (Hp2 : 0 < 2 ^ Z.max 0 e) by (apply pow_max_pos; lia).
  assert (Hden : 0 < den) by (subst den; lia).
  assert (Hnum : 0 <= num)
    by (subst num; apply Z.mul_nonneg_nonneg; [lia|apply Z.pow_nonneg; lia]).
  assert (Hscale : (num # Z.to_pos den == (a # d) * inject_Z 2 ^ (- e))%Q).
  { rewrite (Qpower_fraction 2 (- e)) by lia.
    replace (- - e) with e by lia.
    unfold Qeq, Qmult. cbn [Qnum Qden].
    rewrite Pos2Z.inj_mul, !Z2Pos.id by assumption.
    subst num den. lia. }
  assert (Hp : (0 < inject_Z 2 ^ (- e))%Q) by (apply Qpower_0_lt; reflexivity).
  assert (Hnz : ~ (inject_Z 2 == 0)%Q) by discriminate.
  split; [|split].
  - intros Hre. apply Z.div_le_lower_bound; [exact Hden|].
    assert (H : (inject_Z (2 ^ (r - e)) <= num # Z.to_pos den)%Q).
    { rewrite Hscale, Zpower_Qpower by lia.
      replace (r - e) with (r + - e) by lia.
      rewrite Qpower_plus by exact Hnz.
      apply Qmult_le_compat_r; [exact Hlow|now apply Qlt_le_weak]. }
    unfold Qle in H. cbn [Qnum Qden inject_Z] in H.
    rewrite Z2Pos.id in H by trivial. lia.
  - intros k Hk Hke. apply Z.div_lt_upper_bound; [exact Hden|].
    assert (H : (num # Z.to_pos den < inject_Z (2 ^ k))%Q).
    { rewrite Hscale, Zpower_Qpower by lia.
      replace k with ((k + e) + - e) by lia.
      rewrite Qpower_plus by exact Hnz.
      apply Qmult_lt_compat_r; [exact Hp|].
      eapply Qlt_le_trans; [exact Hup|].
      apply Qpower_le_compat_l; [exact Hke|discriminate]. }
    unfold Qlt in H. cbn [Qnum Qden inject_Z] in H.
    rewrite Z2Pos.id in H by trivial. lia.
  - apply Z.div_pos; assumption.
Qed.

Lemma round_ratio_valid (s : bool) (a : Z) (d : positive) :
  0 < a -> valid_number (round_ratio s a (Zpos d)) = true.
Proof.
  intros Ha. destruct (floor_log2_ratio_spec a d Ha) as [Hlow Hup].
  unfold round_ratio. cbv zeta. unfold prec, emax.
  set (r := floor_log2_ratio a (Zpos d)) in *.
  set (e := Z.max (r - (53 - 1)) (3 - 1024 - 53)).
  pose proof (round_quotient_bounds a e r d Ha Hlow Hup) as Hq.
  cbv zeta in Hq.
  set (q := (a * 2 ^ Z.max 0 (- e)) / (Zpos d * 2 ^ Z.max 0 e)) in *.
  set (m' := match 2 * ((a * 2 ^ Z.max 0 (- e)) mod (Zpos d * 2 ^ Z.max 0 e))
                   ?= Zpos d * 2 ^ Z.max 0 e with
             | Eq => if Z.even q then q else q + 1
             | Lt => q
             | Gt => q + 1
             end).
  destruct Hq as (Hq1 & Hq2 & Hq0).
  assert (Hm : q <= m' <= q + 1).
  { subst m'. destruct (_ ?= _); [destruct (Z.even q)| |]; lia. }
  assert (H53 : q < 2 ^ 53) by (apply Hq2; subst e; lia).
  destruct (m' =? 2 ^ 53) eqn:E53.
  - (* the mantissa overflowed to the next binade *)
    destruct (1024 - 53 <? e + 1) eqn:Ee; [reflexivity|].
    apply Z.ltb_ge in Ee. change (2 ^ (53 - 1)) with (Zpos 4503599627370496).
    apply valid_number_intro; [|lia].
    change (Z.log2 (Zpos 4503599627370496)) with 52. subst e. lia.
  - apply Z.eqb_neq in E53.
    destruct (1024 - 53 <? e) eqn:Ee; [reflexivity|].
    apply Z.ltb_ge in Ee.
    destruct m' as [|p|p] eqn:Em; [reflexivity| |lia].
    apply valid_number_intro; [|lia].
    destruct (Z_le_gt_dec (-1074) (r - 52)) as [Hn|Hn].
    + (* normal *)
      assert (Hre : r - e = 52) by (subst e; lia).
      rewrite Hre in *. specialize (Hq1 ltac:(lia)).
      rewrite (log2_between (Zpos p) 52) by lia. subst e. lia.
    + (* subnormal *)
      assert (Hee : e = -1074) by (subst e; lia).
      assert (H52 : q < 2 ^ 52) by (apply Hq2; lia).
      destruct (Z.eq_dec (Zpos p) (2 ^ 52)) as [Ep|Ep].
      * rewrite Ep. change (Z.log2 (2 ^ 52)) with 52. lia.
      * pose proof (log2_below (Zpos p) 52 ltac:(lia) ltac:(lia) ltac:(lia)). lia.
Qed.

(** [Number_of_Q] returns canonical values only. *)
Lemma Number_of_Q_valid (q : Q) : valid_number (Number_of_Q q) = true.
Proof.
  unfold Number_of_Q. cbv zeta.
  destruct (Qnum (Qred q)); [reflexivity| |]; apply round_ratio_valid; lia.
Qed.

(** An integer of magnitude below [2^53] is a Number: converting it is
    exact. *)
Theorem Number_of_Z_exact (z : Z) :
  0 < z < 2 ^ 53 ->
  let x := Number_of_Z z in
  json_number x = true /\ is_negative x = false /\
  (magnitude x == inject_Z z)%Q.
Proof.
  intros [Hz1 Hz2]. cbv zeta.
  pose proof (Z.log2_nonneg z) as Hl0.
  destruct (Z.log2_spec z Hz1) as [Hl1 Hl2].
  assert (Hl : Z.log2 z < 53) by (apply Z.log2_lt_pow2; lia).
  set (k := 52 - Z.log2 z).
  assert (Hk : 0 <= k) by (subst k; lia).
  assert (Hpk : 0 < 2 ^ k) by (apply Z.pow_pos_nonneg; lia).
  assert (Hm1 : 2 ^ 52 <= z * 2 ^ k).
  { replace 52 with (Z.log2 z + k) at 1 by (subst k; lia).
    rewrite Z.pow_add_r by lia. apply Z.mul_le_mono_nonneg_r; lia. }
  assert (Hm2 : z * 2 ^ k < 2 ^ (52 + 1)).
  { replace (52 + 1) with (Z.succ (Z.log2 z) + k) by (subst k; lia).
    rewrite Z.pow_add_r by lia. apply Z.mul_lt_mono_pos_r; lia. }
  destruct (z * 2 ^ k) as [|m|m] eqn:Em; try lia.
  assert (Hv : valid_number (S754_finite false m (- k)) = true).
  { apply valid_number_intro; [|lia].
    rewrite (log2_between (Zpos m) 52) by lia. lia. }
  assert (Hq : (inject_Z z == magnitude (S754_finite false m (- k)))%Q).
  { unfold magnitude. rewrite <- Em, inject_Z_mult, Qpower_opp.
    rewrite <- Zpower_Qpower by trivial.
    field. intros H. unfold Qeq in H. simpl in H. lia. }
  unfold Number_of_Z. rewrite (Number_of_Q_exact _ false m (- k) Hv Hq).
  split; [exact Hv|]. split; [reflexivity|]. symmetry. exact Hq.
Qed.

Lemma Number_of_Z_exact_witness :
  json_number (Number_of_Z 3) = true /\ is_negative (Number_of_Z 3) = false /\
  (magnitude (Number_of_Z 3) == inject_Z 3)%Q.
Proof.
  apply (Number_of_Z_exact 3). split; [lia|reflexivity].
Defined.

(* ====================================================================== *)
(** * Numbers survive printing and parsing *)
(* ====================================================================== *)

(** The text [Number::toString] gives for a finite canonical value other
    than negative zero parses back to that value, whatever follows it
    that cannot continue a number. *)
Theorem parse_number_toString (x : number) (rest : jsstring) :
  json_number x = true ->
  number_end rest = true ->
  parse_number (Number_toString x ++ rest) = Some (x, rest).
Proof.
  intros Hx Hr. destruct x as [s| | |s m e]; try discriminate.
  - destruct s; [discriminate|]. cbn [Number_toString].
    change (parse_number (minus_text false ++ "0" ++ rest)
            = Some (S754_zero false, rest)).
    erewrite parse_number_parts;
      [ | reflexivity | reflexivity | now apply number_end_not_digit
        | now apply parse_fraction_end | now apply parse_exponent_end ].
    reflexivity.
  - cbn [json_number] in Hx. cbn [Number_toString].
    pose proof (shortest_digits_spec s m e Hx) as Hd.
    destruct (shortest_digits m e) as [d n]. destruct Hd as [H1 Hq].
    rewrite <- app_assoc.
    change (if s then str "-" else str "") with (minus_text s).
    rewrite parse_number_layout, Hq by trivial.
    destruct s; reflexivity.
Qed.

Lemma parse_number_toString_witness :
  let x := Number_of_Q (2999 # 100) in
  json_number x = true /\
  parse_number (Number_toString x ++ ",") = Some (x, str ",").
Proof.
  cbv zeta.
  assert (Hx : json_number (Number_of_Q (2999 # 100)) = true)
    by (vm_compute; reflexivity).
  split; [exact Hx|].
  apply (parse_number_toString _ ","); [exact Hx|reflexivity].
Defined.

(* ====================================================================== *)
(** * Strings survive quoting and parsing *)
(* ====================================================================== *)

Lemma hex_value_hex_digit (d : N) : (d < 16)%N -> hex_value (hex_digit d) = Some d.
Proof.
  intros H. unfold hex_digit, hex_value, is_digit.
  destruct (d <? 10)%N eqn:E.
  - apply N.ltb_lt in E.
    replace ((48 <=? 48 + d) && (48 + d <=? 57))%N with true
      by (symmetry; apply andb_true_intro; split; apply N.leb_le; lia).
    f_equal. lia.
  - apply N.ltb_ge in E.
    replace ((48 <=? 87 + d) && (87 + d <=? 57))%N with false
      by (symmetry; apply andb_false_iff; right; apply N.leb_gt; lia).
    replace ((97 <=? 87 + d) && (87 + d <=? 102))%N with true
      by (symmetry; apply andb_true_intro; split; apply N.leb_le; lia).
    f_equal. lia.
Qed.

Lemma hex_digits_value (c : N) :
  (c < 65536)%N ->
  ((((c / 4096 mod 16) * 16 + c / 256 mod 16) * 16 + c / 16 mod 16) * 16 + c mod 16
   = c)%N.
Proof.
  intros H.
  replace (c / 256)%N with (c / 16 / 16)%N
    by (rewrite N.Div0.div_div; reflexivity).
  replace (c / 4096)%N with (c / 16 / 16 / 16)%N
    by (rewrite !N.Div0.div_div; reflexivity).
  pose proof (N.div_mod c 16 ltac:(lia)) as E0.
  pose proof (N.div_mod (c / 16) 16 ltac:(lia)) as E1.
  pose proof (N.div_mod (c / 16 / 16) 16 ltac:(lia)) as E2.
  assert (H3 : (c / 16 / 16 / 16 < 16)%N).
  { rewrite !N.Div0.div_div. apply N.Div0.div_lt_upper_bound. simpl. lia. }
  rewrite (N.mod_small _ _ H3). lia.
Qed.

(** An escape written by [UnicodeEscape] reads back as its code unit. *)
Lemma parse_string_escape (c : N) (s : jsstring) :
  (c < 65536)%N ->
  parse_string (UnicodeEscape c ++ s) = cons_unit c (parse_string s).
Proof.
  intros H. unfold UnicodeEscape. cbn [app parse_string].
  change (reverse_solidus =? quotation_mark)%N with false.
  change (reverse_solidus =? reverse_solidus)%N with true.
  change (117 =? 117)%N with true. cbv iota.
  rewrite !hex_value_hex_digit by (apply N.mod_lt; lia).
  now rewrite hex_digits_value.
Qed.

Lemma surrogate_bound (c : N) :
  is_leading_surrogate c = true \/ is_trailing_surrogate c = true ->
  (c < 65536)%N /\ (c =? quotation_mark)%N = false
  /\ (c =? reverse_solidus)%N = false /\ (c <? 32)%N = false.
Proof.
  unfold is_leading_surrogate, is_trailing_surrogate, quotation_mark, reverse_solidus.
  intros [H|H]; apply andb_prop in H as [H1 H2]; apply N.leb_le in H1, H2;
    (split; [lia|]); (split; [apply N.eqb_neq; lia|]);
    (split; [apply N.eqb_neq; lia|apply N.ltb_ge; lia]).
Qed.

(** The body of a quoted string followed by the closing quotation mark
    reads back as the string. *)
Lemma parse_string_quote_body (s rest : jsstring) :
  parse_string (quote_body s ++ quotation_mark :: rest) = Some (s, rest).
Proof.
  remember (List.length s) as n eqn:Hn.
  assert (Hlen : (List.length s <= n)%nat) by lia. clear Hn.
  revert s Hlen. induction n as [|n IH]; intros s Hlen.
  - destruct s; [reflexivity|simpl in Hlen; lia].
  - destruct s as [|c s]; [reflexivity|].
    simpl in Hlen.
    assert (IHs : parse_string (quote_body s ++ quotation_mark :: rest) = Some (s, rest))
      by (apply IH; lia).
    cbn [quote_body].
    destruct (c =? 8)%N eqn:E8;
      [apply N.eqb_eq in E8; subst c; cbn; now rewrite IHs|].
    destruct (c =? 9)%N eqn:E9;
      [apply N.eqb_eq in E9; subst c; cbn; now rewrite IHs|].
    destruct (c =? 10)%N eqn:E10;
      [apply N.eqb_eq in E10; subst c; cbn; now rewrite IHs|].
    destruct (c =? 12)%N eqn:E12;
      [apply N.eqb_eq in E12; subst c; cbn; now rewrite IHs|].
    destruct (c =? 13)%N eqn:E13;
      [apply N.eqb_eq in E13; subst c; cbn; now rewrite IHs|].
    destruct (c =? quotation_mark)%N eqn:Eq;
      [apply N.eqb_eq in Eq; subst c; cbn; now rewrite IHs|].
    destruct (c =? reverse_solidus)%N eqn:Er;
      [apply N.eqb_eq in Er; subst c; cbn; now rewrite IHs|].
    destruct (c <? 32)%N eqn:Ec.
    { rewrite <- app_assoc, parse_string_escape, IHs; [reflexivity|].
      apply N.ltb_lt in Ec. lia. }
    destruct (is_leading_surrogate c) eqn:El.
    { destruct (surrogate_bound c (or_introl El)) as (Hc & _).
      destruct s as [|d s].
      - rewrite parse_string_escape by exact Hc. reflexivity.
      - destruct (is_trailing_surrogate d) eqn:Et.
        + destruct (surrogate_bound d (or_intror Et)) as (_ & Hq & Hr & Hd).
          cbn [app parse_string]. rewrite Eq, Er, Ec, Hq, Hr, Hd.
          rewrite IH by (simpl in Hlen; lia). reflexivity.
        + rewrite <- app_assoc, parse_string_escape, IHs by exact Hc. reflexivity. }
    destruct (is_trailing_surrogate c) eqn:Et.
    { destruct (surrogate_bound c (or_intror Et)) as (Hc & _).
      rewrite <- app_assoc, parse_string_escape, IHs by exact Hc. reflexivity. }
    cbn [app parse_string]. rewrite Eq, Er, Ec, IHs. reflexivity.
Qed.

Lemma parse_string_quoted (s rest : jsstring) :
  exists body,
    QuoteJSONString s ++ rest = quotation_mark :: body /\
    parse_string body = Some (s, rest).
Proof.
  exists (quote_body s ++ quotation_mark :: rest). split.
  - unfold QuoteJSONString. cbn [app]. now rewrite <- app_assoc.
  - apply parse_string_quote_body.
Qed.

(* ====================================================================== *)
(** * Values survive serialization and parsing *)
(* ====================================================================== *)


Lemma parse_number_head (s : jsstring) (r : number * jsstring) :
  parse_number s = Some r ->
  exists c t, s = c :: t /\ (c = 45%N \/ is_digit c = true).
Proof.
  destruct s as [|c t]; [discriminate|]. intros H. exists c, t.
  split; [reflexivity|].
  destruct (c =? 45)%N eqn:E; [left; now apply N.eqb_eq|]. right.
  unfold parse_number, parse_minus in H. rewrite E in H.
  cbn [span_digits] in H. destruct (is_digit c); [reflexivity|discriminate].
Qed.

Lemma Number_toString_head (x : number) :
  json_number x = true ->
  exists c t, Number_toString x = c :: t /\ (c = 45%N \/ is_digit c = true).
Proof.
  intros Hx.
  pose proof (parse_number_toString x [] Hx eq_refl) as H.
  rewrite app_nil_r in H. exact (parse_number_head _ _ H).
Qed.

Lemma number_head_dispatch (c : N) :
  c = 45%N \/ is_digit c = true ->
  is_ws c = false /\ (c =? quotation_mark)%N = false /\ (c =? 91)%N = false
  /\ (c =? 123)%N = false /\ (c =? 110)%N = false /\ (c =? 116)%N = false
  /\ (c =? 102)%N = false /\ (c =? 93)%N = false.
Proof.
  intros [-> | H]; [repeat split|].
  unfold is_digit in H. apply andb_prop in H as [H1 H2].
  apply N.leb_le in H1, H2. unfold is_ws, quotation_mark.
  repeat split; try (apply N.eqb_neq; lia).
  repeat (apply orb_false_intro); apply N.eqb_neq; lia.
Qed.

Lemma json_number_finite (x : number) : json_number x = true -> is_finite x = true.
Proof. destruct x; simpl; congruence. Qed.

Lemma roundtrips_element (v : value) :
  roundtrips v -> json_representable v = true ->
  value_start (element_text v) = true /\
  (value_size v <= List.length (element_text v))%nat /\
  forall fuel rest,
    (value_size v <= fuel)%nat -> number_end rest = true ->
    parse_value fuel (element_text v ++ rest) = Some (v, rest).
Proof.
  intros H Hr. destruct (H Hr) as (text & Hs & H1 & H2 & H3).
  unfold element_text. rewrite Hs. auto.
Qed.

Lemma value_start_skip (text rest : jsstring) :
  value_start text = true -> skip_ws (text ++ rest) = text ++ rest.
Proof.
  destruct text as [|c t]; [discriminate|]. simpl.
  destruct (is_ws c); [discriminate|reflexivity].
Qed.

Lemma value_start_not_close (text rest : jsstring) :
  value_start text = true -> parse_char 93 (text ++ rest) = None.
Proof.
  intros H. unfold parse_char. rewrite value_start_skip by exact H.
  destruct text as [|c t]; [discriminate|]. simpl in *.
  destruct (is_ws c); [discriminate|]. simpl in H.
  destruct (c =? 93)%N; [discriminate|reflexivity].
Qed.

Lemma list_sum_cons (a : nat) (l : list nat) : list_sum (a :: l) = (a + list_sum l)%nat.
Proof. reflexivity. Qed.

(** The elements of a non-empty array, after the opening bracket. *)
Lemma parse_elements_join (items : list value) :
  Forall roundtrips items ->
  forallb json_representable items = true ->
  items <> [] ->
  forall fuel acc rest,
    (list_sum (map (fun item => S (value_size item)) items) <= fuel)%nat ->
    parse_elements fuel (join_comma (map element_text items) ++ "]" ++ rest) acc
    = Some (VArr (acc ++ items), rest).
Proof.
  intros Hall. induction Hall as [|v items Hv Hall IH]; [congruence|].
  intros Hrep _ fuel acc rest Hfuel.
  cbn [forallb] in Hrep. apply andb_prop in Hrep as [Hrv Hrep].
  destruct (roundtrips_element v Hv Hrv) as (_ & _ & Hparse).
  cbn [map] in Hfuel. rewrite list_sum_cons in Hfuel.
  destruct fuel as [|fuel]; [lia|]. cbn [parse_elements].
  destruct items as [|v2 items].
  - cbn [map join_comma] in *.
    rewrite Hparse by (reflexivity || lia).
    reflexivity.
  - change (join_comma (map element_text (v :: v2 :: items)))
      with (element_text v ++ "," ++ join_comma (map element_text (v2 :: items))).
    rewrite <- !app_assoc.
    rewrite Hparse by (reflexivity || lia).
    change (parse_separator 93 ("," ++ ?x)) with (Some (Comma, x)).
    cbv iota beta.
    rewrite IH by (trivial; try discriminate; lia).
    now rewrite <- app_assoc.
Qed.

Lemma set_prop_fresh (k : jsstring) (v : value) (o : object) :
  forallb (fun k' => negb (jsstring_eqb k' k)) (map fst o) = true ->
  set_prop k v o = o ++ [(k, v)].
Proof.
  induction o as [|[k' v'] o IH]; simpl; intros H; [reflexivity|].
  apply andb_prop in H as [H1 H2]. apply negb_true_iff in H1.
  now rewrite H1, IH.
Qed.

Lemma distinct_fresh (l r : list jsstring) (k : jsstring) :
  distinct (l ++ k :: r) = true ->
  forallb (fun k' => negb (jsstring_eqb k' k)) l = true.
Proof.
  induction l as [|x l IH]; simpl; intros H; [reflexivity|].
  apply andb_prop in H as [H1 H2]. rewrite IH by exact H2.
  rewrite existsb_app in H1. simpl in H1.
  destruct (jsstring_eqb x k); [|reflexivity].
  now rewrite orb_true_r in H1.
Qed.

Lemma member_text_parts (k : jsstring) (v : value) (tail : jsstring) :
  member_text (k, v) ++ tail
  = quotation_mark :: quote_body k ++ quotation_mark :: (":" ++ element_text v ++ tail).
Proof.
  unfold member_text, QuoteJSONString. cbn [fst snd app].
  now rewrite <- !app_assoc.
Qed.

(** The members of a non-empty object, after the opening brace. *)
Lemma parse_members_join (props : object) :
  Forall (fun kv => roundtrips (snd kv)) props ->
  forallb (fun '(_, v) => json_representable v) props = true ->
  props <> [] ->
  forall fuel acc rest,
    (list_sum (map (fun '(_, v) => S (value_size v)) props) <= fuel)%nat ->
    distinct (map fst acc ++ map fst props) = true ->
    parse_members fuel (join_comma (map member_text props) ++ "}" ++ rest) acc
    = Some (VObj (acc ++ props), rest).
Proof.
  intros Hall. induction Hall as [|[k v] props Hv Hall IH]; [congruence|].
  intros Hrep _ fuel acc rest Hfuel Hdis.
  cbn [forallb] in Hrep. apply andb_prop in Hrep as [Hrv Hrep].
  cbn [snd] in Hv.
  destruct (roundtrips_element v Hv Hrv) as (_ & _ & Hparse).
  cbn [map] in Hfuel, Hdis. rewrite list_sum_cons in Hfuel. cbn [fst] in Hdis.
  pose proof (set_prop_fresh k v acc (distinct_fresh _ _ _ Hdis)) as Hset.
  destruct fuel as [|fuel]; [lia|]. cbn [parse_members].
  assert (Hstep : forall tail,
             parse_char quotation_mark (member_text (k, v) ++ tail)
             = Some (quote_body k ++ quotation_mark :: (":" ++ element_text v ++ tail))).
  { intros tail. rewrite member_text_parts. reflexivity. }
  destruct props as [|kv2 props].
  - cbn [map join_comma] in *.
    rewrite Hstep, parse_string_quote_body.
    change (parse_char 58 (":" ++ ?x)) with (Some x). cbv iota beta.
    rewrite Hparse by (reflexivity || lia).
    change (parse_separator 125 ("}" ++ rest)) with (Some (Close, rest)).
    cbv iota beta. now rewrite Hset.
  - change (join_comma (map member_text ((k, v) :: kv2 :: props)))
      with (member_text (k, v) ++ "," ++ join_comma (map member_text (kv2 :: props))).
    rewrite <- !app_assoc.
    rewrite Hstep, parse_string_quote_body.
    change (parse_char 58 (":" ++ ?x)) with (Some x). cbv iota beta.
    rewrite Hparse by (reflexivity || lia).
    change (parse_separator 125 ("," ++ ?x)) with (Some (Comma, x)).
    cbv iota beta. rewrite Hset.
    rewrite IH; [now rewrite <- app_assoc|exact Hrep|discriminate|lia|].
    rewrite map_app, <- app_assoc. exact Hdis.
Qed.

Lemma serialize_array (items : list value) :
  SerializeJSONProperty (VArr items)
  = Some ("[" ++ join_comma (map element_text items) ++ "]").
Proof. reflexivity. Qed.

Lemma members_flat_map (props : object) :
  Forall (fun kv => SerializeJSONProperty (snd kv) <> None) props ->
  flat_map (fun '(k, v) =>
              match SerializeJSONProperty v with
              | Some text => [QuoteJSONString k ++ ":" ++ text]
              | None => []
              end) props
  = map member_text props.
Proof.
  intros H. induction H as [|[k v] props Hv H IH]; [reflexivity|].
  cbn [flat_map map]. rewrite IH. unfold member_text, element_text. cbn [fst snd] in *.
  destruct (SerializeJSONProperty v); [reflexivity|congruence].
Qed.

Lemma serialize_object (props : object) :
  Forall (fun kv => SerializeJSONProperty (snd kv) <> None) props ->
  SerializeJSONProperty (VObj props)
  = Some ("{" ++ join_comma (map member_text props) ++ "}").
Proof.
  intros H. rewrite <- (members_flat_map props H). reflexivity.
Qed.

Lemma join_comma_cons (p q : jsstring) (r : list jsstring) :
  join_comma (p :: q :: r) = p ++ "," ++ join_comma (q :: r).
Proof. reflexivity. Qed.

Lemma join_comma_size {A : Type} (text : A -> jsstring) (size : A -> nat) (l : list A) :
  Forall (fun a => (size a <= List.length (text a))%nat) l ->
  (list_sum (map (fun a => S (size a)) l) <= S (List.length (join_comma (map text l))))%nat.
Proof.
  intros H. induction H as [|a l Ha H IH]; [simpl; lia|].
  cbn [map]. rewrite list_sum_cons.
  destruct l as [|b l].
  - simpl. lia.
  - cbn [map] in *. rewrite join_comma_cons, !length_app.
    cbn [List.length str map list_ascii_of_string] in *. lia.
Qed.

(** Every representable value is written as a text that parses back to
    it. *)
Lemma roundtrips_all (v : value) : roundtrips v.
Proof.
  induction v using value_induction; intros Hrep.
  - discriminate.
  - exists "null". repeat split; [simpl; lia|].
    intros [|fuel] rest Hf _; [simpl in Hf; lia|reflexivity].
  - destruct b.
    + exists "true". repeat split; [simpl; lia|].
      intros [|fuel] rest Hf _; [simpl in Hf; lia|reflexivity].
    + exists "false". repeat split; [simpl; lia|].
      intros [|fuel] rest Hf _; [simpl in Hf; lia|reflexivity].
  - cbn [json_representable] in Hrep.
    destruct (Number_toString_head x Hrep) as (c & t & Ht & Hc).
    destruct (number_head_dispatch c Hc)
      as (Hws & H34 & H91 & H123 & H110 & H116 & H102 & H93).
    exists (Number_toString x). split; [|split; [|split]].
    + cbn [SerializeJSONProperty]. now rewrite (json_number_finite x Hrep).
    + rewrite Ht. simpl. now rewrite Hws, H93.
    + rewrite Ht. simpl. lia.
    + intros [|fuel] rest Hf Hr; [simpl in Hf; lia|].
      pose proof (parse_number_toString x rest Hrep Hr) as Hp.
      rewrite Ht in *. cbn [parse_value app skip_ws].
      rewrite Hws, H34, H91, H123, H110, H116, H102.
      cbn [app] in Hp. now rewrite Hp.
  - exists (QuoteJSONString s). split; [reflexivity|]. split; [reflexivity|].
    split; [unfold QuoteJSONString; simpl; lia|].
    intros [|fuel] rest Hf _; [simpl in Hf; lia|].
    unfold QuoteJSONString. rewrite <- !app_assoc.
    change (parse_value (S fuel) ([quotation_mark] ++ ?x))
      with (match parse_string x with
            | Some (t, rest) => Some (VStr t, rest)
            | None => None
            end).
    change ([quotation_mark] ++ rest) with (quotation_mark :: rest).
    now rewrite parse_string_quote_body.
  - (* arrays *)
    cbn [json_representable] in Hrep.
    assert (Hel : Forall (fun item =>
                    value_start (element_text item) = true /\
                    (value_size item <= List.length (element_text item))%nat) items).
    { clear - H Hrep. induction H as [|v items Hv H IH]; [constructor|].
      cbn [forallb] in Hrep. apply andb_prop in Hrep as [Hrv Hrep].
      constructor; [|now apply IH].
      destruct (roundtrips_element v Hv Hrv) as (H1 & H2 & _). auto. }
    exists ("[" ++ join_comma (map element_text items) ++ "]").
    split; [apply serialize_array|]. split; [reflexivity|]. split.
    + cbn [value_size]. rewrite !length_app.
      assert (Hs : Forall (fun item =>
                     (value_size item <= List.length (element_text item))%nat) items)
        by (eapply Forall_impl; [|exact Hel]; simpl; tauto).
      pose proof (join_comma_size element_text value_size items Hs).
      cbn [List.length str map list_ascii_of_string]. lia.
    + intros [|fuel] rest Hf _; [simpl in Hf; lia|].
      cbn [value_size] in Hf. rewrite <- !app_assoc.
      change (parse_value (S fuel) ("[" ++ ?x))
        with (match parse_char 93 x with
              | Some rest => Some (VArr [], rest)
              | None => parse_elements fuel x []
              end).
      destruct items as [|v items]; [reflexivity|].
      assert (Hstart : value_start (join_comma (map element_text (v :: items))) = true).
      { inversion Hel as [|? ? [Hv _] _]; subst.
        destruct items; cbn [map join_comma];
          [exact Hv|destruct (element_text v); [discriminate|exact Hv]]. }
      rewrite value_start_not_close by exact Hstart.
      rewrite parse_elements_join by (trivial; try discriminate; lia).
      reflexivity.
  - (* objects *)
    cbn [json_representable] in Hrep. apply andb_prop in Hrep as [Hdis Hrep].
    assert (Hel : Forall (fun kv =>
                    SerializeJSONProperty (snd kv) <> None /\
                    (value_size (snd kv) <= List.length (member_text kv))%nat) props).
    { clear - H Hrep. induction H as [|[k v] props Hv H IH]; [constructor|].
      cbn [forallb] in Hrep. apply andb_prop in Hrep as [Hrv Hrep].
      constructor; [|now apply IH]. cbn [snd] in *.
      destruct (Hv Hrv) as (text & Hs & _ & Hsize & _).
      split; [congruence|].
      unfold member_text, element_text. cbn [fst snd]. rewrite Hs, !length_app. lia. }
    exists ("{" ++ join_comma (map member_text props) ++ "}").
    split.
    { apply serialize_object. eapply Forall_impl; [|exact Hel]. simpl. tauto. }
    split; [reflexivity|]. split.
    + cbn [value_size]. rewrite !length_app.
      assert (Hs : Forall (fun kv =>
                     (value_size (snd kv) <= List.length (member_text kv))%nat) props)
        by (eapply Forall_impl; [|exact Hel]; simpl; tauto).
      pose proof (join_comma_size member_text (fun kv => value_size (snd kv)) props Hs)
        as Hj.
      replace (map (fun '(_, v) => S (value_size v)) props)
        with (map (fun kv : jsstring * value => S (value_size (snd kv))) props)
        by (apply map_ext; now intros [k v]).
      cbn [List.length str map list_ascii_of_string]. lia.
    + intros [|fuel] rest Hf _; [simpl in Hf; lia|].
      cbn [value_size] in Hf. rewrite <- !app_assoc.
      change (parse_value (S fuel) ("{" ++ ?x))
        with (match parse_char 125 x with
              | Some rest => Some (VObj [], rest)
              | None => parse_members fuel x []
              end).
      destruct props as [|[k v] props]; [reflexivity|].
      assert (Hopen : forall tail,
                 parse_char 125 (join_comma (map member_text ((k, v) :: props)) ++ tail)
                 = None).
      { intros tail. destruct props as [|kv2 props]; cbn [map join_comma].
        - rewrite member_text_parts. reflexivity.
        - rewrite <- app_assoc, member_text_parts. reflexivity. }
      rewrite Hopen.
      rewrite parse_members_join by (trivial; try discriminate; lia).
      reflexivity.
Qed.

(* ====================================================================== *)
(** * The serializer *)
(* ====================================================================== *)

(** Parsing what [JSON.stringify] writes for a representable value gives
    the value back. *)
Theorem JSON_parse_stringify (v : value) :
  json_representable v = true ->
  exists text, JSON_stringify v = Some text /\ JSON_parse text = Some v.
Proof.
  intros Hrep. destruct (roundtrips_all v Hrep) as (text & Hs & _ & Hsize & Hparse).
  exists text. split; [exact Hs|].
  unfold JSON_parse.
  specialize (Hparse (S (List.length text)) [] ltac:(lia) eq_refl).
  rewrite app_nil_r in Hparse. now rewrite Hparse.
Qed.

Lemma JSON_parse_stringify_witness :
  let v := VArr [VNum (Number_of_Q (1 # 10)); VStr "a"; VNull; VObj ["k" =: VBool true]] in
  json_representable v = true /\
  exists text, JSON_stringify v = Some text /\ JSON_parse text = Some v.
Proof.
  cbv zeta.
  assert (H : json_representable
                (VArr [VNum (Number_of_Q (1 # 10)); VStr "a"; VNull;
                       VObj ["k" =: VBool true]]) = true)
    by (vm_compute; reflexivity).
  split; [exact H|]. exact (JSON_parse_stringify _ H).
Defined.

Lemma createJsonLdScript_stringify (schema : ScriptInput) :
  JSON_stringify (script_value schema) = Some (createJsonLdScript schema).
Proof.
  unfold createJsonLdScript. cbv zeta.
  destruct (isArray (script_value schema)); destruct schema; reflexivity.
Qed.

(** Parsing the script text of a representable schema, or sequence of
    schemas, gives the input back. *)
Theorem createJsonLdScript_roundtrip (schema : ScriptInput) :
  json_representable (script_value schema) = true ->
  JSON_parse (createJsonLdScript schema) = Some (script_value schema).
Proof.
  intros Hrep. destruct (JSON_parse_stringify _ Hrep) as (text & Hs & Hp).
  rewrite createJsonLdScript_stringify in Hs. injection Hs as <-. exact Hp.
Qed.

Lemma createJsonLdScript_roundtrip_witness :
  json_representable (script_value sample_page) = true /\
  JSON_parse (createJsonLdScript sample_page) = Some (script_value sample_page).
Proof.
  assert (H : json_representable (script_value sample_page) = true)
    by (vm_compute; reflexivity).
  split; [exact H|]. exact (createJsonLdScript_roundtrip _ H).
Defined.

Lemma serialize_defined (v : value) :
  is_undefined v = false -> exists text, SerializeJSONProperty v = Some text.
Proof.
  destruct v as [| |[|]| | | |]; intros H; try discriminate H; eexists; reflexivity.
Qed.

Lemma members_defined (props : object) :
  flat_map (fun '(k, v) =>
              match SerializeJSONProperty v with
              | Some text => [QuoteJSONString k ++ ":" ++ text]
              | None => []
              end) props
  = map member_text (filter (fun kv => negb (is_undefined (snd kv))) props).
Proof.
  induction props as [|[k v] props IH]; [reflexivity|].
  cbn [flat_map filter snd]. rewrite IH.
  destruct (is_undefined v) eqn:Hu.
  - destruct v; try discriminate Hu. reflexivity.
  - destruct (serialize_defined v Hu) as (text & Ht).
    cbn [negb map]. unfold member_text at 2, element_text. cbn [fst snd].
    rewrite Ht. reflexivity.
Qed.

(** The script text of a sequence is the bracketed, comma-separated list
    of the script texts of its schemas, in order; merging changes
    nothing; the script text of one schema is the braced,
    comma-separated list of its members, one for each property whose
    value is not [undefined], in the order of the properties: the quoted
    name, a colon and the text of the value. *)
Theorem createJsonLdScript_merge (schemas : list object) :
  mergeSchemas schemas = schemas
  /\ createJsonLdScript (ManySchemas (mergeSchemas schemas))
     = "[" ++ join_comma (map (fun schema => createJsonLdScript (OneSchema schema)) schemas)
           ++ "]"
  /\ forall schema,
       createJsonLdScript (OneSchema schema)
       = "{" ++ join_comma
                  (map (fun kv => QuoteJSONString (fst kv) ++ ":" ++ element_text (snd kv))
                       (filter (fun kv => negb (is_undefined (snd kv))) schema))
             ++ "}".
Proof.
  split; [reflexivity|]. split.
  - unfold createJsonLdScript, mergeSchemas, JSON_stringify. cbn [script_value isArray].
    rewrite serialize_array, map_map. reflexivity.
  - intros schema.
    unfold createJsonLdScript, JSON_stringify. cbn [script_value isArray].
    cbn [SerializeJSONProperty]. rewrite members_defined. reflexivity.
Qed.

(* ====================================================================== *)
(** * What parsing recovers from any value *)
(* ====================================================================== *)

Lemma normalize_element (item : value) :
  (is_undefined item = false ->
   SerializeJSONProperty (normalize item) = SerializeJSONProperty item) ->
  element_text (match item with VUndefined => VNull | _ => normalize item end)
  = element_text item.
Proof.
  intros H. unfold element_text.
  destruct item; try (rewrite H by reflexivity; reflexivity). reflexivity.
Qed.

Lemma serialize_normalize (v : value) :
  is_undefined v = false ->
  SerializeJSONProperty (normalize v) = SerializeJSONProperty v.
Proof.
  induction v using value_induction; intros Hu; try reflexivity.
  - cbn [normalize]. destruct x as [s| | |s m e]; try reflexivity.
  - cbn [normalize]. rewrite !serialize_array, map_map.
    assert (E : map (fun x => element_text
                                match x with
                                | VUndefined => VNull
                                | _ => normalize x
                                end) items
                = map element_text items).
    { clear Hu. induction H as [|v items Hv H IH]; [reflexivity|].
      cbn [map]. rewrite IH. f_equal. now apply normalize_element. }
    now rewrite E.
  - cbn [normalize SerializeJSONProperty].
    assert (E : forall F : jsstring * value -> list jsstring,
               (forall k v, is_undefined v = false ->
                            SerializeJSONProperty (normalize v) = SerializeJSONProperty v ->
                            F (k, normalize v) = F (k, v)) ->
               (forall k, F (k, VUndefined) = []) ->
               flat_map F (flat_map (fun '(k, v) =>
                                       match v with
                                       | VUndefined => []
                                       | _ => [(k, normalize v)]
                                       end) props)
               = flat_map F props).
    { intros F HF HU. clear Hu.
      induction H as [|[k v] props Hv H IH]; [reflexivity|].
      cbn [flat_map snd] in *. rewrite flat_map_app, IH. f_equal.
      destruct v; try (cbn [flat_map]; rewrite app_nil_r; apply HF;
                       [reflexivity|now apply Hv]).
      cbn [flat_map]. now rewrite HU. }
    rewrite E; [reflexivity| |reflexivity].
    intros k v _ Hs. now rewrite Hs.
Qed.

Lemma existsb_normalized_keys (f : jsstring -> bool) (props : object) :
  existsb f (map fst (flat_map (fun '(k, v) =>
                                  match v with
                                  | VUndefined => []
                                  | _ => [(k, normalize v)]
                                  end) props)) = true ->
  existsb f (map fst props) = true.
Proof.
  induction props as [|[k v] props IH]; [trivial|].
  cbn [flat_map map fst]. rewrite map_app, existsb_app. cbn [existsb].
  intros H. apply orb_true_iff in H as [H|H].
  - destruct v; cbn in H; try discriminate; rewrite orb_false_r in H; now rewrite H.
  - rewrite (IH H). apply orb_true_r.
Qed.

Lemma distinct_normalized_keys (props : object) :
  distinct (map fst props) = true ->
  distinct (map fst (flat_map (fun '(k, v) =>
                                 match v with
                                 | VUndefined => []
                                 | _ => [(k, normalize v)]
                                 end) props)) = true.
Proof.
  induction props as [|[k v] props IH]; [trivial|].
  cbn [map fst distinct flat_map]. intros H. apply andb_prop in H as [H1 H2].
  specialize (IH H2). apply negb_true_iff in H1.
  assert (Hk : existsb (fun k' => jsstring_eqb k k')
                 (map fst (flat_map (fun '(k, v) =>
                                       match v with
                                       | VUndefined => []
                                       | _ => [(k, normalize v)]
                                       end) props)) = false).
  { destruct (existsb _ (map fst (flat_map _ props))) eqn:E; [|reflexivity].
    apply existsb_normalized_keys in E. congruence. }
  destruct v; cbn [app map fst distinct]; try (now rewrite Hk, IH); exact IH.
Qed.

Lemma representable_normalize (v : value) :
  well_formed v = true -> is_undefined v = false ->
  json_representable (normalize v) = true.
Proof.
  induction v using value_induction; intros Hw Hu; try reflexivity; try discriminate.
  - cbn [normalize well_formed] in *. destruct x as [s| | |s m e]; try reflexivity.
    exact Hw.
  - cbn [normalize well_formed json_representable] in *.
    clear Hu.
    induction H as [|v items Hv H IH]; [reflexivity|].
    cbn [forallb map] in *. apply andb_prop in Hw as [Hw1 Hw2].
    rewrite (IH Hw2), andb_true_r.
    destruct v; try reflexivity; now apply Hv.
  - cbn [normalize well_formed json_representable] in *.
    apply andb_prop in Hw as [Hd Hw].
    rewrite (distinct_normalized_keys props Hd). cbn [andb]. clear Hu Hd.
    induction H as [|[k v] props Hv H IH]; [reflexivity|].
    cbn [forallb flat_map snd] in *. apply andb_prop in Hw as [Hw1 Hw2].
    rewrite forallb_app, (IH Hw2), andb_true_r.
    destruct v; try reflexivity; cbn [forallb]; rewrite andb_true_r; now apply Hv.
Qed.

(** Parsing the text of any well-formed value other than [undefined]
    gives its normal form: the value without the properties that hold
    [undefined], with [null] for [undefined] elements and for numbers
    that are not finite, and with zero for negative zero. *)
Theorem JSON_parse_stringify_normalize (v : value) :
  well_formed v = true -> is_undefined v = false ->
  exists text, JSON_stringify v = Some text /\ JSON_parse text = Some (normalize v).
Proof.
  intros Hw Hu.
  destruct (JSON_parse_stringify _ (representable_normalize v Hw Hu))
    as (text & Hs & Hp).
  exists text. split; [|exact Hp].
  unfold JSON_stringify in *. now rewrite <- serialize_normalize.
Qed.

(* ====================================================================== *)
(** * The builders return well-formed records *)
(* ====================================================================== *)

Lemma existsb_keys_set_prop (f : jsstring -> bool) (k : jsstring) (v : value) (o : object) :
  existsb f (map fst (set_prop k v o)) = true ->
  existsb f (map fst o) = true \/ f k = true.
Proof.
  induction o as [|[k' v'] o IH]; cbn [set_prop map fst existsb].
  - rewrite orb_false_r. auto.
  - destruct (jsstring_eqb k' k) eqn:E; cbn [map fst existsb]; intros H.
    + apply orb_true_iff in H as [H|H]; [right; exact H|left].
      rewrite H. apply orb_true_r.
    + apply orb_true_iff in H as [H|H]; [left; now rewrite H|].
      destruct (IH H) as [H'|H']; [left; rewrite H'; apply orb_true_r|right; exact H'].
Qed.

Lemma well_formed_set_prop (k : jsstring) (v : value) (o : object) :
  well_formed (VObj o) = true -> well_formed v = true ->
  well_formed (VObj (set_prop k v o)) = true.
Proof.
  intros Ho Hv. induction o as [|[k' v'] o IH].
  - cbn. now rewrite Hv.
  - cbn [well_formed map fst distinct forallb] in Ho.
    apply andb_prop in Ho as [Hd Hf]. apply andb_prop in Hd as [Hk Hd].
    apply andb_prop in Hf as [Hv' Hf].
    assert (Ho' : well_formed (VObj o) = true)
      by (cbn [well_formed]; now rewrite Hd, Hf).
    specialize (IH Ho'). cbn [well_formed] in IH. apply andb_prop in IH as [IH1 IH2].
    cbn [set_prop]. destruct (jsstring_eqb k' k) eqn:E.
    + apply jsstring_eqb_true in E. subst k'.
      cbn [well_formed map fst distinct forallb]. now rewrite Hk, Hd, Hv, Hf.
    + cbn [well_formed map fst distinct forallb]. rewrite IH1, IH2, Hv'.
      destruct (existsb (fun k'0 => jsstring_eqb k' k'0) (map fst (set_prop k v o))) eqn:Ex;
        [|reflexivity].
      apply existsb_keys_set_prop in Ex as [Ex|Ex].
      * rewrite Ex in Hk. discriminate.
      * congruence.
Qed.

Lemma keeps_skip : keeps_well_formed skip.
Proof. intros o H. exact H. Qed.

Lemma keeps_assign k v : well_formed v = true -> keeps_well_formed (assign k v).
Proof. intros Hv o Ho. now apply well_formed_set_prop. Qed.

Lemma keeps_seq s1 s2 :
  keeps_well_formed s1 -> keeps_well_formed s2 -> keeps_well_formed (s1 ;; s2).
Proof. intros H1 H2 o Ho. apply H2, H1, Ho. Qed.

Lemma keeps_if (c : bool) s1 s2 :
  keeps_well_formed s1 -> keeps_well_formed s2 ->
  keeps_well_formed (if c then s1 else s2).
Proof. now destruct c. Qed.

Lemma well_formed_run schema body :
  well_formed (VObj schema) = true -> keeps_well_formed body ->
  well_formed (VObj (run schema body)) = true.
Proof. intros Hs Hb. apply Hb, Hs. Qed.

Lemma well_formed_val_str (x : option jsstring) : well_formed (val_str x) = true.
Proof. now destruct x. Qed.

Lemma well_formed_strings (l : list jsstring) : well_formed (val_strings l) = true.
Proof. unfold val_strings. cbn [well_formed]. induction l; simpl; auto. Qed.

Lemma well_formed_image (x : option ImageInput) : well_formed (val_image x) = true.
Proof. destruct x as [[]|]; cbn [val_image]; auto using well_formed_strings. Qed.

Lemma well_formed_object (o : object) :
  distinct (map fst o) = true ->
  Forall (fun kv => well_formed (snd kv) = true) o ->
  well_formed (VObj o) = true.
Proof.
  intros Hd Hf. cbn [well_formed]. rewrite Hd. cbn [andb].
  induction Hf as [|[k v] o Hv Hf IH]; [reflexivity|].
  cbn [map fst distinct] in Hd. apply andb_prop in Hd as [_ Hd].
  cbn [forallb snd] in *. now rewrite Hv, IH.
Qed.

(** A record literal: the names are compared by evaluation, the values
    are checked one by one. *)
Ltac well_formed_literal :=
  apply well_formed_object;
  [ cbn [map fst]; vm_compute; reflexivity
  | repeat (apply Forall_cons; [cbn [snd]|]); [..|apply Forall_nil] ].

Ltac well_formed_value :=
  lazymatch goal with
  | |- well_formed (val_str _) = true => apply well_formed_val_str
  | |- well_formed (val_strings _) = true => apply well_formed_strings
  | |- well_formed (val_image _) = true => apply well_formed_image
  | |- well_formed (VStr _) = true => reflexivity
  | |- well_formed (VObj _) = true => well_formed_literal; well_formed_value
  | |- well_formed (if ?c then _ else _) = true => destruct c; well_formed_value
  | |- well_formed (match ?x with _ => _ end) = true => destruct x; well_formed_value
  | |- well_formed VUndefined = true => reflexivity
  | |- _ => idtac
  end.

Ltac keeps :=
  lazymatch goal with
  | |- keeps_well_formed (_ ;; _) => apply keeps_seq; keeps
  | |- keeps_well_formed skip => apply keeps_skip
  | |- keeps_well_formed (assign _ _) => apply keeps_assign; well_formed_value
  | |- keeps_well_formed (if _ then _ else _) => apply keeps_if; keeps
  | |- keeps_well_formed (match ?x with _ => _ end) => destruct x; keeps
  | |- keeps_well_formed _ => progress cbv zeta; keeps
  | |- _ => idtac
  end.

Ltac well_formed_builder :=
  apply well_formed_run; [ well_formed_value | keeps ].

Lemma well_formed_number (q : Q) : well_formed (VNum (Number_of_Q q)) = true.
Proof. apply Number_of_Q_valid. Qed.

Lemma well_formed_service options :
  well_formed (VObj (createServiceSchema options)) = true.
Proof. unfold createServiceSchema. cbv zeta. well_formed_builder. Qed.

Lemma well_formed_faq faqs : well_formed (VObj (createFAQSchema faqs)) = true.
Proof.
  unfold createFAQSchema. well_formed_literal; well_formed_value.
  cbn [well_formed]. induction faqs as [|faq faqs IH]; [reflexivity|].
  cbn [map forallb]. rewrite IH, andb_true_r. well_formed_value.
Qed.

Lemma well_formed_breadcrumb items :
  well_formed (VObj (createBreadcrumbSchema items)) = true.
Proof.
  unfold createBreadcrumbSchema. well_formed_literal; well_formed_value.
  cbn [well_formed]. unfold mapi. generalize 0%nat.
  induction items as [|item items IH]; intros i; [reflexivity|].
  cbn [mapi_from forallb]. rewrite IH, andb_true_r.
  well_formed_literal; well_formed_value. apply well_formed_number.
Qed.

Lemma well_formed_product options :
  well_formed (VObj (createProductSchema options)) = true.
Proof. unfold createProductSchema. cbv zeta. well_formed_builder. Qed.

Lemma well_formed_article options :
  well_formed (VObj (createArticleSchema options)) = true.
Proof. unfold createArticleSchema. cbv zeta. well_formed_builder. Qed.

Lemma well_formed_event options :
  well_formed (VObj (createEventSchema options)) = true.
Proof. unfold createEventSchema. cbv zeta. well_formed_builder. Qed.

Ltac organization_keeps :=
  lazymatch goal with
  | |- keeps_well_formed (_ ;; _) => apply keeps_seq; organization_keeps
  | |- keeps_well_formed (organization_area _) => idtac
  | |- keeps_well_formed (organization_hours _) => idtac
  | |- _ => keeps
  end.

(** The records of the builders that read no number from their input
    are well formed for every input: canonical numbers and pairwise
    distinct property names at every level. *)
Theorem builders_well_formed :
  (forall options, well_formed (VObj (createServiceSchema options)) = true) /\
  (forall faqs, well_formed (VObj (createFAQSchema faqs)) = true) /\
  (forall items, well_formed (VObj (createBreadcrumbSchema items)) = true) /\
  (forall options, well_formed (VObj (createProductSchema options)) = true) /\
  (forall options, well_formed (VObj (createArticleSchema options)) = true) /\
  (forall options, well_formed (VObj (createEventSchema options)) = true).
Proof.
  repeat split.
  - apply well_formed_service.
  - apply well_formed_faq.
  - apply well_formed_breadcrumb.
  - apply well_formed_product.
  - apply well_formed_article.
  - apply well_formed_event.
Qed.

(** The Review record is well formed when the numbers of the input are
    canonical. *)
Theorem review_well_formed (options : ReviewSchemaOptions) :
  valid_review_options options = true ->
  well_formed (VObj (createReviewSchema options)) = true.
Proof.
  intros Hv. unfold valid_review_options in Hv.
  apply andb_prop in Hv as [Hv Hrs]. apply andb_prop in Hv as [Hv Hw].
  apply andb_prop in Hv as [Hv Hb]. apply andb_prop in Hv as [Hc Hr].
  assert (Hbest : valid_number (default (Number_of_Z 5) (rso_bestRating options)) = true).
  { destruct (rso_bestRating options); [exact Hb|apply Number_of_Q_valid]. }
  assert (Hworst : valid_number (default (Number_of_Z 1) (rso_worstRating options)) = true).
  { destruct (rso_worstRating options); [exact Hw|apply Number_of_Q_valid]. }
  unfold createReviewSchema. cbv zeta.
  well_formed_literal; well_formed_value; try assumption.
  cbn [well_formed].
  induction (rso_reviews options) as [|review reviews IH]; [reflexivity|].
  cbn [forallb map] in *. apply andb_prop in Hrs as [Hr1 Hrs].
  rewrite (IH Hrs), andb_true_r.
  well_formed_literal; well_formed_value; assumption.
Qed.

(** The Organization record is well formed when the coordinates of the
    input are canonical. *)
Theorem organization_well_formed (options : OrganizationSchemaOptions) :
  valid_organization_options options = true ->
  well_formed (VObj (createOrganizationSchema options)) = true.
Proof.
  intros Hv. unfold valid_organization_options in Hv.
  unfold createOrganizationSchema. cbv zeta.
  apply well_formed_run; [well_formed_value|]. organization_keeps.
  - unfold organization_area.
    destruct (oso_areaServed options) as [area|]; [|apply keeps_skip].
    cbv zeta. destruct (geoMidpoint area) as [mp|]; [|keeps].
    apply andb_prop in Hv as [H1 H2].
    apply keeps_if; [|keeps].
    apply keeps_assign. well_formed_literal; well_formed_value; assumption.
  - unfold organization_hours. keeps.
Qed.

Lemma review_well_formed_witness :
  well_formed (VObj (createReviewSchema sample_reviews)) = true.
Proof. apply (review_well_formed sample_reviews). vm_compute. reflexivity. Defined.

Lemma organization_well_formed_witness :
  well_formed (VObj (createOrganizationSchema (org_with_area sample_area))) = true.
Proof.
  apply (organization_well_formed (org_with_area sample_area)). vm_compute. reflexivity.
Defined.

(* ====================================================================== *)
(** * Breadcrumb positions *)
(* ====================================================================== *)

(** The positions of a breadcrumb list are the exact integers 1, 2, ...:
    the i-th entry carries the Number that is finite, not negative, and
    of value i+1. *)
Theorem breadcrumb_positions_exact (items : list BreadcrumbItem) (i : nat)
    (item : BreadcrumbItem) :
  nth_error items i = Some item ->
  Z.of_nat i + 1 < 2 ^ 53 ->
  exists elements entry x,
    get_prop "itemListElement" (createBreadcrumbSchema items) = Some (VArr elements) /\
    nth_error elements i = Some entry /\
    field "position" (Some entry) = Some (VNum x) /\
    x = Number_of_Z (Z.of_nat i + 1) /\
    json_number x = true /\
    is_negative x = false /\
    (magnitude x == inject_Z (Z.of_nat i + 1))%Q.
Proof.
  intros Hi Hb.
  destruct (Number_of_Z_exact (Z.of_nat i + 1) ltac:(lia)) as (Hj & Hn & Hm).
  eexists. eexists. exists (Number_of_Z (Z.of_nat i + 1)).
  split; [reflexivity|]. split.
  - unfold mapi. rewrite mapi_from_nth, Hi. reflexivity.
  - split; [reflexivity|]. split; [reflexivity|].
    split; [exact Hj|]. split; [exact Hn|exact Hm].
Qed.

Lemma breadcrumb_positions_exact_witness :
  exists elements entry x,
    get_prop "itemListElement" (createBreadcrumbSchema sample_trail) = Some (VArr elements) /\
    nth_error elements 1 = Some entry /\
    field "position" (Some entry) = Some (VNum x) /\
    x = Number_of_Z 2 /\
    json_number x = true /\
    is_negative x = false /\
    (magnitude x == inject_Z 2)%Q.
Proof.
  apply (breadcrumb_positions_exact sample_trail 1%nat
           {| bc_name := "Products"; bc_url := "https://example.com/products" |}).
  - reflexivity.
  - reflexivity.
Defined.

(* ====================================================================== *)
(** * From the builders to the parsed script *)
(* ====================================================================== *)

(** The script text of the schemas is what [JSON.stringify] returns for
    them, so what holds of parsing that holds of parsing the script. *)
Ltac parse_script H :=
  let text := fresh "text" in
  let Hs := fresh "Hs" in
  let Hp := fresh "Hp" in
  destruct H as (text & Hs & Hp);
  rewrite createJsonLdScript_stringify in Hs; apply Some_inj in Hs; subst text.

Lemma script_is_defined (schema : ScriptInput) : is_undefined (script_value schema) = false.
Proof. now destruct schema. Qed.

(** Parsing the script text of well-formed schemas gives their normal
    form: the input without the properties that hold [undefined]. *)
Theorem createJsonLdScript_parse (schema : ScriptInput) :
  well_formed (script_value schema) = true ->
  JSON_parse (createJsonLdScript schema) = Some (normalize (script_value schema)).
Proof.
  intros Hw.
  pose proof (JSON_parse_stringify_normalize _ Hw (script_is_defined schema)) as H.
  parse_script H. exact Hp.
Qed.

Lemma createJsonLdScript_parse_witness :
  let schema := OneSchema (createProductSchema (with_offer (Number_of_Z 10) "USD" None)) in
  JSON_parse (createJsonLdScript schema) = Some (normalize (script_value schema)).
Proof.
  cbv zeta. apply createJsonLdScript_parse. vm_compute. reflexivity.
Defined.

Lemma get_prop_normalize (k : jsstring) (o : object) :
  distinct (map fst o) = true ->
  get_prop k (flat_map (fun '(k, v) =>
                          match v with
                          | VUndefined => []
                          | _ => [(k, normalize v)]
                          end) o)
  = parsed_lookup (get_prop k o).
Proof.
  induction o as [|[k' v] o IH]; [reflexivity|].
  cbn [map fst distinct]. intros H. apply andb_prop in H as [Hk Hd].
  specialize (IH Hd). cbn [flat_map get_prop].
  destruct (jsstring_eqb k' k) eqn:E.
  - apply jsstring_eqb_true in E. subst k'.
    assert (Hnone : get_prop k o = None).
    { apply negb_true_iff in Hk. clear - Hk.
      induction o as [|[k2 v2] o IHo]; [reflexivity|].
      cbn [map fst existsb] in Hk. apply orb_false_iff in Hk as [H1 H2].
      cbn [get_prop].
      destruct (jsstring_eqb k2 k) eqn:E2; [|now apply IHo].
      apply jsstring_eqb_true in E2. subst k2.
      rewrite jsstring_eqb_refl in H1. discriminate. }
    destruct v; cbn [app get_prop parsed_lookup];
      rewrite ?jsstring_eqb_refl; try reflexivity.
    rewrite IH, Hnone. reflexivity.
  - destruct v; cbn [app get_prop]; rewrite ?E; exact IH.
Qed.

(** Looking a property up in the parsed script of a well-formed schema
    finds the normal form of what the schema holds, and nothing where
    the schema holds [undefined] or has no such property. *)
Theorem parsed_script_lookup (schema : object) :
  well_formed (VObj schema) = true ->
  exists parsed,
    JSON_parse (createJsonLdScript (OneSchema schema)) = Some (VObj parsed) /\
    forall k, get_prop k parsed = parsed_lookup (get_prop k schema).
Proof.
  intros Hw.
  pose proof (JSON_parse_stringify_normalize (script_value (OneSchema schema)) Hw eq_refl)
      as H.
  parse_script H. eexists. split; [exact Hp|].
  intros k. apply get_prop_normalize.
  cbn [well_formed] in Hw. now apply andb_prop in Hw as [Hd _].
Qed.

Lemma parsed_script_lookup_witness :
  let schema := createEventSchema
    {| eso_name := "Launch"; eso_startDate := "2025-01-01"; eso_description := None;
       eso_endDate := None; eso_location := None; eso_url := Some ([] : jsstring);
       eso_image := None; eso_eventStatus := None; eso_eventAttendanceMode := None |} in
  exists parsed,
    JSON_parse (createJsonLdScript (OneSchema schema)) = Some (VObj parsed) /\
    forall k, get_prop k parsed = parsed_lookup (get_prop k schema).
Proof.
  cbv zeta. apply parsed_script_lookup. vm_compute. reflexivity.
Defined.

(** For every input of the builders that read no number, the script text
    of the record parses, and gives the record without the properties
    that hold [undefined]. *)
Theorem builders_scripts_parse :
  let parses (schema : object) :=
    JSON_parse (createJsonLdScript (OneSchema schema)) = Some (normalize (VObj schema)) in
  (forall options, parses (createServiceSchema options)) /\
  (forall faqs, parses (createFAQSchema faqs)) /\
  (forall items, parses (createBreadcrumbSchema items)) /\
  (forall options, parses (createProductSchema options)) /\
  (forall options, parses (createArticleSchema options)) /\
  (forall options, parses (createEventSchema options)).
Proof.
  assert (Hparse : forall schema, well_formed (VObj schema) = true ->
            JSON_parse (createJsonLdScript (OneSchema schema))
            = Some (normalize (VObj schema))).
  { intros schema Hw.
    pose proof (JSON_parse_stringify_normalize (script_value (OneSchema schema)) Hw eq_refl)
      as H.
    parse_script H. exact Hp. }
  cbv zeta. repeat split; intros; apply Hparse.
  - apply well_formed_service.
  - apply well_formed_faq.
  - apply well_formed_breadcrumb.
  - apply well_formed_product.
  - apply well_formed_article.
  - apply well_formed_event.
Qed.

Lemma representable_object (o : object) :
  distinct (map fst o) = true ->
  Forall (fun kv => json_representable (snd kv) = true) o ->
  json_representable (VObj o) = true.
Proof.
  intros Hd Hf. cbn [json_representable]. rewrite Hd. cbn [andb].
  induction Hf as [|[k v] o Hv Hf IH]; [reflexivity|].
  cbn [map fst distinct] in Hd. apply andb_prop in Hd as [_ Hd].
  cbn [forallb snd] in *. now rewrite Hv, IH.
Qed.

Ltac representable_literal :=
  apply representable_object;
  [ cbn [map fst]; vm_compute; reflexivity
  | repeat (apply Forall_cons; [cbn [snd]|]); [..|apply Forall_nil] ];
  try reflexivity.

(** The FAQ record holds no [undefined]: parsing its script text gives
    the record itself, whatever the questions and answers are. *)
Theorem faq_script_roundtrip (faqs : list FAQItem) :
  JSON_parse (createJsonLdScript (OneSchema (createFAQSchema faqs)))
  = Some (VObj (createFAQSchema faqs)).
Proof.
  assert (Hrep : json_representable (VObj (createFAQSchema faqs)) = true).
  { unfold createFAQSchema. representable_literal.
    cbn [json_representable]. induction faqs as [|faq faqs IH]; [reflexivity|].
    cbn [map forallb]. rewrite IH, andb_true_r.
    representable_literal. }
  pose proof (JSON_parse_stringify (script_value (OneSchema _)) Hrep) as H.
  parse_script H. exact Hp.
Qed.

(** Parsing the script text of a breadcrumb list gives the record
    itself, positions included. *)
Theorem breadcrumb_script_roundtrip (items : list BreadcrumbItem) :
  Z.of_nat (List.length items) < 2 ^ 53 ->
  JSON_parse (createJsonLdScript (OneSchema (createBreadcrumbSchema items)))
  = Some (VObj (createBreadcrumbSchema items)).
Proof.
  intros Hlen.
  assert (Hrep : json_representable (VObj (createBreadcrumbSchema items)) = true).
  { unfold createBreadcrumbSchema. representable_literal.
    cbn [json_representable]. unfold mapi.
    assert (Hall : forall i, Z.of_nat i + Z.of_nat (List.length items) < 2 ^ 53 ->
              forallb json_representable
                (mapi_from i (fun item index => VObj [
                    "@type" =: VStr "ListItem";
                    "position" =: VNum (Number_of_Z (Z.of_nat index + 1));
                    "name" =: VStr (bc_name item);
                    "item" =: VStr (bc_url item) ]) items) = true).
    { clear Hlen. induction items as [|item items IH]; intros i Hi; [reflexivity|].
      cbn [List.length] in Hi. cbn [mapi_from forallb].
      rewrite IH by lia. rewrite andb_true_r.
      representable_literal.
      apply (Number_of_Z_exact (Z.of_nat i + 1)). lia. }
    apply Hall. lia. }
  pose proof (JSON_parse_stringify (script_value (OneSchema _)) Hrep) as H.
  parse_script H. exact Hp.
Qed.

Lemma breadcrumb_script_roundtrip_witness :
  JSON_parse (createJsonLdScript (OneSchema (createBreadcrumbSchema sample_trail)))
  = Some (VObj (createBreadcrumbSchema sample_trail)).
Proof. apply breadcrumb_script_roundtrip. vm_compute. reflexivity. Defined.

(* ====================================================================== *)
(** * The order of the properties *)
(* ====================================================================== *)

Lemma existsb_eqb_In (k : jsstring) (ks : list jsstring) :
  existsb (jsstring_eqb k) ks = true <-> In k ks.
Proof.
  rewrite existsb_exists. split.
  - intros (x & Hx & E). apply jsstring_eqb_true in E. now subst.
  - intros H. exists k. split; [exact H|apply jsstring_eqb_refl].
Qed.

Lemma disjoint_spec (ks1 ks2 : list jsstring) :
  disjoint ks1 ks2 = true -> forall k, In k ks1 -> ~ In k ks2.
Proof.
  unfold disjoint. rewrite forallb_forall. intros H k H1 H2.
  specialize (H k H1). apply negb_true_iff in H.
  apply existsb_eqb_In in H2. congruence.
Qed.

Lemma present_none (o : object) (names : list jsstring) :
  (forall k, In k names -> get_prop k o = None) -> present o names = [].
Proof.
  unfold present. induction names as [|k names IH]; intros H; [reflexivity|].
  cbn [filter]. unfold has_prop at 1. rewrite (H k (or_introl eq_refl)).
  apply IH. intros k' Hk'. apply H. now right.
Qed.

Lemma present_all (o : object) (names : list jsstring) :
  (forall k, In k names -> has_prop k o = true) -> present o names = names.
Proof.
  unfold present. induction names as [|k names IH]; intros H; [reflexivity|].
  cbn [filter]. rewrite (H k (or_introl eq_refl)). f_equal.
  apply IH. intros k' Hk'. apply H. now right.
Qed.

Lemma present_one (o : object) (k : jsstring) (names : list jsstring) :
  distinct names = true -> In k names ->
  has_prop k o = true ->
  (forall k', In k' names -> k' <> k -> has_prop k' o = false) ->
  present o names = [k].
Proof.
  unfold present. induction names as [|k0 names IH]; intros Hd Hin Hk Hothers.
  - destruct Hin.
  - cbn [distinct] in Hd. apply andb_prop in Hd as [Hfresh Hd].
    apply negb_true_iff in Hfresh.
    change (existsb (jsstring_eqb k0) names = false) in Hfresh. cbn [filter].
    destruct (list_eq_dec N.eq_dec k0 k) as [->|Hne].
    + rewrite Hk. f_equal. apply (present_none o names).
      intros k' Hk'.
      assert (k' <> k).
      { intros ->. apply existsb_eqb_In in Hk'. congruence. }
      specialize (Hothers k' (or_intror Hk') H).
      unfold has_prop in Hothers. now destruct (get_prop k' o).
    + rewrite (Hothers k0 (or_introl eq_refl) Hne).
      destruct Hin as [E|Hin]; [congruence|].
      apply IH; try assumption.
      intros k' Hk'. apply Hothers. now right.
Qed.

Lemma get_prop_keys (k : jsstring) (o : object) :
  In k (keys o) -> has_prop k o = true.
Proof.
  unfold has_prop, keys. induction o as [|[k0 v0] o IH]; intros H; [destruct H|].
  cbn [get_prop]. destruct (jsstring_eqb k0 k) eqn:E; [reflexivity|].
  apply IH. destruct H as [H|H]; [|exact H].
  cbn [fst] in H. subst. rewrite jsstring_eqb_refl in E. discriminate.
Qed.

Lemma appends_skip (names : list jsstring) : appends names skip.
Proof.
  intros o H. unfold skip. rewrite (present_none o names H), app_nil_r. now split.
Qed.

Lemma appends_assign (names : list jsstring) (k : jsstring) (v : value) :
  existsb (jsstring_eqb k) names = true -> distinct names = true ->
  appends names (assign k v).
Proof.
  intros Hin Hd o H. apply existsb_eqb_In in Hin. unfold assign. split.
  - rewrite (keys_set_fresh k v o (H k Hin)). f_equal. symmetry.
    apply present_one; try assumption.
    + unfold has_prop. now rewrite get_set_same.
    + intros k' Hk' Hne. unfold has_prop. rewrite get_set_other.
      * now rewrite (H k' Hk').
      * destruct (jsstring_eqb k k') eqn:E; [|reflexivity].
        apply jsstring_eqb_true in E. congruence.
  - intros k' Hk'. apply get_set_other.
    destruct (jsstring_eqb k k') eqn:E; [|reflexivity].
    apply jsstring_eqb_true in E. congruence.
Qed.

Lemma appends_if (names : list jsstring) (c : bool) (s1 s2 : stmt) :
  appends names s1 -> appends names s2 -> appends names (if c then s1 else s2).
Proof. now destruct c. Qed.

Lemma appends_seq (names1 names2 : list jsstring) (s1 s2 : stmt) :
  appends names1 s1 -> appends names2 s2 -> disjoint names1 names2 = true ->
  appends (names1 ++ names2) (s1 ;; s2).
Proof.
  intros H1 H2 Hdis o H. unfold seq.
  pose proof (disjoint_spec _ _ Hdis) as Hd.
  destruct (H1 o) as [K1 F1]; [intros k Hk; apply H; apply in_or_app; now left|].
  destruct (H2 (s1 o)) as [K2 F2].
  { intros k Hk. rewrite F1; [apply H; apply in_or_app; now right|].
    intros Hk1. exact (Hd k Hk1 Hk). }
  split.
  - rewrite K2, K1, <- app_assoc. f_equal. unfold present. rewrite filter_app. f_equal.
    apply filter_ext_in. intros k Hk. unfold has_prop. rewrite F2; [reflexivity|].
    exact (Hd k Hk).
  - intros k Hk. rewrite F2, F1; [reflexivity| |];
      intros Hk'; apply Hk; apply in_or_app; auto.
Qed.

Lemma keys_run (schema : object) (names : list jsstring) (body : stmt) :
  appends names body -> disjoint names (keys schema) = true ->
  keys (run schema body) = present (run schema body) (keys schema ++ names).
Proof.
  intros Hb Hdis. unfold run.
  pose proof (disjoint_spec _ _ Hdis) as Hd.
  destruct (Hb schema) as [K F].
  { intros k Hk. specialize (Hd k Hk).
    destruct (get_prop k schema) eqn:E; [|reflexivity].
    exfalso. apply Hd. clear - E. unfold keys.
    induction schema as [|[k0 v0] o IH]; [discriminate|].
    cbn [get_prop] in E. cbn [map fst].
    destruct (jsstring_eqb k0 k) eqn:E0.
    - left. now apply jsstring_eqb_true.
    - right. now apply IH. }
  rewrite K at 1. unfold present at 2. rewrite filter_app. f_equal.
  symmetry. apply present_all. intros k Hk. unfold has_prop.
  rewrite F; [exact (get_prop_keys k schema Hk)|].
  intros Hk'. exact (Hd k Hk' Hk).
Qed.

Ltac appends :=
  lazymatch goal with
  | |- appends (_ ++ _) (_ ;; _) =>
      apply appends_seq; [appends | appends | vm_compute; reflexivity]
  | |- appends _ skip => apply appends_skip
  | |- appends _ (assign _ _) => apply appends_assign; vm_compute; reflexivity
  | |- appends _ (if _ then _ else _) => apply appends_if; appends
  | |- appends _ (match ?x with _ => _ end) => destruct x; appends
  end.

Ltac properties_in_order names :=
  cbv zeta;
  lazymatch goal with
  | |- keys (run ?schema ?body) = present _ _ =>
      exact (keys_run schema names body ltac:(appends) ltac:(vm_compute; reflexivity))
  end.

(** The properties of a record stand in the order of the source: the
    required ones first, then each optional one that was created, each
    at most once, and no other property. *)
Theorem properties_in_order :
  (forall options,
      let schema := createOrganizationSchema options in
      keys schema = present schema (property_names
        [ "@context"; "@type"; "name"; "url"; "@id"; "description"; "telephone";
          "email"; "priceRange"; "image"; "logo"; "sameAs"; "areaServed";
          "openingHours"; "openingHoursSpecification" ])) /\
  (forall options,
      let schema := createServiceSchema options in
      keys schema = present schema (property_names
        [ "@context"; "@type"; "name"; "description"; "url"; "provider";
          "image"; "serviceType"; "areaServed" ])) /\
  (forall options,
      let schema := createProductSchema options in
      keys schema = present schema (property_names
        [ "@context"; "@type"; "name"; "description"; "image"; "url"; "brand";
          "sku"; "offers" ])) /\
  (forall options,
      let schema := createArticleSchema options in
      keys schema = present schema (property_names
        [ "@context"; "@type"; "headline"; "datePublished"; "author"; "publisher";
          "description"; "image"; "dateModified"; "mainEntityOfPage" ])) /\
  (forall options,
      let schema := createEventSchema options in
      keys schema = present schema (property_names
        [ "@context"; "@type"; "name"; "startDate"; "description"; "endDate";
          "location"; "url"; "image"; "eventStatus"; "eventAttendanceMode" ])).
Proof.
  split; [|split; [|split; [|split]]]; intros options.
  - unfold createOrganizationSchema, organization_area, organization_hours.
    properties_in_order
      ((((((((([ "@id" : jsstring ] ++ [ "description" : jsstring ])
               ++ [ "telephone" : jsstring ]) ++ [ "email" : jsstring ])
             ++ [ "priceRange" : jsstring ]) ++ [ "image" : jsstring ])
           ++ [ "logo" : jsstring ]) ++ [ "sameAs" : jsstring ])
         ++ [ "areaServed" : jsstring ])
        ++ [ "openingHours" : jsstring ; "openingHoursSpecification" : jsstring ]).
  - unfold createServiceSchema.
    properties_in_order
      (([ "image" : jsstring ] ++ [ "serviceType" : jsstring ])
        ++ [ "areaServed" : jsstring ]).
  - unfold createProductSchema.
    properties_in_order
      (((([ "image" : jsstring ] ++ [ "url" : jsstring ]) ++ [ "brand" : jsstring ])
         ++ [ "sku" : jsstring ]) ++ [ "offers" : jsstring ]).
  - unfold createArticleSchema.
    properties_in_order
      ((([ "description" : jsstring ] ++ [ "image" : jsstring ])
         ++ [ "dateModified" : jsstring ]) ++ [ "mainEntityOfPage" : jsstring ]).
  - unfold createEventSchema.
    properties_in_order
      (((((([ "description" : jsstring ] ++ [ "endDate" : jsstring ])
            ++ [ "location" : jsstring ]) ++ [ "url" : jsstring ])
          ++ [ "image" : jsstring ]) ++ [ "eventStatus" : jsstring ])
        ++ [ "eventAttendanceMode" : jsstring ]).
Qed.

(* ====================================================================== *)
(** * Strings in the script text *)
(* ====================================================================== *)

Lemma quote_body_plain (s : jsstring) : plain_text s = true -> quote_body s = s.
Proof.
  induction s as [|c s IH]; [reflexivity|].
  unfold plain_text. cbn [forallb]. intros H. apply andb_prop in H as [Hc Hs].
  unfold plain_unit in Hc. apply negb_true_iff in Hc.
  apply orb_false_iff in Hc as [Hc Htrail]. apply orb_false_iff in Hc as [Hc Hlead].
  apply orb_false_iff in Hc as [Hc Hr]. apply orb_false_iff in Hc as [Hc Hq].
  unfold quotation_mark, reverse_solidus in *.
  apply N.ltb_ge in Hc. apply N.eqb_neq in Hr, Hq.
  cbn [quote_body]. unfold quotation_mark, reverse_solidus.
  repeat match goal with
         | |- context [(c =? ?n)%N] =>
             destruct (N.eqb_spec c n); [first [lia | congruence]|]
         end.
  destruct (N.ltb_spec c 32); [lia|].
  rewrite Hlead, Htrail. f_equal. now apply IH.
Qed.

Lemma join_comma_In (part : jsstring) (parts : list jsstring) :
  In part parts -> exists before after, join_comma parts = before ++ part ++ after.
Proof.
  induction parts as [|p parts IH]; intros H; [destruct H|].
  destruct parts as [|q parts].
  - destruct H as [->|[]]. exists [], []. cbn [join_comma]. now rewrite app_nil_r.
  - rewrite join_comma_cons. destruct H as [->|H].
    + exists [], ("," ++ join_comma (q :: parts)). reflexivity.
    + destruct (IH H) as (b & a & E). rewrite E.
      exists (p ++ "," ++ b), a. now rewrite <- !app_assoc.
Qed.

Lemma serialize_strings (v : value) :
  forall s, In s (strings_of v) ->
  exists text before after,
    SerializeJSONProperty v = Some text /\
    text = before ++ QuoteJSONString s ++ after.
Proof.
  induction v as [| | | | s0 |items IH|props IH] using value_induction;
    intros s Hin; try (destruct Hin; fail).
  - destruct Hin as [->|[]]. exists (QuoteJSONString s), [], [].
    split; [reflexivity|]. cbn [app]. now rewrite app_nil_r.
  - cbn [strings_of] in Hin. apply in_flat_map in Hin as (item & Hitem & Hs).
    rewrite Forall_forall in IH.
    destruct (IH item Hitem s Hs) as (text & b & a & Ht & E).
    destruct (join_comma_In text
                (map (fun item => match SerializeJSONProperty item with
                                  | Some text => text
                                  | None => str "null"
                                  end) items)) as (b' & a' & E').
    { apply in_map_iff. exists item. now rewrite Ht. }
    cbn [SerializeJSONProperty]. eexists. exists ("[" ++ b' ++ b), (a ++ a' ++ "]").
    split; [reflexivity|]. rewrite E', E. now rewrite <- !app_assoc.
  - cbn [strings_of] in Hin. apply in_flat_map in Hin as ([k v] & Hkv & Hs).
    rewrite Forall_forall in IH.
    destruct (IH (k, v) Hkv s Hs) as (text & b & a & Ht & E). cbn [snd] in Ht.
    destruct (join_comma_In (QuoteJSONString k ++ ":" ++ text)
                (flat_map (fun '(k, v) =>
                             match SerializeJSONProperty v with
                             | Some text => [QuoteJSONString k ++ ":" ++ text]
                             | None => []
                             end) props)) as (b' & a' & E').
    { apply in_flat_map. exists (k, v). split; [exact Hkv|]. rewrite Ht. now left. }
    cbn [SerializeJSONProperty]. eexists.
    exists ("{" ++ b' ++ QuoteJSONString k ++ ":" ++ b), (a ++ a' ++ "}").
    split; [reflexivity|]. rewrite E', E. now rewrite <- !app_assoc.
Qed.

(** A string value anywhere in the schemas that has no quotation mark,
    backslash, control character or surrogate stands in the script text
    as it is, between quotation marks: the serializer escapes nothing
    else, the characters of markup included. *)
Theorem createJsonLdScript_keeps_plain_strings (schema : ScriptInput) (s : jsstring) :
  existsb (jsstring_eqb s) (strings_of (script_value schema)) = true ->
  plain_text s = true ->
  exists before after,
    createJsonLdScript schema
    = before ++ [quotation_mark] ++ s ++ [quotation_mark] ++ after.
Proof.
  intros Hin Hplain. apply existsb_eqb_In in Hin.
  destruct (serialize_strings _ s Hin) as (text & b & a & Ht & E).
  change (JSON_stringify (script_value schema) = Some text) in Ht.
  rewrite createJsonLdScript_stringify in Ht. apply Some_inj in Ht.
  exists b, a. rewrite Ht, E. unfold QuoteJSONString.
  rewrite (quote_body_plain s Hplain). now rewrite <- !app_assoc.
Qed.

Lemma createJsonLdScript_keeps_plain_strings_witness :
  let schema := OneSchema (createFAQSchema
    [ {| question := "Is 1 < 2?"; answer := "</script><script>alert(1)</script>" |} ]) in
  exists before after,
    createJsonLdScript schema
    = before ++ [quotation_mark] ++ str "</script><script>alert(1)</script>"
             ++ [quotation_mark] ++ after.
Proof.
  cbv zeta. apply createJsonLdScript_keeps_plain_strings.
  - vm_compute. reflexivity.
  - vm_compute. reflexivity.
Defined.
